(** * Caching and batching layer of the graph toolkit: a shallow embedding

    The development follows the TypeScript sources:
    - [Batch] (the request-batching engine: [get], [executeNext],
      [executeAll]),
    - [GraphPageIterator] ([create], [createFromValue], [next]),
    - the entity accessors that sit on top of them (freshness checks of
      cached items, [myPhoto], [getGroup], [getGroupsForGroupIds],
      [getChannelsForTeams], [getPersonCardGraphData]).

    Asynchronous code is run in program order: every [await] is a point
    where the environment (the transport, the cache store, the clock) is
    consulted, and the environment is a parameter of the run.  Effects are
    kept in an explicit state, exceptions in the result. *)

From Stdlib Require Import ZArith String Ascii List Lia Bool DecimalNat.
From stdpp Require Import gmap strings list fin_maps.

Local Open Scope string_scope.
Local Open Scope Z_scope.

(** ** JavaScript primitives used by the sources *)

Module Js.

(** Exceptions that the modelled code can raise or receive. *)
Inductive Exn : Type :=
| TypeError                       (* property read on undefined/null *)
| TransportError (msg : string).  (* a rejected request promise *)

(** Result of running a piece of code: a value, a thrown exception, or
    the loop budget of the model ran out. *)
Inductive Result (A : Type) : Type :=
| Ok (a : A)
| Throw (e : Exn)
| Timeout.
Arguments Ok {A} a.
Arguments Throw {A} e.
Arguments Timeout {A}.

(** State and exception monad. *)
Definition M (S A : Type) : Type := S -> Result A * S.

Definition ret {S A} (a : A) : M S A := fun s => (Ok a, s).

Definition bind {S A B} (m : M S A) (k : A -> M S B) : M S B :=
  fun s =>
    match m s with
    | (Ok a, s') => k a s'
    | (Throw e, s') => (Throw e, s')
    | (Timeout, s') => (Timeout, s')
    end.

Definition throw {S A} (e : Exn) : M S A := fun s => (Throw e, s).

Definition timeout {S A} : M S A := fun s => (Timeout, s).

(** [try { m } catch (e) { h e }] *)
Definition tryCatch {S A} (m : M S A) (h : Exn -> M S A) : M S A :=
  fun s =>
    match m s with
    | (Throw e, s') => h e s'
    | r => r
    end.

Definition getState {S} : M S S := fun s => (Ok s, s).
Definition modify {S} (f : S -> S) : M S unit := fun s => (Ok tt, f s).

(** A [for ... of] loop threading an accumulator. *)
Fixpoint forOf {S A B} (f : A -> B -> M S A) (l : list B) (a : A) : M S A :=
  match l with
  | [] => ret a
  | b :: l' => bind (f a b) (forOf f l')
  end.

(** [Array.prototype.map] with an effectful callback run in order. *)
Fixpoint mapEach {S A B} (f : A -> M S B) (l : list A) : M S (list B) :=
  match l with
  | [] => ret []
  | a :: l' => bind (f a) (fun b => bind (mapEach f l') (fun bs => ret (b :: bs)))
  end.

(** *** Strings *)

(** [hay.includes(needle)] *)
Fixpoint includes (hay needle : string) : bool :=
  String.prefix needle hay ||
  match hay with
  | EmptyString => false
  | String _ hay' => includes hay' needle
  end.

(** Truthiness of a possibly absent string: [undefined], [null] and the
    empty string are falsy. *)
Definition truthyStr (o : option string) : bool :=
  match o with
  | Some (String _ _) => true
  | _ => false
  end.

Fixpoint splitGo (sep s : string) (skip : nat) (cur : string) : list string :=
  match s with
  | EmptyString => [cur]
  | String c s' =>
      match skip with
      | S k => splitGo sep s' k cur
      | O =>
          if String.prefix sep s
          then cur :: splitGo sep s' (Nat.pred (String.length sep)) EmptyString
          else splitGo sep s' O (cur ++ String c EmptyString)
      end
  end.

(** [s.split(sep)]: the pieces between the non-overlapping occurrences of
    [sep], found from left to right; an empty separator cuts between
    every two characters. *)
Definition split (s sep : string) : list string :=
  match sep with
  | EmptyString => map (fun c => String c EmptyString) (list_ascii_of_string s)
  | _ => splitGo sep s O EmptyString
  end.

(** *** Numbers *)

Definition isSpace (c : ascii) : bool :=
  let n := nat_of_ascii c in
  ((9 <=? n)%nat && (n <=? 13)%nat) || (n =? 32)%nat.

Definition digitOf (c : ascii) : option Z :=
  let n := nat_of_ascii c in
  if ((48 <=? n)%nat && (n <=? 57)%nat) then Some (Z.of_nat (n - 48)) else None.

Fixpoint skipSpaces (s : string) : string :=
  match s with
  | String c s' => if isSpace c then skipSpaces s' else s
  | EmptyString => s
  end.

(** The longest prefix of decimal digits, accumulated from the left;
    [None] when there is no digit at all. *)
Fixpoint digits (s : string) (acc : option Z) : option Z :=
  match s with
  | String c s' =>
      match digitOf c with
      | Some d =>
          digits s' (Some (match acc with Some a => 10 * a + d | None => d end))
      | None => acc
      end
  | EmptyString => acc
  end.

(** [parseInt(s, 10)]; [None] is [NaN].  An absent argument
    ([undefined]) gives [NaN] as well. *)
Definition parseInt (o : option string) : option Z :=
  match o with
  | None => None
  | Some s =>
      match skipSpaces s with
      | String "-" s' => Z.opp <$> digits s' None
      | String "+" s' => digits s' None
      | s' => digits s' None
      end
  end.

(** [x || d] on a number that may be [NaN]: [NaN] and [0] are falsy. *)
Definition orElse (x : option Z) (d : Z) : Z :=
  match x with
  | Some 0 | None => d
  | Some v => v
  end.

Fixpoint uintString (d : Decimal.uint) : string :=
  match d with
  | Decimal.Nil => EmptyString
  | Decimal.D0 d => String "0" (uintString d)
  | Decimal.D1 d => String "1" (uintString d)
  | Decimal.D2 d => String "2" (uintString d)
  | Decimal.D3 d => String "3" (uintString d)
  | Decimal.D4 d => String "4" (uintString d)
  | Decimal.D5 d => String "5" (uintString d)
  | Decimal.D6 d => String "6" (uintString d)
  | Decimal.D7 d => String "7" (uintString d)
  | Decimal.D8 d => String "8" (uintString d)
  | Decimal.D9 d => String "9" (uintString d)
  end.

(** [n.toString()] for a non-negative integer. *)
Definition toString (n : nat) : string := uintString (Nat.to_uint n).

(** [a[i]] for a number [i] that may be [NaN], negative or out of
    range: [undefined] in each of these cases. *)
Definition at_ {A} (l : list A) (i : option Z) : option A :=
  match i with
  | Some z => if z <? 0 then None else l !! Z.to_nat z
  | None => None
  end.

End Js.

Declare Scope js_scope.
Delimit Scope js_scope with js.
Notation "x <- c1 ;; c2" := (Js.bind c1 (fun x => c2))
  (at level 100, c1 at next level, right associativity) : js_scope.
Notation "c1 ;; c2" := (Js.bind c1 (fun _ => c2))
  (at level 100, right associativity) : js_scope.

(** ** The batch request engine (class [Batch]) *)

Module BatchEngine.
Import Js.

Abbreviation Headers := (gmap string string).

(** [BatchRequest]: one queued GET. *)
Record BatchRequest : Type := {
  req_index : nat;
  req_id : string;
  req_resource : string;
  req_method : string;
  req_headers : option Headers
}.

(** What [batchRequestContent.addRequest] receives for a request. *)
Record RequestStep : Type := {
  step_id : string;
  step_url : string;
  step_method : string;
  step_headers : option Headers
}.

(** The fields of a [Batch] instance. *)
Record Batch : Type := {
  allRequests : list BatchRequest;
  requestsQueue : list nat;
  scopes : list string;
  retryAfter : Z;
  nextIndex : nat
}.

Definition baseUrl : string := "https://graph.microsoft.com".

(** [new Batch(graph)] *)
Definition newBatch : Batch :=
  {| allRequests := []; requestsQueue := []; scopes := [];
     retryAfter := 0; nextIndex := 0 |}.

Definition hasRequests (b : Batch) : bool :=
  (0 <? length (requestsQueue b))%nat.

(** [batch.get(id, resource, scopes?, headers?)] *)
Definition get (id resource : string) (scopes' : option (list string))
    (headers : option Headers) (b : Batch) : Batch :=
  let index := nextIndex b in
  let request :=
    {| req_index := index; req_id := id; req_resource := resource;
       req_method := "GET"; req_headers := headers |} in
  {| allRequests := allRequests b ++ [request];
     requestsQueue := requestsQueue b ++ [index];
     scopes := match scopes' with
               | Some sc => scopes b ++ sc
               | None => scopes b
               end;
     retryAfter := retryAfter b;
     nextIndex := S index |}.

Definition mkStep (request : BatchRequest) : RequestStep :=
  {| step_id := toString (req_index request);
     step_url := baseUrl ++ req_resource request;
     step_method := req_method request;
     step_headers := req_headers request |}.

Section Engine.
(** [T]: the type of structured (non-string) response bodies. *)
Context {T : Type}.

Inductive Body : Type :=
| BodyString (s : string)
| BodyOther (t : T).

(** One entry of [batchResponse.responses]. *)
Record SubResponse : Type := {
  r_id : string;
  r_status : Z;
  r_headers : Headers;
  r_body : Body
}.

Inductive Content : Type :=
| ContentUnset
| ContentString (s : string)
| ContentOther (t : T).

(** [BatchResponse]: what the caller finds in the result map. *)
Record BatchResponse : Type := {
  resp_id : string;
  resp_index : nat;
  resp_headers : Headers;
  resp_content : Content
}.

Inductive PostResult : Type :=
| Rejected (e : Exn)
| Resolved (responses : list SubResponse).

(** Observable actions of the engine, oldest first. *)
Inductive Event : Type :=
| EvDelay (ms : Z)
| EvPost (sc : list string) (steps : list RequestStep) (res : PostResult).

(** The batch endpoint: it sees what happened so far, the scopes the
    middleware options are prepared from, and the composite request. *)
Definition Transport : Type :=
  list Event -> list string -> list RequestStep -> PostResult.

Record EngineState : Type := {
  batch : Batch;
  trace : list Event
}.

Definition setQueue (q : list nat) : M EngineState unit :=
  modify (fun st =>
    {| batch := {| allRequests := allRequests (batch st);
                   requestsQueue := q;
                   scopes := scopes (batch st);
                   retryAfter := retryAfter (batch st);
                   nextIndex := nextIndex (batch st) |};
       trace := trace st |}).

Definition setRetryAfter (ra : Z) : M EngineState unit :=
  modify (fun st =>
    {| batch := {| allRequests := allRequests (batch st);
                   requestsQueue := requestsQueue (batch st);
                   scopes := scopes (batch st);
                   retryAfter := ra;
                   nextIndex := nextIndex (batch st) |};
       trace := trace st |}).

Definition emit (e : Event) : M EngineState unit :=
  modify (fun st => {| batch := batch st; trace := trace st ++ [e] |}).

(** [await delay(ms)] *)
Definition delay (ms : Z) : M EngineState unit := emit (EvDelay ms).

(** [await batchRequest.post(batchRequestBody)] *)
Definition post (tp : Transport) (sc : list string) (steps : list RequestStep)
  : M EngineState (list SubResponse) :=
  (st <- getState ;;
   let res := tp (trace st) sc steps in
   emit (EvPost sc steps res) ;;
   match res with
   | Rejected e => throw e
   | Resolved rs => ret rs
   end)%js.

(** The content of a 200 sub-response with a string body; [None] when
    the [Content-Type] header is absent (its [includes] cannot be
    read). *)
Definition decodeString (h : Headers) (body : string) : option Content :=
  match h !! "Content-Type" with
  | None => None
  | Some ct =>
      Some (if includes ct "image/jpeg"
            then ContentString ("data:image/jpeg;base64," ++ body)
            else if includes ct "image/pjpeg"
            then ContentString ("data:image/pjpeg;base64," ++ body)
            else if includes ct "image/png"
            then ContentString ("data:image/png;base64," ++ body)
            else ContentUnset)
  end.

(** Body of the loop [for (let r of batchResponse.responses)]. *)
Definition processResponse (responses : gmap string BatchResponse)
    (r : SubResponse) : M EngineState (gmap string BatchResponse) :=
  (st <- getState ;;
   let index := parseInt (Some (r_id r)) in
   match at_ (allRequests (batch st)) index with
   | None => throw TypeError
   | Some request =>
       let response c :=
         {| resp_id := req_id request; resp_index := req_index request;
            resp_headers := r_headers r; resp_content := c |} in
       if negb (r_status r =? 200) then
         (if r_status r =? 429 then
            setQueue (Z.to_nat (default 0 index) :: requestsQueue (batch st)) ;;
            let requestRetryAfter := r_headers r !! "Retry-After" in
            setRetryAfter
              (Z.max (retryAfter (batch st))
                     (orElse (parseInt requestRetryAfter) 1))
          else ret tt) ;;
         ret responses
       else
         match r_body r with
         | BodyString s =>
             match decodeString (r_headers r) s with
             | None => throw TypeError
             | Some c => ret (<[req_id request := response c]> responses)
             end
         | BodyOther t =>
             ret (<[req_id request := response (ContentOther t)]> responses)
         end
   end)%js.

(** [executeNext()] *)
Definition executeNext (tp : Transport)
  : M EngineState (gmap string BatchResponse) :=
  (let responses : gmap string BatchResponse := ∅ in
   st <- getState ;;
   (if retryAfter (batch st) =? 0 then ret tt
    else (delay (retryAfter (batch st) * 1000) ;; setRetryAfter 0)) ;;
   st <- getState ;;
   if negb (hasRequests (batch st)) then ret responses
   else
     let nextBatch := take 20 (requestsQueue (batch st)) in
     setQueue (drop 20 (requestsQueue (batch st))) ;;
     steps <- mapEach (fun i => match allRequests (batch st) !! i with
                             | Some request => ret (mkStep request)
                             | None => throw TypeError
                             end) nextBatch ;;
     batchResponse <- post tp (scopes (batch st)) steps ;;
     forOf processResponse batchResponse responses)%js.

(** The loop of [executeAll()]; [fuel] bounds the number of rounds.
    [responses.set(key, value)] for every entry of a round's map is the
    left-biased union with the map merged so far. *)
Fixpoint executeAllLoop (tp : Transport) (fuel : nat)
    (responses : gmap string BatchResponse)
  : M EngineState (gmap string BatchResponse) :=
  (st <- getState ;;
   if hasRequests (batch st) then
     match fuel with
     | O => timeout
     | S fuel' =>
         r <- executeNext tp ;;
         executeAllLoop tp fuel' (r ∪ responses)
     end
   else ret responses)%js.

(** [executeAll()] *)
Definition executeAll (tp : Transport) (fuel : nat)
  : M EngineState (gmap string BatchResponse) :=
  executeAllLoop tp fuel ∅.

End Engine.
Arguments Body : clear implicits.
Arguments SubResponse : clear implicits.
Arguments Content : clear implicits.
Arguments BatchResponse : clear implicits.
Arguments PostResult : clear implicits.
Arguments Event : clear implicits.
Arguments Transport : clear implicits.
Arguments EngineState : clear implicits.

End BatchEngine.

(** ** Vocabulary for statements about the engine *)

Module BatchSpec.
Import Js BatchEngine.

(** The arguments of one [batch.get(...)] call. *)
Record GetCall : Type := {
  c_id : string;
  c_resource : string;
  c_scopes : option (list string);
  c_headers : option Headers
}.

(** The request that the [i]-th [get] call of a fresh batch creates. *)
Definition requestOf (i : nat) (c : GetCall) : BatchRequest :=
  {| req_index := i; req_id := c_id c; req_resource := c_resource c;
     req_method := "GET"; req_headers := c_headers c |}.

(** A sequence of [get] calls on a batch, in order. *)
Definition getAll (calls : list GetCall) (b : Batch) : Batch :=
  foldl (fun b c => get (c_id c) (c_resource c) (c_scopes c) (c_headers c) b)
        b calls.

(** Shape of a [Batch] that only [get] and the engine have touched:
    requests sit at their own index and the queue holds indices of
    [allRequests]. *)
Definition indexed (reqs : list BatchRequest) : Prop :=
  forall i request, reqs !! i = Some request -> req_index request = i.

Definition wfBatch (b : Batch) : Prop :=
  indexed (allRequests b) /\
  Forall (fun i => (i < length (allRequests b))%nat) (requestsQueue b).

(** A batch on which only [get] was called so far. *)
Definition built (b : Batch) : Prop :=
  nextIndex b = length (allRequests b) /\ wfBatch b /\ retryAfter b = 0.

(** The composite request built for a list of queue entries. *)
Definition stepsOf (reqs : list BatchRequest) (l : list nat) : list RequestStep :=
  omap (fun i => mkStep <$> reqs !! i) l.

Definition withBatch (q : list nat) (ra : Z) (b : Batch) : Batch :=
  {| allRequests := allRequests b; requestsQueue := q; scopes := scopes b;
     retryAfter := ra; nextIndex := nextIndex b |}.


(** Callers pass pairwise distinct ids. *)
Definition distinctIds (reqs : list BatchRequest) : Prop :=
  NoDup (map req_id reqs).

Section Spec.
Context {T : Type}.

(** The request index a sub-response names. *)
Definition idx (r : SubResponse T) : option Z := parseInt (Some (r_id r)).
Definition idxNat (r : SubResponse T) : nat := Z.to_nat (default 0 (idx r)).

(** The content the engine derives from a 200 sub-response. *)
Definition decode (r : SubResponse T) : option (Content T) :=
  match r_body r with
  | BodyString s => decodeString (r_headers r) s
  | BodyOther t => Some (ContentOther t)
  end.

Definition entry (request : BatchRequest) (r : SubResponse T) (c : Content T)
  : BatchResponse T :=
  {| resp_id := req_id request; resp_index := req_index request;
     resp_headers := r_headers r; resp_content := c |}.

(** A sub-response the loop body can process without raising. *)
Definition okResp (reqs : list BatchRequest) (r : SubResponse T) : Prop :=
  is_Some (at_ reqs (idx r)) /\ (r_status r = 200 -> is_Some (decode r)).

(** [r] names a request of [reqs] by the decimal rendering of its
    index and can be decoded. *)
Definition named (reqs : list BatchRequest) (r : SubResponse T) : Prop :=
  r_id r = toString (idxNat r) /\ is_Some (reqs !! idxNat r) /\
  (r_status r = 200 -> is_Some (decode r)).

(** The trace after the optional throttling delay of [executeNext]. *)
Definition afterDelay (st : EngineState T) : list (Event T) :=
  if retryAfter (batch st) =? 0 then trace st
  else trace st ++ [EvDelay (retryAfter (batch st) * 1000)].

(** Effect of one sub-response on the result map, the queue and the
    retry delay. *)
Definition addEntry (reqs : list BatchRequest)
    (m : gmap string (BatchResponse T)) (r : SubResponse T)
  : gmap string (BatchResponse T) :=
  if r_status r =? 200 then
    match at_ reqs (idx r), decode r with
    | Some request, Some c => <[req_id request := entry request r c]> m
    | _, _ => m
    end
  else m.

Definition requeue (q : list nat) (r : SubResponse T) : list nat :=
  if r_status r =? 429 then idxNat r :: q else q.

Definition retryValue (r : SubResponse T) : Z :=
  orElse (parseInt (r_headers r !! "Retry-After")) 1.

Definition bumpRetry (ra : Z) (r : SubResponse T) : Z :=
  if r_status r =? 429 then Z.max ra (retryValue r) else ra.

Definition withState (q : list nat) (ra : Z) (tr : list (Event T))
    (st : EngineState T) : EngineState T :=
  {| batch := withBatch q ra (batch st); trace := tr |}.

(** Indices throttled in a round, in response order. *)
Fixpoint throttled (rs : list (SubResponse T)) : list nat :=
  match rs with
  | [] => []
  | r :: rs' =>
      if r_status r =? 429 then idxNat r :: throttled rs' else throttled rs'
  end.

(** Sub-responses received so far, oldest first. *)
Fixpoint answers (tr : list (Event T)) : list (SubResponse T) :=
  match tr with
  | [] => []
  | EvPost _ _ (Resolved rs) :: tr' => rs ++ answers tr'
  | _ :: tr' => answers tr'
  end.

(** The composite requests sent so far, oldest first. *)
Fixpoint posts (tr : list (Event T)) : list (list RequestStep) :=
  match tr with
  | [] => []
  | EvPost _ steps _ :: tr' => steps :: posts tr'
  | _ :: tr' => posts tr'
  end.

(** Total time spent in [delay], in milliseconds. *)
Fixpoint delayed (tr : list (Event T)) : Z :=
  match tr with
  | [] => 0
  | EvDelay ms :: tr' => ms + delayed tr'
  | _ :: tr' => delayed tr'
  end.

(** A batch endpoint that answers every composite request, answers
    each sub-request it was sent at most once and nothing else, and
    declares a content type on the string bodies it returns with
    status 200. *)
Definition wellBehaved (tp : Transport T) : Prop :=
  forall h sc steps,
    exists rs,
      tp h sc steps = Resolved rs /\
      map r_id rs ⊆+ map step_id steps /\
      Forall (fun r => r_status r = 200 -> is_Some (decode r)) rs.

(** From the [n]-th composite request on, the endpoint does not
    throttle. *)
Definition quietAfter (n : nat) (tp : Transport T) : Prop :=
  forall h sc steps rs,
    (n <= length (posts h))%nat ->
    tp h sc steps = Resolved rs ->
    Forall (fun r => r_status r <> 429) rs.


(** Invariant of the loop of [executeAll] for a batch with request
    list [reqs], merged map [m] and state [st]. *)
Record Inv (reqs : list BatchRequest) (m : gmap string (BatchResponse T))
    (st : EngineState T) : Prop := {
  inv_reqs : allRequests (batch st) = reqs;
  inv_nodup : NoDup (requestsQueue (batch st));
  inv_valid : Forall (fun i => (i < length reqs)%nat) (requestsQueue (batch st));
  inv_pending : forall i r,
    i ∈ requestsQueue (batch st) -> r ∈ answers (trace st) ->
    r_id r = toString i -> r_status r = 429;
  inv_ok : forall i request r c,
    reqs !! i = Some request -> r ∈ answers (trace st) ->
    r_id r = toString i -> r_status r = 200 -> decode r = Some c ->
    m !! req_id request = Some (entry request r c);
  inv_absent : forall i request,
    reqs !! i = Some request ->
    (forall r, r ∈ answers (trace st) -> r_id r = toString i -> r_status r <> 200) ->
    m !! req_id request = None;
  inv_decodable : forall r,
    r ∈ answers (trace st) -> r_status r = 200 -> is_Some (decode r);
  inv_final : forall i r r',
    r ∈ answers (trace st) -> r' ∈ answers (trace st) ->
    r_id r = toString i -> r_id r' = toString i ->
    r_status r <> 429 -> r_status r' <> 429 -> r = r';
  inv_dom : forall k, is_Some (m !! k) ->
    exists i request, reqs !! i = Some request /\ k = req_id request
}.


(** A fresh batch on which [calls] were made, before any round. *)
Definition fresh (calls : list GetCall) : EngineState T :=
  {| batch := getAll calls newBatch; trace := [] |}.

(** States of a batch on which [calls] were made and rounds were
    then run against [tp]. *)
Inductive Reachable (tp : Transport T) (calls : list GetCall)
  : EngineState T -> Prop :=
| reach_fresh : Reachable tp calls (fresh calls)
| reach_next st round st' :
    Reachable tp calls st ->
    executeNext tp st = (Ok round, st') ->
    Reachable tp calls st'.


(** Rounds that remain at most, for an endpoint quiet after [n]
    composite requests. *)
Definition budget (n : nat) (st : EngineState T) : nat :=
  (n - length (posts (trace st))) + length (requestsQueue (batch st)).

End Spec.

End BatchSpec.
(** ** Concrete batches and endpoints *)

Module BatchExamples.
Import Js BatchEngine BatchSpec.

Definition call (id resource : string) : GetCall :=
  {| c_id := id; c_resource := resource; c_scopes := None; c_headers := None |}.

(** Structured bodies are represented by their JSON text. *)
Definition respond (status : Z) (h : Headers) (body : Body string)
    (s : RequestStep) : SubResponse string :=
  {| r_id := step_id s; r_status := status; r_headers := h; r_body := body |}.

Definition ok200 : RequestStep -> SubResponse string :=
  respond 200 ∅ (BodyOther "{}").

(** Answers 200 to every sub-request. *)
Definition okAll : Transport string :=
  fun _ _ steps => Resolved (map ok200 steps).



(** Answers 404 to sub-request "1" and 200 to the others. *)
Definition missingSecond : Transport string :=
  fun _ _ steps =>
    Resolved (map (fun s =>
                     if String.eqb (step_id s) "1"
                     then respond 404 ∅ (BodyOther "{}") s
                     else ok200 s) steps).


(** The composite request is rejected. *)
Definition unreachable : Transport string :=
  fun _ _ _ => Rejected (TransportError "Failed to fetch").

Definition threeCalls : list GetCall :=
  [call "a" "/me"; call "b" "/me/manager"; call "c" "/me/photo/$value"].







Definition goneResponse : SubResponse string :=
  {| r_id := "1"; r_status := 404; r_headers := ∅; r_body := BodyOther "{}" |}.

End BatchExamples.
(** ** The page iterator (class [GraphPageIterator]) *)

Module PageIterator.
Import Js.

(** The part of [IGraph] the iterator uses. *)
Record Graph : Type := {
  g_version : string
}.

(** A request built with [graph.api(path).version(v)]; the path is
    [undefined] when it was read from a missing array element. *)
Record GraphRequest : Type := {
  gr_path : option string;
  gr_version : string
}.

Section Iterator.
(** [T]: the type of the entities of the collection. *)
Context {T : Type}.

(** [CollectionResponse<T>]: [value] and ['@odata.nextLink'] may each be
    missing. *)
Record CollectionResponse : Type := {
  value : option (list T);
  odata_nextLink : option string
}.

(** Outcome of [await request.get()]; a resolved response may be
    [undefined]/[null]. *)
Inductive GetResult : Type :=
| GetRejected (e : Exn)
| GetResolved (response : option CollectionResponse).

(** The requests issued so far, oldest first. *)
Definition Requests : Type := list GraphRequest.

(** The collection endpoint: it sees the earlier requests and the
    current one. *)
Definition Server : Type := Requests -> GraphRequest -> GetResult.

(** The private fields of an iterator. *)
Record GraphPageIterator : Type := {
  it_graph : Graph;
  it_nextLink : option string;
  it_version : string;
  it_value : list T
}.

(** [await request.get()] *)
Definition get (srv : Server) (request : GraphRequest)
  : M Requests (option CollectionResponse) :=
  (done <- getState ;;
   modify (fun reqs : Requests => (reqs ++ [request])%list) ;;
   match srv done request with
   | GetRejected e => throw e
   | GetResolved response => ret response
   end)%js.

(** [get hasNext()] *)
Definition hasNext (it : GraphPageIterator) : bool :=
  truthyStr (it_nextLink it).

(** [get nextLink()] *)
Definition nextLink (it : GraphPageIterator) : string :=
  if truthyStr (it_nextLink it) then default "" (it_nextLink it) else "".

(** [GraphPageIterator.create(graph, request, version?)]; [None] is the
    [null] it returns when the first page has no [value]. *)
Definition create (srv : Server) (graph : Graph) (request : GraphRequest)
    (version : option string) : M Requests (option GraphPageIterator) :=
  (response <- get srv request ;;
   match response with
   | Some {| value := Some v; odata_nextLink := link |} =>
       ret (Some {| it_graph := graph;
                    it_value := v;
                    it_nextLink := link;
                    it_version := if truthyStr version
                                  then default "" version
                                  else g_version graph |})
   | _ => ret None
   end)%js.

(** [GraphPageIterator.createFromValue(graph, value, nextLink = null)] *)
Definition createFromValue (graph : Graph) (v : list T) (link : option string)
  : GraphPageIterator :=
  {| it_graph := graph; it_value := v; it_nextLink := link;
     it_version := g_version graph |}.

(** The request [next()] builds from the stored link. *)
Definition nextRequest (it : GraphPageIterator) : GraphRequest :=
  let nextResource := split (default "" (it_nextLink it)) (it_version it) !! 1%nat in
  {| gr_path := nextResource; gr_version := it_version it |}.

(** [next()]: the iterator after the call and the promised value
    ([None] is [null]). *)
Definition next (srv : Server) (it : GraphPageIterator)
  : M Requests (GraphPageIterator * option (list T)) :=
  (if truthyStr (it_nextLink it) then
     response <- get srv (nextRequest it) ;;
     match response with
     | Some {| value := Some ((_ :: _) as v); odata_nextLink := link |} =>
         ret ({| it_graph := it_graph it;
                 it_value := (it_value it ++ v)%list;
                 it_nextLink := link;
                 it_version := it_version it |}, Some v)
     | _ => ret (it, None)
     end
   else ret (it, None))%js.

(** The items a page response carries. *)
Definition items (response : option CollectionResponse) : list T :=
  match response with
  | Some {| value := Some v |} => v
  | _ => []
  end.

(** The continuation link a page response carries. *)
Definition linkOf (response : option CollectionResponse) : option string :=
  match response with
  | Some r => odata_nextLink r
  | None => None
  end.

(** [n] calls of [next()] in a row, keeping the last iterator. *)
Fixpoint nextTimes (srv : Server) (n : nat) (it : GraphPageIterator)
  : M Requests GraphPageIterator :=
  match n with
  | O => ret it
  | S n' => (r <- next srv it ;; nextTimes srv n' r.1)%js
  end.

End Iterator.
Arguments CollectionResponse : clear implicits.
Arguments GetResult : clear implicits.
Arguments Server : clear implicits.
Arguments GraphPageIterator : clear implicits.

(** *** A concrete collection *)

Definition graphV1 : Graph := {| g_version := "v1.0" |}.

Definition firstPage : CollectionResponse string :=
  {| value := Some ["m1"; "m2"];
     odata_nextLink := Some "https://graph.microsoft.com/v1.0/me/messages?$skip=2" |}.

Definition lastPage : CollectionResponse string :=
  {| value := Some ["m3"]; odata_nextLink := None |}.

(** No items and no continuation link. *)
Definition emptyPage : CollectionResponse string :=
  {| value := Some []; odata_nextLink := None |}.

Definition secondLink : string :=
  "https://graph.microsoft.com/v1.0/me/messages?$skip=2".

Definition messagesRequest : GraphRequest :=
  {| gr_path := Some "/me/messages"; gr_version := "v1.0" |}.

(** Serves [firstPage] for the initial request and [lastPage] for the
    continuation. *)
Definition twoPages : Server string :=
  fun _ request =>
    match gr_path request with
    | Some "/me/messages" => GetResolved (Some firstPage)
    | Some "/me/messages?$skip=2" => GetResolved (Some lastPage)
    | _ => GetResolved None
    end.

(** Serves [firstPage] first and an empty page without a link for
    anything else. *)
Definition thenEmpty : Server string :=
  fun _ request =>
    match gr_path request with
    | Some "/me/messages" => GetResolved (Some firstPage)
    | _ => GetResolved (Some emptyPage)
    end.

End PageIterator.
(** ** The entity accessors *)

Module Access.
Import Js BatchEngine.

(** *** JSON values, as the accessors inspect them *)

#[local] Set Warnings "-register-all".

Inductive Json : Type :=
| JUndefined
| JNull
| JBool (b : bool)
| JNum (z : Z)
| JStr (s : string)
| JArr (l : list Json)
| JObj (fields : list (string * Json)).

(** Truthiness of a value. *)
Definition truthy (j : Json) : bool :=
  match j with
  | JUndefined | JNull | JBool false | JNum 0 | JStr EmptyString => false
  | _ => true
  end.

Fixpoint assoc (fields : list (string * Json)) (name : string) : Json :=
  match fields with
  | [] => JUndefined
  | (k, v) :: rest => if String.eqb k name then v else assoc rest name
  end.

(** [j[name]] for a [j] that is neither [undefined] nor [null]. *)
Definition prop (j : Json) (name : string) : Json :=
  match j with
  | JObj fields => assoc fields name
  | _ => JUndefined
  end.

(** [j?.[name]] *)
Definition optProp (j : Json) (name : string) : Json := prop j name.

(** [a === b] on values that are not objects; two objects are the same
    only by reference, which this model never has. *)
Definition strictEq (a b : Json) : bool :=
  match a, b with
  | JUndefined, JUndefined | JNull, JNull => true
  | JBool x, JBool y => Bool.eqb x y
  | JNum x, JNum y => x =? y
  | JStr x, JStr y => String.eqb x y
  | _, _ => false
  end.

(** [a || b] *)
Definition orJson (a b : Json) : Json := if truthy a then a else b.

(** *** Cache configuration ([CacheService.config]) *)

Record CategoryConfig : Type := {
  isEnabled : bool;
  invalidationPeriod : Z
}.

Record CacheConfig : Type := {
  config_isEnabled : bool;
  defaultInvalidationPeriod : Z;
  photos : CategoryConfig;
  groups : CategoryConfig;
  users : CategoryConfig;
  presence : CategoryConfig;
  files : CategoryConfig;
  fileLists : CategoryConfig
}.

(** [a || b] on numbers. *)
Definition orNumber (a b : Z) : Z := if a =? 0 then b else a.

Definition getPhotoInvalidationTime (config : CacheConfig) : Z :=
  orNumber (invalidationPeriod (photos config)) (defaultInvalidationPeriod config).

Definition getIsPhotosCacheEnabled (config : CacheConfig) : bool :=
  isEnabled (photos config) && config_isEnabled config.

Definition getGroupsInvalidationTime (config : CacheConfig) : Z :=
  orNumber (invalidationPeriod (groups config)) (defaultInvalidationPeriod config).

Definition getIsGroupsCacheEnabled (config : CacheConfig) : bool :=
  isEnabled (groups config) && config_isEnabled config.

Definition getCardStateInvalidationTime (config : CacheConfig) : Z :=
  orNumber (invalidationPeriod (users config)) (defaultInvalidationPeriod config).

Definition getPresenceInvalidationTime (config : CacheConfig) : Z :=
  orNumber (invalidationPeriod (presence config)) (defaultInvalidationPeriod config).

Definition getIsPresenceCacheEnabled (config : CacheConfig) : bool :=
  isEnabled (presence config) && config_isEnabled config.

Definition getFileInvalidationTime (config : CacheConfig) : Z :=
  orNumber (invalidationPeriod (files config)) (defaultInvalidationPeriod config).

Definition getIsFilesCacheEnabled (config : CacheConfig) : bool :=
  isEnabled (files config) && config_isEnabled config.

Definition getFileListInvalidationTime (config : CacheConfig) : Z :=
  orNumber (invalidationPeriod (fileLists config)) (defaultInvalidationPeriod config).

Definition getIsFileListsCacheEnabled (config : CacheConfig) : bool :=
  isEnabled (fileLists config) && config_isEnabled config.

(** *** The freshness tests of the accessors

    One definition per [if] that compares [Date.now()] with the
    [timeCached] of an item read from a store; [now] is the value of
    [Date.now()] and [timeCached] the stamp of the item. *)

Definition getContactPhoto_fresh (config : CacheConfig) (now timeCached : Z) : bool :=
  getPhotoInvalidationTime config >? now - timeCached.

Definition getUserPhoto_fresh (config : CacheConfig) (now timeCached : Z) : bool :=
  getPhotoInvalidationTime config >? now - timeCached.

Definition myPhoto_fresh (config : CacheConfig) (now timeCached : Z) : bool :=
  getPhotoInvalidationTime config >? now - timeCached.

Definition getGroupImage_fresh (config : CacheConfig) (now timeCached : Z) : bool :=
  getPhotoInvalidationTime config >? now - timeCached.

Definition getTeamsPhotosForPhotoIds_fresh (config : CacheConfig) (now timeCached : Z) : bool :=
  getPhotoInvalidationTime config >? now - timeCached.

Definition getUserPresence_fresh (config : CacheConfig) (now timeCached : Z) : bool :=
  getPresenceInvalidationTime config >? now - timeCached.

Definition getUsersPresenceByPeople_fresh (config : CacheConfig) (now timeCached : Z) : bool :=
  getIsPresenceCacheEnabled config &&
  (getPresenceInvalidationTime config >? now - timeCached).

Definition getFilesByQueries_fresh (config : CacheConfig) (now timeCached : Z) : bool :=
  getIsFilesCacheEnabled config &&
  (getFileInvalidationTime config >? now - timeCached).

Definition getFileFromCache_fresh (config : CacheConfig) (now timeCached : Z) : bool :=
  getFileInvalidationTime config >? now - timeCached.

Definition getFileListFromCache_fresh (config : CacheConfig) (now timeCached : Z) : bool :=
  getFileListInvalidationTime config >? now - timeCached.

Definition getPersonCardGraphData_fresh (config : CacheConfig) (now timeCached : Z) : bool :=
  getCardStateInvalidationTime config >? now - timeCached.

Definition findGroups_fresh (config : CacheConfig) (now timeCached : Z) : bool :=
  getGroupsInvalidationTime config >? now - timeCached.

Definition findGroupsFromGroup_fresh (config : CacheConfig) (now timeCached : Z) : bool :=
  getGroupsInvalidationTime config >? now - timeCached.

Definition getGroup_fresh (config : CacheConfig) (now timeCached : Z) : bool :=
  getGroupsInvalidationTime config >? now - timeCached.

Definition getGroupsForGroupIds_fresh (config : CacheConfig) (now timeCached : Z) : bool :=
  getGroupsInvalidationTime config >? now - timeCached.

(** The places where an accessor tests a cached item for freshness. *)
Inductive CallSite : Type :=
| GetContactPhoto | GetUserPhoto | MyPhoto | GetGroupImage
| GetTeamsPhotosForPhotoIds
| GetUserPresence | GetUsersPresenceByPeople
| GetFilesByQueries | GetFileFromCache | GetFileListFromCache
| GetPersonCardGraphData
| FindGroups | FindGroupsFromGroup | GetGroup | GetGroupsForGroupIds.

Definition allCallSites : list CallSite :=
  [GetContactPhoto; GetUserPhoto; MyPhoto; GetGroupImage;
   GetTeamsPhotosForPhotoIds; GetUserPresence; GetUsersPresenceByPeople;
   GetFilesByQueries; GetFileFromCache; GetFileListFromCache;
   GetPersonCardGraphData; FindGroups; FindGroupsFromGroup; GetGroup;
   GetGroupsForGroupIds].

Definition treatsAsFresh (site : CallSite) : CacheConfig -> Z -> Z -> bool :=
  match site with
  | GetContactPhoto => getContactPhoto_fresh
  | GetUserPhoto => getUserPhoto_fresh
  | MyPhoto => myPhoto_fresh
  | GetGroupImage => getGroupImage_fresh
  | GetTeamsPhotosForPhotoIds => getTeamsPhotosForPhotoIds_fresh
  | GetUserPresence => getUserPresence_fresh
  | GetUsersPresenceByPeople => getUsersPresenceByPeople_fresh
  | GetFilesByQueries => getFilesByQueries_fresh
  | GetFileFromCache => getFileFromCache_fresh
  | GetFileListFromCache => getFileListFromCache_fresh
  | GetPersonCardGraphData => getPersonCardGraphData_fresh
  | FindGroups => findGroups_fresh
  | FindGroupsFromGroup => findGroupsFromGroup_fresh
  | GetGroup => getGroup_fresh
  | GetGroupsForGroupIds => getGroupsForGroupIds_fresh
  end.

(** The effective invalidation period at a call site. *)
Definition effectivePeriod (site : CallSite) : CacheConfig -> Z :=
  match site with
  | GetContactPhoto | GetUserPhoto | MyPhoto | GetGroupImage
  | GetTeamsPhotosForPhotoIds => getPhotoInvalidationTime
  | GetUserPresence | GetUsersPresenceByPeople => getPresenceInvalidationTime
  | GetFilesByQueries | GetFileFromCache => getFileInvalidationTime
  | GetFileListFromCache => getFileListInvalidationTime
  | GetPersonCardGraphData => getCardStateInvalidationTime
  | FindGroups | FindGroupsFromGroup | GetGroup | GetGroupsForGroupIds =>
      getGroupsInvalidationTime
  end.

(** Whether the call site reads its store at all: each one does so only
    when its category is enabled, except [getPersonCardGraphData], which
    reads the card-state store unconditionally. *)
Definition readsStore (site : CallSite) (config : CacheConfig) : bool :=
  match site with
  | GetContactPhoto | GetUserPhoto | MyPhoto | GetGroupImage
  | GetTeamsPhotosForPhotoIds => getIsPhotosCacheEnabled config
  | GetUserPresence | GetUsersPresenceByPeople => getIsPresenceCacheEnabled config
  | GetFilesByQueries | GetFileFromCache => getIsFilesCacheEnabled config
  | GetFileListFromCache => getIsFileListsCacheEnabled config
  | GetPersonCardGraphData => true
  | FindGroups | FindGroupsFromGroup | GetGroup | GetGroupsForGroupIds =>
      getIsGroupsCacheEnabled config
  end.

(** *** The environment of an accessor call *)

(** The bytes of a photo, as [getPhotoForResource] sees the raw
    response. *)
Record RawResponse : Type := {
  raw_status : Z;
  raw_ok : bool;
  raw_mediaEtag : Json;      (* [response['@odata.mediaEtag']] *)
  raw_blob : option string   (* base64 of the blob; [None]: it cannot be read *)
}.

Inductive ApiResult (A : Type) : Type :=
| ApiRejected (e : Exn)
| ApiResolved (a : A).
Arguments ApiRejected {A} e.
Arguments ApiResolved {A} a.

(** What an accessor call does to the outside, oldest first. *)
Inductive LogEntry : Type :=
| LogGet (path : string)                  (* [graph.api(path)....get()] *)
| LogRaw (path : string)                  (* the same with [ResponseType.RAW] *)
| LogBatch (e : Event Json).              (* an action of a [Batch] *)

Record Env : Type := {
  config : CacheConfig;
  (** the values of successive [Date.now()] calls *)
  clock : nat -> Z;
  apiGet : list LogEntry -> string -> ApiResult Json;
  apiRaw : list LogEntry -> string -> ApiResult RawResponse;
  batchPost : Transport Json
}.

(** [CachePhoto]; [timeCached] is absent on an object that did not come
    from a store. *)
Record CachePhoto : Type := {
  photo_timeCached : option Z;
  eTag : Json;
  photo : Json
}.

(** [CacheGroup]; a stringified value is represented by the value, and
    [None] is a [group] field that is [undefined]. *)
Record CacheGroup : Type := {
  group_timeCached : option Z;
  group : option Json
}.

(** [CacheCardState]: the person-card data with its stamp. *)
Record CacheCardState : Type := {
  card_timeCached : option Z;
  card_data : gmap string Json
}.

Record World : Type := {
  w_log : list LogEntry;
  w_ticks : nat;                           (* [Date.now()] calls so far *)
  w_photos : gmap string CachePhoto;       (* store [photos/users] *)
  w_groups : gmap string CacheGroup;       (* store [groups/groups] *)
  w_cards : gmap string CacheCardState     (* store [users/cardState] *)
}.

Definition addLog (e : LogEntry) (w : World) : World :=
  {| w_log := w_log w ++ [e]; w_ticks := w_ticks w;
     w_photos := w_photos w; w_groups := w_groups w; w_cards := w_cards w |}.

Definition tick (w : World) : World :=
  {| w_log := w_log w; w_ticks := S (w_ticks w);
     w_photos := w_photos w; w_groups := w_groups w; w_cards := w_cards w |}.

Definition logged (e : LogEntry) : M World unit := modify (addLog e).

(** [Date.now()] *)
Definition dateNow (env : Env) : M World Z :=
  (w <- getState ;;
   modify tick ;;
   ret (clock env (w_ticks w)))%js.

(** [await graph.api(path)....get()] *)
Definition get (env : Env) (path : string) : M World Json :=
  (w <- getState ;;
   logged (LogGet path) ;;
   match apiGet env (w_log w) path with
   | ApiRejected e => throw e
   | ApiResolved j => ret j
   end)%js.

(** [await graph.api(path).responseType(ResponseType.RAW)....get()] *)
Definition getRaw (env : Env) (path : string) : M World RawResponse :=
  (w <- getState ;;
   logged (LogRaw path) ;;
   match apiRaw env (w_log w) path with
   | ApiRejected e => throw e
   | ApiResolved r => ret r
   end)%js.

(** Modelled from the spec: the cache store ([CacheStore.getValue] and
    [putValue] are not among the sources).  [getValue(key)] gives the item
    or null; [putValue(key, item)] stamps [timeCached] with the current
    time at the write. *)
Definition getPhotoValue (key : string) : M World (option CachePhoto) :=
  (w <- getState ;; ret (w_photos w !! key))%js.

Definition putPhotoValue (env : Env) (key : string) (item : CachePhoto)
  : M World unit :=
  (now <- dateNow env ;;
   modify (fun w =>
     {| w_log := w_log w; w_ticks := w_ticks w;
        w_photos := <[key := {| photo_timeCached := Some now;
                                eTag := eTag item; photo := photo item |}]>
                      (w_photos w);
        w_groups := w_groups w; w_cards := w_cards w |}))%js.

Definition getGroupValue (key : string) : M World (option CacheGroup) :=
  (w <- getState ;; ret (w_groups w !! key))%js.

Definition putGroupValue (env : Env) (key : string) (item : CacheGroup)
  : M World unit :=
  (now <- dateNow env ;;
   modify (fun w =>
     {| w_log := w_log w; w_ticks := w_ticks w; w_photos := w_photos w;
        w_groups := <[key := {| group_timeCached := Some now;
                                group := group item |}]> (w_groups w);
        w_cards := w_cards w |}))%js.

Definition getCardValue (key : string) : M World (option CacheCardState) :=
  (w <- getState ;; ret (w_cards w !! key))%js.

Definition putCardValue (env : Env) (key : string) (data : gmap string Json)
  : M World unit :=
  (now <- dateNow env ;;
   modify (fun w =>
     {| w_log := w_log w; w_ticks := w_ticks w; w_photos := w_photos w;
        w_groups := w_groups w;
        w_cards := <[key := {| card_timeCached := Some now;
                               card_data := data |}]> (w_cards w) |}))%js.

(** *** Batches inside an accessor *)

Definition appendLog (l : list LogEntry) (w : World) : World :=
  {| w_log := w_log w ++ l; w_ticks := w_ticks w;
     w_photos := w_photos w; w_groups := w_groups w; w_cards := w_cards w |}.

(** [await batch.executeAll()] on a batch the accessor has just built:
    the engine's actions go to the log of the call. *)
Definition runBatch (env : Env) (fuel : nat) (b : Batch)
  : M World (gmap string (BatchResponse Json)) :=
  fun w =>
    let r := executeAll (batchPost env) fuel {| batch := b; trace := [] |} in
    (r.1, appendLog (map LogBatch (trace r.2)) w).

(** [response.content] as a value. *)
Definition contentJson (c : Content Json) : Json :=
  match c with
  | ContentUnset => JUndefined
  | ContentString s => JStr s
  | ContentOther j => j
  end.

(** A promise that has been started and has settled. *)
Definition attempt {A} (m : M World A) : M World (Result A) :=
  fun w =>
    match m w with
    | (Ok a, w') => (Ok (Ok a), w')
    | (Throw e, w') => (Ok (Throw e), w')
    | (Timeout, w') => (Timeout, w')
    end.

(** [await Promise.all(ps)] on settled promises. *)
Fixpoint promiseAll {A} (ps : list (Result A)) : M World (list A) :=
  match ps with
  | [] => ret []
  | Ok a :: ps' => (rest <- promiseAll ps' ;; ret (a :: rest))%js
  | Throw e :: _ => throw e
  | Timeout :: _ => timeout
  end.

(** A JavaScript object used as a dictionary: keys in insertion order
    (the keys here are ids, not array indices). *)
Fixpoint dictSet {A} (key : string) (v : A) (d : list (string * A))
  : list (string * A) :=
  match d with
  | [] => [(key, v)]
  | (k, x) :: d' =>
      if String.eqb k key then (k, v) :: d' else (k, x) :: dictSet key v d'
  end.

Fixpoint dictGet {A} (key : string) (d : list (string * A)) : option A :=
  match d with
  | [] => None
  | (k, x) :: d' => if String.eqb k key then Some x else dictGet key d'
  end.

(** [Object.values(d)] *)
Definition objectValues {A} (d : list (string * A)) : list A := map snd d.

(** [JSON.stringify(j)]: [undefined] has no text. *)
Definition stringify (j : Json) : option Json :=
  match j with
  | JUndefined => None
  | _ => Some j
  end.

(** *** Groups ([graph.groups.ts]) *)

Definition validGroupQueryScopes : list string :=
  ["GroupMember.Read.All"; "Group.Read.All"; "Directory.Read.All";
   "Group.ReadWrite.All"; "Directory.ReadWrite.All"].

(** [Object.keys(j)] *)
Definition keysOf (j : Json) : list string :=
  match j with
  | JObj fields => map fst fields
  | JArr l => map toString (seq 0 (length l))
  | JStr s => map toString (seq 0 (String.length s))
  | _ => []
  end.

Definition inList (x : string) (l : list string) : bool :=
  existsb (String.eqb x) l.

(** [group.group ? JSON.parse(group.group) : null] *)
Definition parsedGroup (g : CacheGroup) : Json :=
  match group g with
  | Some j => j
  | None => JNull
  end.

(** [getGroup(graph, id, requestedProps?)] *)
Definition getGroup (env : Env) (id : string)
    (requestedProps : option (list string)) : M World Json :=
  (hit <-
     (if getIsGroupsCacheEnabled (config env) then
        g <- getGroupValue id ;;
        match g with
        | Some g =>
            now <- dateNow env ;;
            if match group_timeCached g with
               | Some timeCached => getGroup_fresh (config env) now timeCached
               | None => false
               end
            then
              let cachedData := parsedGroup g in
              let uniqueProps :=
                match requestedProps with
                | Some props =>
                    if truthy cachedData
                    then Some (filter (fun p => negb (inList p (keysOf cachedData)))
                                      props)
                    else None
                | None => None
                end in
              if match uniqueProps with
                 | None => true
                 | Some u => (length u <=? 1)%nat
                 end
              then ret (Some cachedData)
              else ret None
            else ret None
        | None => ret None
        end
      else ret None) ;;
   match hit with
   | Some cachedData => ret cachedData
   | None =>
       let apiString := "/groups/" ++ id in
       let apiString :=
         match requestedProps with
         | Some props => apiString ++ "?$select=" ++ String.concat "," props
         | None => apiString
         end in
       response <- get env apiString ;;
       (if getIsGroupsCacheEnabled (config env)
        then putGroupValue env id {| group_timeCached := None;
                                     group := stringify response |}
        else ret tt) ;;
       ret response
   end)%js.

(** The state of the first loop of [getGroupsForGroupIds]. *)
Record Scan : Type := {
  groupDict : list (string * Json);
  scanBatch : Batch;
  notInCache : list string
}.

(** Body of the loop [for (var id of groupIds)] that reads the cache and
    fills the batch. *)
Definition scanGroup (env : Env) (filters : string) (acc : Scan) (id : string)
  : M World Scan :=
  (let dict := dictSet id JNull (groupDict acc) in
   g <- (if getIsGroupsCacheEnabled (config env)
         then getGroupValue id else ret None) ;;
   fresh <- match g with
            | Some g =>
                now <- dateNow env ;;
                ret (match group_timeCached g with
                     | Some timeCached =>
                         if getGroupsForGroupIds_fresh (config env) now timeCached
                         then Some (parsedGroup g) else None
                     | None => None
                     end)
            | None => ret None
            end ;;
   match fresh with
   | Some cachedData =>
       ret {| groupDict := dictSet id cachedData dict;
              scanBatch := scanBatch acc; notInCache := notInCache acc |}
   | None =>
       if negb (String.eqb id "") then
         let apiUrl := "/groups/" ++ id in
         let apiUrl :=
           if String.eqb filters "" then apiUrl
           else apiUrl ++ "?$filters=" ++ filters in
         ret {| groupDict := dict;
                scanBatch := BatchEngine.get id apiUrl
                               (Some validGroupQueryScopes) None (scanBatch acc);
                notInCache := (notInCache acc ++ [id])%list |}
       else
         ret {| groupDict := dict;
                scanBatch := scanBatch acc; notInCache := notInCache acc |}
   end)%js.

(** The request [getGroupsForGroupIds] puts in the batch for [id]. *)
Definition groupCall (filters id : string) : BatchSpec.GetCall :=
  {| BatchSpec.c_id := id;
     BatchSpec.c_resource :=
       (let apiUrl := "/groups/" ++ id in
        if String.eqb filters "" then apiUrl
        else apiUrl ++ "?$filters=" ++ filters);
     BatchSpec.c_scopes := Some validGroupQueryScopes;
     BatchSpec.c_headers := None |}.

(** The [try] block of [getGroupsForGroupIds]. *)
Definition batchedGroups (env : Env) (fuel : nat) (groupIds : list string)
    (scan : Scan) : M World (list Json) :=
  (responses <- runBatch env fuel (scanBatch scan) ;;
   dict <- forOf (fun dict id =>
                    match responses !! id with
                    | Some response =>
                        let content := contentJson (resp_content response) in
                        if truthy content then
                          (if getIsGroupsCacheEnabled (config env)
                           then putGroupValue env id
                                  {| group_timeCached := None;
                                     group := stringify content |}
                           else ret tt) ;;
                          ret (dictSet id content dict)
                        else ret dict
                    | None => ret dict
                    end) groupIds (groupDict scan) ;;
   ret (objectValues dict))%js.

(** The [catch] block of [getGroupsForGroupIds]: one [getGroup] per id
    that was put in the batch. *)
Definition fallbackGroups (env : Env) (groupIds : list string) (scan : Scan)
  : M World (list Json) :=
  (let retried := filter (fun id => inList id (notInCache scan)) groupIds in
   promises <-
     forOf (fun dict id =>
              p <- attempt (getGroup env id None) ;;
              ret (dictSet id p dict))
           retried (map (fun kv => (kv.1, Ok kv.2)) (groupDict scan)) ;;
   failed <-
     (if getIsGroupsCacheEnabled (config env) then
        forOf (fun failed id =>
                 match dictGet id promises with
                 | Some (Ok j) =>
                     putGroupValue env id {| group_timeCached := None;
                                             group := stringify j |} ;;
                     ret failed
                 | Some (Throw _) => ret true
                 | _ => ret failed
                 end) retried false
      else ret false) ;;
   if failed then ret []
   else promiseAll (objectValues promises))%js.

(** [getGroupsForGroupIds(graph, groupIds, filters = '')]; [None] is a
    missing [groupIds]. *)
Definition getGroupsForGroupIds (env : Env) (fuel : nat)
    (groupIds : option (list string)) (filters : string) : M World (list Json) :=
  match groupIds with
  | None | Some [] => ret []
  | Some groupIds =>
      (scan <- forOf (scanGroup env filters) groupIds
                     {| groupDict := []; scanBatch := newBatch; notInCache := [] |} ;;
       tryCatch (batchedGroups env fuel groupIds scan)
                (fun _ => fallbackGroups env groupIds scan))%js
  end.

(** *** Person card ([mgt-person-card.graph.ts]) *)

(** A string that may be [undefined] or [null]. *)
Inductive MaybeString : Type :=
| MUndefined
| MNull
| MStr (s : string).

Definition truthyM (m : MaybeString) : bool :=
  match m with
  | MStr (String _ _) => true
  | _ => false
  end.

(** [a || b] *)
Definition orM (a b : MaybeString) : MaybeString := if truthyM a then a else b.

(** The text of [m] inside a template literal. *)
Definition templateM (m : MaybeString) : string :=
  match m with
  | MUndefined => "undefined"
  | MNull => "null"
  | MStr s => s
  end.

Record PersonType : Type := {
  pt_class : MaybeString;
  pt_subclass : MaybeString
}.

(** What [getPersonCardGraphData] looks at in [personDetails]: [None] for
    [pd_personType] is an object without that key, [Some None] one whose
    [personType] is [null] or [undefined]. *)
Record PersonDetails : Type := {
  pd_id : MaybeString;
  pd_userPrincipalName : MaybeString;
  pd_hasClassification : bool;
  pd_personType : option (option PersonType)
}.

(** [MgtPersonCardConfig.sections] *)
Record Sections : Type := {
  sec_organization : option bool;    (* [Some showWorksWith], or undefined *)
  sec_mailMessages : bool;
  sec_files : bool;
  sec_profile : bool
}.

Definition userProperties : string :=
  "businessPhones,companyName,department,displayName,givenName,jobTitle,mail,mobilePhone,officeLocation,preferredLanguage,surname,userPrincipalName,id,accountEnabled".

Definition validPeopleScopes : list string := ["People.Read.All"].
Definition validMailSearchScopes : list string :=
  ["Mail.ReadBasic"; "Mail.Read"; "Mail.ReadWrite"].
Definition validInsightScopes : list string :=
  ["Sites.Read.All"; "Sites.ReadWrite.All"].

Section PersonCard.
(** [validUserByIdScopes] is imported from [graph.user], which is not
    among the sources. *)
Variable validUserByIdScopes : list string.

Definition buildOrgStructureRequest (batch : Batch) (userId : string) : Batch :=
  let expandManagers := "manager($levels=max;$select=" ++ userProperties ++ ")" in
  let batch :=
    BatchEngine.get "person"
      ("users/" ++ userId ++ "?$expand=" ++ expandManagers ++ "&$select="
       ++ userProperties ++ "&$count=true")
      (Some validUserByIdScopes)
      (Some {["ConsistencyLevel" := "eventual"]}) batch in
  BatchEngine.get "directReports"
    ("users/" ++ userId ++ "/directReports?$select=" ++ userProperties)
    None None batch.

Definition buildWorksWithRequest (batch : Batch) (userId : string) : Batch :=
  BatchEngine.get "people"
    ("users/" ++ userId ++ "/people?$filter=personType/class eq 'Person'")
    (Some validPeopleScopes) None batch.

Definition buildMessagesWithUserRequest (batch : Batch) (emailAddress : string)
  : Batch :=
  BatchEngine.get "messages"
    ("me/messages?$search=" ++ String (ascii_of_nat 34) "from:" ++ emailAddress
     ++ String (ascii_of_nat 34) "")
    (Some validMailSearchScopes) None batch.

Definition buildFilesRequest (batch : Batch) (emailAddress : MaybeString) : Batch :=
  let request :=
    if truthyM emailAddress
    then "me/insights/shared?$filter=lastshared/sharedby/address eq '"
         ++ templateM emailAddress ++ "'"
    else "me/insights/used" in
  BatchEngine.get "files" request (Some validInsightScopes) None batch.

(** [getProfile(graph, userId)] *)
Definition getProfile (env : Env) (userId : string) : M World Json :=
  get env ("/users/" ++ userId ++ "/profile").

(** The test [isContactOrGroup]; [None] when reading
    [personDetails.personType.subclass] raises. *)
Definition isContactOrGroup (personDetails : PersonDetails) : option bool :=
  if pd_hasClassification personDetails then Some true
  else match pd_personType personDetails with
       | None => Some false
       | Some None => None
       | Some (Some personType) =>
           Some (match pt_subclass personType with
                 | MStr "PersonalContact" => true
                 | _ => false
                 end
                 || match pt_class personType with
                    | MStr "Group" => true
                    | _ => false
                    end)
       end.

(** The batch [getPersonCardGraphData] builds. *)
Definition cardBatch (sections : Sections) (userId : string)
    (email : MaybeString) (isMe isContactOrGroup : bool) : Batch :=
  let batch := newBatch in
  let batch :=
    if negb isContactOrGroup then
      match sec_organization sections with
      | Some showWorksWith =>
          let batch := buildOrgStructureRequest batch userId in
          if showWorksWith then buildWorksWithRequest batch userId else batch
      | None => batch
      end
    else batch in
  let batch :=
    if sec_mailMessages sections && truthyM email
    then buildMessagesWithUserRequest batch (templateM email) else batch in
  if sec_files sections
  then buildFilesRequest batch (if isMe then MNull else email) else batch.

(** [value.content?.value || value.content] *)
Definition cardValue (value : BatchResponse Json) : Json :=
  let content := contentJson (resp_content value) in
  orJson (match content with
          | JUndefined | JNull => JUndefined
          | _ => prop content "value"
          end) content.

(** [report.accountEnabled] *)
Definition accountEnabled (report : Json) : M World bool :=
  match report with
  | JUndefined | JNull => throw TypeError
  | _ => ret (truthy (prop report "accountEnabled"))
  end.

Fixpoint filterReports (reports : list Json) : M World (list Json) :=
  match reports with
  | [] => ret []
  | report :: rest =>
      (keep <- accountEnabled report ;;
       kept <- filterReports rest ;;
       ret (if keep then report :: kept else kept))%js
  end.

(** The [if (data.directReports && data.directReports.length > 0)]
    statement; [filter] exists on arrays only. *)
Definition filterDirectReports (data : gmap string Json)
  : M World (gmap string Json) :=
  match data !! "directReports" with
  | Some (JArr ((_ :: _) as reports)) =>
      (kept <- filterReports reports ;;
       ret (<["directReports" := JArr kept]> data))%js
  | Some (JStr (String _ _)) => throw TypeError
  | Some (JObj fields) =>
      match assoc fields "length" with
      | JNum z => if 0 <? z then throw TypeError else ret data
      | _ => ret data
      end
  | _ => ret data
  end.

(** [getPersonCardGraphData(graph, personDetails, isMe)]; [email] is what
    [getEmailFromGraphEntity(personDetails)] gave (that helper is not
    among the sources). *)
Definition getPersonCardGraphData (env : Env) (fuel : nat) (sections : Sections)
    (personDetails : PersonDetails) (email : MaybeString) (isMe : bool)
  : M World CacheCardState :=
  (let userId := orM (pd_id personDetails) (pd_userPrincipalName personDetails) in
   cardState <- getCardValue (templateM userId) ;;
   hit <- match cardState with
          | Some c =>
              now <- dateNow env ;;
              ret (match card_timeCached c with
                   | Some timeCached =>
                       if getPersonCardGraphData_fresh (config env) now timeCached
                       then Some c else None
                   | None => None
                   end)
          | None => ret None
          end ;;
   match hit with
   | Some c => ret c
   | None =>
       isContactOrGroup <-
         match isContactOrGroup personDetails with
         | Some b => ret b
         | None => throw TypeError
         end ;;
       let batch := cardBatch sections (templateM userId) email isMe
                              isContactOrGroup in
       response <- tryCatch (r <- runBatch env fuel batch ;; ret (Some r))
                            (fun _ => ret None) ;;
       let data : gmap string Json :=
         match response with
         | Some r => cardValue <$> r
         | None => ∅
         end in
       data <- (if negb isContactOrGroup && sec_profile sections then
                  tryCatch
                    (p <- getProfile env (templateM userId) ;;
                     ret (if truthy p then <["profile" := p]> data else data))
                    (fun _ => ret data)
                else ret data) ;;
       data <- filterDirectReports data ;;
       putCardValue env (templateM userId) data ;;
       ret {| card_timeCached := None; card_data := data |}
   end)%js.

End PersonCard.

(** *** Photos ([graph.photos.ts]) *)

(** [getPhotoForResource(graph, resource, scopes)]; [None] is [null]. *)
Definition getPhotoForResource (env : Env) (resource : string)
  : M World (option CachePhoto) :=
  tryCatch
    (response <- getRaw env (resource ++ "/photo/$value") ;;
     if raw_status response =? 404 then
       ret (Some {| photo_timeCached := None; eTag := JNull; photo := JNull |})
     else if negb (raw_ok response) then ret None
     else
       match raw_blob response with
       | None => throw TypeError
       | Some blob =>
           ret (Some {| photo_timeCached := None;
                        eTag := raw_mediaEtag response;
                        photo := JStr blob |})
       end)%js
    (fun _ => ret None).

(** The test of [myPhoto] on the metadata response; reading
    [photoDetails.eTag] raises when [photoDetails] is not an object. *)
Definition photoChanged (response : Json) (photoDetails : option CachePhoto)
  : M World bool :=
  if truthy response then
    match photoDetails with
    | None => throw TypeError
    | Some p =>
        ret (negb (strictEq (prop response "@odata.mediaEtag") (eTag p))
             || (strictEq (prop response "@odata.mediaEtag") JNull
                 && strictEq (eTag p) JNull))
    end
  else ret false.

(** [myPhoto(graph)] *)
Definition myPhoto (env : Env) : M World Json :=
  (cached <-
     (if getIsPhotosCacheEnabled (config env) then
        photoDetails <- getPhotoValue "me" ;;
        match photoDetails with
        | Some p =>
            now <- dateNow env ;;
            if match photo_timeCached p with
               | Some timeCached => myPhoto_fresh (config env) now timeCached
               | None => false
               end
            then ret (inl (photo p))
            else ret (inr photoDetails)
        | None => ret (inr photoDetails)
        end
      else ret (inr None)) ;;
   match cached with
   | inl result => ret result
   | inr photoDetails =>
       checked <-
         tryCatch
           (response <- get env "me/photo" ;;
            changed <- photoChanged response photoDetails ;;
            ret (inr (if changed then None else photoDetails)))
           (fun _ => ret (inl JNull)) ;;
       match checked with
       | inl result => ret result
       | inr photoDetails =>
           photoDetails <-
             match photoDetails with
             | Some p => ret (Some p)
             | None => getPhotoForResource env "me"
             end ;;
           (if getIsPhotosCacheEnabled (config env) then
              putPhotoValue env "me"
                (default {| photo_timeCached := None; eTag := JUndefined;
                            photo := JUndefined |} photoDetails)
            else ret tt) ;;
           ret (match photoDetails with
                | Some p => photo p
                | None => JNull
                end)
       end
   end)%js.

(** *** Batches that fail as a whole *)

(** The batch endpoint rejects every composite request with [e]. *)
Definition rejectsAll (env : Env) (e : Exn) : Prop :=
  forall h sc steps, batchPost env h sc steps = Rejected e.

(** The log entry of the one composite request of a rejected batch. *)
Definition rejectedPost (b : Batch) (e : Exn) : LogEntry :=
  LogBatch (EvPost (scopes b)
                   (BatchSpec.stepsOf (allRequests b) (take 20 (requestsQueue b)))
                   (Rejected e)).

(** *** Concrete configurations *)

(** Every category enabled, with the default period of one hour. *)
Definition hourConfig : CacheConfig :=
  let category := {| isEnabled := true; invalidationPeriod := 0 |} in
  {| config_isEnabled := true; defaultInvalidationPeriod := 3600000;
     photos := category; groups := category; users := category;
     presence := category; files := category; fileLists := category |}.


(** The cache switched off globally. *)
Definition cacheOff : CacheConfig :=
  let category := {| isEnabled := true; invalidationPeriod := 0 |} in
  {| config_isEnabled := false; defaultInvalidationPeriod := 3600000;
     photos := category; groups := category; users := category;
     presence := category; files := category; fileLists := category |}.

(** An environment in which the photo metadata request succeeds and the
    photo itself could be fetched. *)
Definition photoEnv (config : CacheConfig) : Env :=
  {| config := config;
     clock := fun n => 1000 + Z.of_nat n;
     apiGet := fun _ _ => ApiResolved (JObj [("@odata.mediaEtag", JStr "W/1")]);
     apiRaw := fun _ _ =>
       ApiResolved {| raw_status := 200; raw_ok := true;
                      raw_mediaEtag := JUndefined; raw_blob := Some "AAAA" |};
     batchPost := fun _ _ _ => Rejected (TransportError "Failed to fetch") |}.

(** An environment in which the batch endpoint cannot be reached and
    single requests are answered. *)
Definition batchDown (config : CacheConfig) : Env :=
  {| config := config;
     clock := fun n => 1000 + Z.of_nat n;
     apiGet := fun _ path => ApiResolved (JObj [("id", JStr path)]);
     apiRaw := fun _ _ => ApiRejected (TransportError "Failed to fetch");
     batchPost := fun _ _ _ => Rejected (TransportError "Failed to fetch") |}.

Definition allSections : Sections :=
  {| sec_organization := Some true; sec_mailMessages := true;
     sec_files := true; sec_profile := true |}.

Definition someUser : PersonDetails :=
  {| pd_id := MStr "u1"; pd_userPrincipalName := MStr "u1@contoso.com";
     pd_hasClassification := false; pd_personType := None |}.

(** The ids for which [getGroupsForGroupIds] asks the graph when nothing
    is served from the cache. *)
Definition askedIds (groupIds : list string) : list string :=
  filter (fun id => negb (String.eqb id "")) groupIds.

Definition cardScopes : list string := ["User.Read.All"].


Definition emptyWorld : World :=
  {| w_log := []; w_ticks := 0; w_photos := ∅; w_groups := ∅; w_cards := ∅ |}.

End Access.
(** ** Further concrete batches and endpoints *)

Module MoreExamples.
Import Js BatchEngine BatchSpec BatchExamples.




End MoreExamples.

(** ** Further vocabulary for the accessors *)

Module MoreAccess.
Import Js BatchEngine Access.

(** A value as a response body or [JSON.parse] gives it: [undefined]
    occurs nowhere in it. *)
Fixpoint isJson (j : Json) : bool :=
  match j with
  | JUndefined => false
  | JArr l => forallb isJson l
  | JObj fields => forallb (fun kv => isJson kv.2) fields
  | _ => true
  end.

(** The requested properties that the cached group does not have. *)
Definition missingProps (cachedData : Json) (props : list string) : list string :=
  filter (fun p => negb (inList p (keysOf cachedData))) props.


(** Single requests are answered by [answer], whatever happened
    before. *)
Definition answersWith (env : Env) (answer : string -> Json) : Prop :=
  forall l path, apiGet env l path = ApiResolved (answer path).

(** Single requests are rejected with [e]. *)
Definition getsFail (env : Env) (e : Exn) : Prop :=
  forall l path, apiGet env l path = ApiRejected e.

(** An environment in which nothing can be reached. *)
Definition allDown (config : CacheConfig) : Env :=
  {| config := config;
     clock := fun n => 1000 + Z.of_nat n;
     apiGet := fun _ _ => ApiRejected (TransportError "offline");
     apiRaw := fun _ _ => ApiRejected (TransportError "offline");
     batchPost := fun _ _ _ => Rejected (TransportError "Failed to fetch") |}.

(** A group as the graph returns it. *)
Definition groupJson (id : string) : Json :=
  JObj [("id", JStr id); ("displayName", JStr "Team")].

(** A world whose group store holds [groupJson "g1"], stamped at 1000. *)
Definition oneGroupCached : World :=
  {| w_log := []; w_ticks := 0; w_photos := ∅;
     w_groups := {["g1" := {| group_timeCached := Some 1000;
                              group := Some (groupJson "g1") |}]};
     w_cards := ∅ |}.

(** A world whose card-state store holds a card for [u1], stamped at
    1000. *)
Definition oneCardCached : World :=
  {| w_log := []; w_ticks := 0; w_photos := ∅; w_groups := ∅;
     w_cards := {["u1" := {| card_timeCached := Some 1000;
                             card_data := {["profile" := JStr "p"]} |}]} |}.

(** The outcome of [getPhotoForResource] for a raw response. *)
Definition photoOf (r : ApiResult RawResponse) : option CachePhoto :=
  match r with
  | ApiRejected _ => None
  | ApiResolved response =>
      if raw_status response =? 404
      then Some {| photo_timeCached := None; eTag := JNull; photo := JNull |}
      else if negb (raw_ok response) then None
      else match raw_blob response with
           | None => None
           | Some blob => Some {| photo_timeCached := None;
                                  eTag := raw_mediaEtag response;
                                  photo := JStr blob |}
           end
  end.

(** A world whose photo store holds a photo for [me], stamped at 1000,
    with the eTag that [photoEnv] reports. *)
Definition myPhotoCached : World :=
  {| w_log := []; w_ticks := 0;
     w_photos := {["me" := {| photo_timeCached := Some 1000;
                              eTag := JStr "W/1"; photo := JStr "BBBB" |}]};
     w_groups := ∅; w_cards := ∅ |}.

(** The clock of [photoEnv] moved beyond the end of the period. *)
Definition lateEnv (config : CacheConfig) : Env :=
  {| config := config;
     clock := fun n => 1000 + 3600000 + Z.of_nat n;
     apiGet := apiGet (photoEnv config);
     apiRaw := apiRaw (photoEnv config);
     batchPost := batchPost (photoEnv config) |}.

End MoreAccess.

(** ** Photos of other users ([getUserPhoto]) *)

Module UserPhotos.
Import Js BatchEngine Access.

(** The characters [encodeURIComponent] leaves alone. *)
Definition unreserved (c : ascii) : bool :=
  let n := nat_of_ascii c in
  ((65 <=? n) && (n <=? 90))%nat || ((97 <=? n) && (n <=? 122))%nat ||
  ((48 <=? n) && (n <=? 57))%nat ||
  existsb (Ascii.eqb c) (list_ascii_of_string "-_.!~*'()").

Definition hexDigit (n : nat) : ascii :=
  if (n <? 10)%nat then ascii_of_nat (48 + n) else ascii_of_nat (55 + n).

(** [encodeURIComponent(s)] on a string held as its UTF-8 bytes: every
    byte that is not an unreserved character becomes [%XX]. *)
Fixpoint encodeURIComponent (s : string) : string :=
  match s with
  | EmptyString => EmptyString
  | String c s' =>
      if unreserved c then String c (encodeURIComponent s')
      else String "%" (String (hexDigit (nat_of_ascii c / 16))
                              (String (hexDigit (nat_of_ascii c mod 16))
                                      (encodeURIComponent s')))
  end.

(** [getUserPhoto(graph, userId)] *)
Definition getUserPhoto (env : Env) (userId : string) : M World Json :=
  (let encodedUser := encodeURIComponent userId in
   cached <-
     (if getIsPhotosCacheEnabled (config env) then
        photoDetails <- getPhotoValue userId ;;
        match photoDetails with
        | Some p =>
            now <- dateNow env ;;
            if match photo_timeCached p with
               | Some timeCached => getUserPhoto_fresh (config env) now timeCached
               | None => false
               end
            then ret (inl (photo p))
            else
              tryCatch
                (response <- get env ("users/" ++ userId ++ "/photo") ;;
                 changed <- photoChanged response photoDetails ;;
                 ret (inr (if changed then None else photoDetails)))
                (fun _ => ret (inl JNull))
        | None => ret (inr photoDetails)
        end
      else ret (inr None)) ;;
   match cached with
   | inl result => ret result
   | inr photoDetails =>
       photoDetails <-
         match photoDetails with
         | Some p => ret (Some p)
         | None => getPhotoForResource env ("users/" ++ encodedUser)
         end ;;
       (if getIsPhotosCacheEnabled (config env) then
          match photoDetails with
          | Some p => putPhotoValue env userId p
          | None => ret tt
          end
        else ret tt) ;;
       ret (match photoDetails with
            | Some p => photo p
            | None => JNull
            end)
   end)%js.

(** A guest account: its user principal name holds a [#]. *)
Definition guestId : string := "ada_contoso.com#EXT#@fabrikam.onmicrosoft.com".

End UserPhotos.

(** ** Channels of teams ([getChannelsForTeams]) *)

Module Teams.
Import Js BatchEngine Access.

(** A [Team] as the function uses it: its [id] and the object itself. *)
Record Team : Type := {
  team_id : string;
  team_value : Json
}.

Definition channelReadScopes : list string :=
  ["Channel.ReadBasic.All"; "ChannelSettings.Read.All";
   "ChannelSettings.ReadWrite.All"].

(** The batch built by the first loop. *)
Definition teamsBatch (teams : list Team) : Batch :=
  foldl (fun batch team =>
           BatchEngine.get (team_id team)
                           ("teams/" ++ team_id team ++ "/channels")
                           (Some channelReadScopes) None batch)
        newBatch teams.

(** The test [!channelsForTeam?.content?.value?.length] and the [map]
    that follows it: [None] when the team is skipped, the channels when
    [value] is a non-empty array; anything else with a truthy [length]
    has no [map]. *)
Definition channelsOf (response : option (BatchResponse Json))
  : M World (option (list Json)) :=
  match response with
  | None => ret None
  | Some r =>
      match contentJson (resp_content r) with
      | JUndefined | JNull => ret None
      | content =>
          match prop content "value" with
          | JArr [] => ret None
          | JArr l => ret (Some l)
          | JStr EmptyString => ret None
          | JStr _ => throw TypeError
          | JObj fields =>
              if truthy (assoc fields "length") then throw TypeError
              else ret None
          | _ => ret None
          end
      end
  end.

(** A [DropdownItem]. *)
Definition dropdownItem (team : Team) (channels : list Json) : Json :=
  JObj [("item", team_value team);
        ("channels", JArr (map (fun c => JObj [("item", c)]) channels))].

(** [getChannelsForTeams(graph, teams)] *)
Definition getChannelsForTeams (env : Env) (fuel : nat) (teams : list Team)
  : M World (list Json) :=
  (let batch := teamsBatch teams in
   responses <- runBatch env fuel batch ;;
   forOf (fun result team =>
            channels <- channelsOf (responses !! team_id team) ;;
            match channels with
            | None => ret result
            | Some l => ret (result ++ [dropdownItem team l])%list
            end) teams [])%js.

Definition teamA : Team :=
  {| team_id := "t1"; team_value := JObj [("id", JStr "t1")] |}.
Definition teamB : Team :=
  {| team_id := "t2"; team_value := JObj [("id", JStr "t2")] |}.

Definition general : Json :=
  JObj [("id", JStr "c1"); ("displayName", JStr "General")].

(** A batch endpoint that answers the first request of a composite
    request with one channel and every other request with none. *)
Definition channelsEnv : Env :=
  {| config := cacheOff;
     clock := fun n => 1000 + Z.of_nat n;
     apiGet := fun _ _ => ApiRejected (TransportError "offline");
     apiRaw := fun _ _ => ApiRejected (TransportError "offline");
     batchPost := fun _ _ steps =>
       Resolved
         (map (fun s =>
                 {| r_id := step_id s; r_status := 200; r_headers := ∅;
                    r_body :=
                      BodyOther
                        (JObj [("value",
                                if String.eqb (step_id s) "0"
                                then JArr [general] else JArr [])]) |})
              steps) |}.

End Teams.

(** ** Drive items of insights ([getDriveItemsByInsights]) *)

Module Insights.
Import Js BatchEngine Access.

(** The batch built by the first loop; an insight item is represented by
    [item.resourceReference.id], a string. *)
Definition insightsBatch (scopes : list string) (insightItems : list string)
  : Batch :=
  foldl (fun batch driveItemId =>
           if negb (String.eqb driveItemId "")
           then BatchEngine.get driveItemId driveItemId (Some scopes) None batch
           else batch)
        newBatch insightItems.

(** [insightItems.filter(insightItem => Boolean(insightItem.resourceReference.id))] *)
Definition nonEmptyIds (insightItems : list string) : list string :=
  filter (fun id => negb (String.eqb id "")) insightItems.

(** [getDriveItemsByInsights(graph, insightResponse, scopes)]; [None] is
    a falsy [insightResponse], [Some None] one without [value]. *)
Definition getDriveItemsByInsights (env : Env) (fuel : nat)
    (insightResponse : option (option (list string))) (scopes : list string)
  : M World (list Json) :=
  match insightResponse with
  | None => ret []
  | Some None => throw TypeError
  | Some (Some insightItems) =>
      let batch := insightsBatch scopes insightItems in
      tryCatch
        (driveItemResponses <- runBatch env fuel batch ;;
         forOf (fun driveItems id =>
                  match driveItemResponses !! id with
                  | Some response =>
                      let content := contentJson (resp_content response) in
                      if truthy content
                      then ret (driveItems ++ [content])%list
                      else ret driveItems
                  | None => ret driveItems
                  end) insightItems [])%js
        (fun _ =>
           (promises <-
              mapEach (fun id => attempt (get env id))
                      (nonEmptyIds insightItems) ;;
            promiseAll promises)%js)
  end.

End Insights.

(** ** Attribute converters *)

Module Converters.
Import Js Access.

Definition groupTypeValues : list string :=
  ["any"; "unified"; "security"; "mailenabledsecurity"; "distribution"].

(** [isGroupType(groupType)]; [None] is a value that is not a string. *)
Definition isGroupType (groupType : option string) : bool :=
  match groupType with
  | Some s => inList s groupTypeValues
  | None => false
  end.

(** [groupTypeConverter(value, defaultValue = 'any')]; the result is
    [value] or [defaultValue], whichever it is. *)
Definition groupTypeConverter (value : option string)
    (defaultValue : option string) : option string :=
  if isGroupType value then value
  else Some (default "any" defaultValue).

Definition interactions : list string := ["none"; "hover"; "click"].

(** [isPersonCardInteraction(value)] *)
Definition isPersonCardInteraction (value : option string) : bool :=
  match value with
  | Some s => inList s interactions
  | None => false
  end.

(** [personCardConverter(value, defaultValue = 'none')] *)
Definition personCardConverter (value : option string)
    (defaultValue : option string) : option string :=
  if isPersonCardInteraction value then value
  else Some (default "none" defaultValue).

Definition avatarTypes : list string := ["photo"; "initials"].

(** [isAvatarType(value)] *)
Definition isAvatarType (value : option string) : bool :=
  match value with
  | Some s => inList s avatarTypes
  | None => false
  end.

(** [avatarTypeConverter(value, defaultValue = 'photo')] *)
Definition avatarTypeConverter (value : option string)
    (defaultValue : option string) : option string :=
  if isAvatarType value then value
  else Some (default "photo" defaultValue).

End Converters.

(** ** [chainMiddleware] *)

Module Chain.
Import Js.

(** A middleware, as [chainMiddleware] sees it: whether it has a
    [setNext] method. *)
Record Middleware : Type := {
  mw_name : string;
  mw_hasSetNext : bool
}.

(** The calls [receiver.setNext(argument)] made so far, oldest first. *)
Definition Calls : Type := list (Middleware * option Middleware).

(** One turn of the loop: [current] and [next] may be [undefined]. *)
Definition link (current next : option Middleware)
  : M Calls (option Middleware) :=
  match current with
  | None => throw TypeError
  | Some c =>
      ((if mw_hasSetNext c
        then modify (fun calls : Calls => (calls ++ [(c, next)])%list)
        else ret tt) ;;
       ret next)%js
  end.

(** [chainMiddleware(...middleware)]; an element and the result may be
    [undefined]. *)
Definition chainMiddleware (middleware : list (option Middleware))
  : M Calls (option Middleware) :=
  (let rootMiddleware := mjoin (head middleware) in
   forOf link (tail middleware) rootMiddleware ;;
   ret rootMiddleware)%js.

(** The successor of each middleware that has [setNext]. *)
Fixpoint links (ms : list Middleware) : Calls :=
  match ms with
  | m :: ((m' :: _) as rest) =>
      if mw_hasSetNext m then (m, Some m') :: links rest else links rest
  | _ => []
  end.

Definition handler (name : string) : Middleware :=
  {| mw_name := name; mw_hasSetNext := true |}.

End Chain.

(** * Properties *)

(** ** Facts about the JavaScript primitives *)

Module JsFacts.
Import Js.

Lemma bind_ok {S A B} (m : M S A) (k : A -> M S B) s a s' :
  m s = (Ok a, s') -> bind m k s = k a s'.
Proof. intros H. unfold bind. now rewrite H. Qed.

Lemma bind_throw {S A B} (m : M S A) (k : A -> M S B) s e s' :
  m s = (Throw e, s') -> bind m k s = (Throw e, s').
Proof. intros H. unfold bind. now rewrite H. Qed.

Lemma bind_timeout {S A B} (m : M S A) (k : A -> M S B) s s' :
  m s = (Timeout, s') -> bind m k s = (Timeout, s').
Proof. intros H. unfold bind. now rewrite H. Qed.

Lemma bind_ret {S A B} (a : A) (k : A -> M S B) : bind (ret a) k = k a.
Proof. reflexivity. Qed.

Lemma tryCatch_ok {S A} (m : M S A) (h : Exn -> M S A) s a s' :
  m s = (Ok a, s') -> tryCatch m h s = (Ok a, s').
Proof. intros H. unfold tryCatch. now rewrite H. Qed.

Lemma tryCatch_throw {S A} (m : M S A) (h : Exn -> M S A) s e s' :
  m s = (Throw e, s') -> tryCatch m h s = h e s'.
Proof. intros H. unfold tryCatch. now rewrite H. Qed.

Lemma tryCatch_timeout {S A} (m : M S A) (h : Exn -> M S A) s s' :
  m s = (Timeout, s') -> tryCatch m h s = (Timeout, s').
Proof. intros H. unfold tryCatch. now rewrite H. Qed.

Lemma digitOf_uint_head (d : Decimal.uint) (acc : Z) :
  digits (uintString d) (Some acc) =
  Some (Z.of_nat (Nat.of_uint_acc d (Z.to_nat acc))) \/ acc < 0.
Proof.
  destruct (Z.ltb_spec acc 0) as [Hneg | Hpos]; [now right | left].
  revert acc Hpos.
  induction d; intros acc Hpos; cbn [uintString digits Nat.of_uint_acc];
    [ f_equal; lia | .. ];
    match goal with
    | |- context [digitOf ?c] =>
        let v := eval vm_compute in (digitOf c) in
        change (digitOf c) with v; cbv iota
    end;
    (rewrite IHd by lia); do 2 f_equal; rewrite Nat.tail_mul_spec; f_equal; lia.
Qed.

Lemma to_little_uint_nonnil (n : nat) (d : Decimal.uint) :
  d <> Decimal.Nil -> Nat.to_little_uint n d <> Decimal.Nil.
Proof.
  revert d. induction n as [| n IH]; intros d Hd; simpl; [assumption |].
  apply IH. destruct d; simpl; try discriminate; congruence.
Qed.

Lemma to_uint_nonnil (n : nat) : Nat.to_uint n <> Decimal.Nil.
Proof.
  unfold Nat.to_uint. intros H. apply DecimalFacts.rev_nil_inv in H.
  now apply to_little_uint_nonnil in H.
Qed.

(** Reading back the decimal rendering of an index gives the index. *)
Lemma parseInt_toString (n : nat) :
  parseInt (Some (toString n)) = Some (Z.of_nat n).
Proof.
  unfold toString.
  assert (Hval : Nat.of_uint (Nat.to_uint n) = n) by apply DecimalNat.Unsigned.of_to.
  pose proof (to_uint_nonnil n) as Hnn.
  revert Hval Hnn. generalize (Nat.to_uint n) as d. intros d Hval Hnn.
  unfold Nat.of_uint in Hval.
  destruct d; [congruence | ..];
    cbn [parseInt uintString skipSpaces];
    match goal with
    | |- context [isSpace ?c] =>
        let v := eval vm_compute in (isSpace c) in
        change (isSpace c) with v; cbv iota
    end;
    cbn [digits];
    match goal with
    | |- context [digitOf ?c] =>
        let v := eval vm_compute in (digitOf c) in
        change (digitOf c) with v; cbv iota
    end;
    match goal with
    | |- digits _ (Some ?a) = _ =>
        destruct (digitOf_uint_head d a) as [-> | Hneg]; [ | lia ]
    end;
    f_equal; rewrite <- Hval; cbn [Nat.of_uint_acc];
    rewrite ?Nat.tail_mul_spec; do 2 f_equal.
Qed.

Lemma toString_inj (n m : nat) : toString n = toString m -> n = m.
Proof.
  intros H.
  assert (Some (Z.of_nat n) = Some (Z.of_nat m)) as Heq
    by (rewrite <- !parseInt_toString; now rewrite H).
  injection Heq. lia.
Qed.

#[export] Instance toString_Inj : Inj (=) (=) toString.
Proof. intros n m. apply toString_inj. Qed.

Lemma at_toString {A} (l : list A) (i : nat) :
  at_ l (parseInt (Some (toString i))) = l !! i.
Proof.
  rewrite parseInt_toString. unfold at_.
  destruct (Z.ltb_spec (Z.of_nat i) 0); [lia |]. now rewrite Nat2Z.id.
Qed.

End JsFacts.

(** ** The batch request engine *)

Module BatchFacts.
Import Js JsFacts BatchEngine BatchSpec.

#[local] Arguments parseInt : simpl never.
#[local] Arguments at_ : simpl never.
#[local] Arguments decodeString : simpl never.
#[local] Arguments toString : simpl never.
#[local] Arguments orElse : simpl never.

(** *** Batches built by [get] *)

Lemma getAll_snoc calls c b :
  getAll (calls ++ [c]) b =
  get (c_id c) (c_resource c) (c_scopes c) (c_headers c) (getAll calls b).
Proof. unfold getAll. now rewrite foldl_snoc. Qed.

Lemma getAll_fields calls :
  allRequests (getAll calls newBatch) = imap requestOf calls /\
  requestsQueue (getAll calls newBatch) = seq 0 (length calls) /\
  retryAfter (getAll calls newBatch) = 0 /\
  nextIndex (getAll calls newBatch) = length calls.
Proof.
  induction calls as [| c calls IH] using rev_ind; [now repeat split |].
  destruct IH as (Hreqs & Hq & Hra & Hni).
  rewrite getAll_snoc. unfold get; simpl.
  rewrite Hreqs, Hq, Hra, Hni, imap_app, length_app, seq_app. simpl.
  rewrite Nat.add_0_r, Nat.add_1_r. now repeat split.
Qed.

Lemma getAll_lookup calls i request :
  allRequests (getAll calls newBatch) !! i = Some request <->
  exists c, calls !! i = Some c /\ request = requestOf i c.
Proof.
  destruct (getAll_fields calls) as (-> & _).
  rewrite list_lookup_imap. destruct (calls !! i) as [c |]; simpl.
  - split; [intros [= <-]; eauto | intros (c' & [= <-] & ->); reflexivity].
  - split; [discriminate | intros (c' & [=] & _)].
Qed.

Lemma getAll_indexed calls : indexed (allRequests (getAll calls newBatch)).
Proof.
  intros i request H. apply getAll_lookup in H as (c & _ & ->). reflexivity.
Qed.

Lemma getAll_ids calls :
  map req_id (allRequests (getAll calls newBatch)) = map c_id calls.
Proof.
  destruct (getAll_fields calls) as (-> & _).
  apply list_eq. intros i.
  rewrite !list_lookup_fmap, list_lookup_imap.
  now destruct (calls !! i).
Qed.

Lemma getAll_length calls :
  length (allRequests (getAll calls newBatch)) = length calls.
Proof.
  destruct (getAll_fields calls) as (-> & _). apply length_imap.
Qed.

Lemma getAll_wf calls : wfBatch (getAll calls newBatch).
Proof.
  split; [apply getAll_indexed |].
  rewrite getAll_length. destruct (getAll_fields calls) as (_ & -> & _).
  apply Forall_forall. intros i Hi. apply elem_of_seq in Hi. lia.
Qed.

Lemma newBatch_built : built newBatch.
Proof.
  repeat split; simpl; auto.
  intros i request H. now rewrite lookup_nil in H.
Qed.

Lemma get_built id resource sc h b :
  built b -> built (get id resource sc h b).
Proof.
  intros (Hni & [Hidx Hvalid] & Hra). unfold get.
  repeat split; simpl.
  - rewrite length_app. simpl. lia.
  - intros i request Hreq.
    apply lookup_app_Some in Hreq as [Hreq | [Hge Hreq]]; [now apply Hidx |].
    apply list_lookup_singleton_Some in Hreq as [Hi <-]. simpl. lia.
  - rewrite length_app. simpl. apply Forall_app. split.
    + eapply Forall_impl; [exact Hvalid |]. simpl. intros; lia.
    + repeat constructor. lia.
  - exact Hra.
Qed.

Lemma get_queue id resource sc h b :
  requestsQueue (get id resource sc h b) <> [].
Proof. unfold get; simpl. now destruct (requestsQueue b). Qed.

Section Facts.
Context {T : Type}.
Implicit Types (r : SubResponse T) (rs : list (SubResponse T)).
Implicit Types (m : gmap string (BatchResponse T)).
Implicit Types (st : EngineState T) (tp : Transport T).
Implicit Types (tr : list (Event T)).

(** *** One sub-response *)

Lemma processResponse_run m r st :
  okResp (allRequests (batch st)) r ->
  processResponse m r st =
  (Ok (addEntry (allRequests (batch st)) m r),
   withState (requeue (requestsQueue (batch st)) r)
             (bumpRetry (retryAfter (batch st)) r) (trace st) st).
Proof.
  intros [[request Hreq] Hdec].
  destruct st as [[reqs q sc ra ni] tr]; simpl in *.
  unfold processResponse, addEntry, requeue, bumpRetry, withState, withBatch.
  unfold bind, getState; simpl.
  fold (idx r). rewrite Hreq.
  destruct (Z.eqb_spec (r_status r) 200) as [H200 | H200]; simpl.
  - destruct (Hdec H200) as [c Hc].
    assert ((r_status r =? 429) = false) as -> by (apply Z.eqb_neq; lia).
    rewrite Hc. unfold decode in Hc.
    destruct (r_body r) as [s | t]; [rewrite Hc | injection Hc as <-]; reflexivity.
  - destruct (r_status r =? 429); reflexivity.
Qed.


(** *** The loop over the sub-responses of a round *)

Lemma withState_batch q ra tr st :
  allRequests (batch (withState q ra tr st)) = allRequests (batch st).
Proof. reflexivity. Qed.

Lemma forOf_processResponse rs : forall m st,
  Forall (okResp (allRequests (batch st))) rs ->
  forOf processResponse rs m st =
  (Ok (foldl (addEntry (allRequests (batch st))) m rs),
   withState (foldl requeue (requestsQueue (batch st)) rs)
             (foldl bumpRetry (retryAfter (batch st)) rs) (trace st) st).
Proof.
  induction rs as [| r rs IH]; intros m st Hok.
  - destruct st as [[reqs q sc ra ni] tr]; reflexivity.
  - apply Forall_cons in Hok as [Hr Hrs].
    cbn [forOf foldl].
    erewrite bind_ok by (apply processResponse_run; exact Hr).
    rewrite IH by exact Hrs. reflexivity.
Qed.

Lemma foldl_requeue rs : forall q,
  foldl requeue q rs = (reverse (throttled rs) ++ q)%list.
Proof.
  induction rs as [| r rs IH]; intros q; [reflexivity |].
  cbn [foldl throttled]. rewrite IH. unfold requeue.
  destruct (r_status r =? 429); [| reflexivity].
  rewrite reverse_cons. now rewrite <- app_assoc.
Qed.



Lemma foldl_bumpRetry_quiet rs : forall ra,
  Forall (fun r => r_status r <> 429) rs -> foldl bumpRetry ra rs = ra.
Proof.
  induction rs as [| r rs IH]; intros ra H; [reflexivity |].
  apply Forall_cons in H as [Hr Hrs]. cbn [foldl].
  unfold bumpRetry at 2. apply Z.eqb_neq in Hr. rewrite Hr. now apply IH.
Qed.

Lemma throttled_quiet rs :
  Forall (fun r => r_status r <> 429) rs -> throttled rs = [].
Proof.
  induction 1 as [| r rs Hr _ IH]; [reflexivity |].
  cbn [throttled]. apply Z.eqb_neq in Hr. now rewrite Hr.
Qed.

Lemma elem_of_throttled rs i :
  i ∈ throttled rs <-> exists r, r ∈ rs /\ r_status r = 429 /\ idxNat r = i.
Proof.
  induction rs as [| r rs IH]; cbn [throttled].
  - split; [intros H; now apply elem_of_nil in H |].
    intros (r & H & _); now apply elem_of_nil in H.
  - destruct (Z.eqb_spec (r_status r) 429) as [H429 | H429].
    + rewrite elem_of_cons, IH. split.
      * intros [-> | (r' & Hin & Hs & Hi)].
        -- exists r. split; [left | auto].
        -- exists r'. split; [now right | auto].
      * intros (r' & Hin & Hs & Hi).
        apply elem_of_cons in Hin as [-> | Hin]; [now left | right; eauto].
    + rewrite IH. split.
      * intros (r' & Hin & Hs & Hi). exists r'. split; [now right | auto].
      * intros (r' & Hin & Hs & Hi).
        apply elem_of_cons in Hin as [-> | Hin]; [contradiction | eauto].
Qed.

(** *** Building the composite request *)

Lemma stepsOf_cons (reqs : list BatchRequest) i request (l : list nat) :
  reqs !! i = Some request ->
  stepsOf reqs (i :: l) = mkStep request :: stepsOf reqs l.
Proof. intros H. unfold stepsOf. simpl. now rewrite H. Qed.

Lemma mapEach_steps (reqs : list BatchRequest) (l : list nat) st :
  Forall (fun i => (i < length reqs)%nat) l ->
  mapEach (S := EngineState T)
          (fun i => match reqs !! i with
                    | Some request => ret (mkStep request)
                    | None => throw TypeError
                    end) l st
  = (Ok (stepsOf reqs l), st).
Proof.
  induction 1 as [| i l Hi _ IH]; [reflexivity |].
  cbn [mapEach].
  destruct (lookup_lt_is_Some_2 reqs i Hi) as [request Hreq].
  rewrite (stepsOf_cons _ _ _ _ Hreq), Hreq. unfold bind at 1, ret at 1.
  unfold bind at 1. rewrite IH. reflexivity.
Qed.


(** *** One round *)

Lemma executeNext_empty tp st :
  requestsQueue (batch st) = [] ->
  executeNext tp st = (Ok ∅, withState [] 0 (afterDelay st) st).
Proof.
  destruct st as [[reqs q sc ra ni] tr]; simpl. intros ->.
  unfold executeNext, afterDelay, withState, withBatch, bind, getState; simpl.
  destruct (Z.eqb_spec ra 0) as [-> | Hra]; reflexivity.
Qed.

Lemma executeNext_post tp st :
  requestsQueue (batch st) <> [] ->
  Forall (fun i => (i < length (allRequests (batch st)))%nat)
         (requestsQueue (batch st)) ->
  let steps := stepsOf (allRequests (batch st)) (take 20 (requestsQueue (batch st))) in
  let res := tp (afterDelay st) (scopes (batch st)) steps in
  let st1 := withState (drop 20 (requestsQueue (batch st))) 0
                       (afterDelay st ++ [EvPost (scopes (batch st)) steps res]) st in
  executeNext tp st =
  match res with
  | Rejected e => (Throw e, st1)
  | Resolved rs => forOf processResponse rs ∅ st1
  end.
Proof.
  destruct st as [[reqs q sc ra ni] tr]; simpl. intros Hq Hvalid.
  assert (Hsteps := fun st' => mapEach_steps reqs (take 20 q) st'
                                (Forall_take _ 20%nat _ Hvalid)).
  assert (Hhas : (0 <? length q)%nat = true)
    by (destruct q; [congruence | reflexivity]).
  unfold executeNext, afterDelay, withState, withBatch, hasRequests.
  remember (take 20 q) as nb eqn:Hnb. remember (drop 20 q) as rest eqn:Hrest.
  unfold bind at 1, getState; simpl.
  destruct (Z.eqb_spec ra 0) as [-> | Hra].
  - unfold bind at 1, ret at 1, bind at 1, getState; simpl.
    rewrite Hhas; simpl. rewrite <- Hnb, <- Hrest.
    unfold bind at 1, setQueue, modify; simpl.
    unfold bind at 1. rewrite Hsteps.
    unfold bind at 1, post, bind at 1, getState; simpl.
    unfold bind at 1, emit, modify; simpl.
    destruct (tp tr sc _); reflexivity.
  - unfold bind at 1, bind at 1, delay, emit, modify, setRetryAfter; simpl.
    unfold bind at 1, getState; simpl.
    rewrite Hhas; simpl. rewrite <- Hnb, <- Hrest.
    unfold bind at 1, setQueue, modify; simpl.
    unfold bind at 1. rewrite Hsteps.
    unfold bind at 1, post, bind at 1, getState; simpl.
    unfold bind at 1, emit, modify; simpl.
    destruct (tp _ sc _); reflexivity.
Qed.

(** *** Sub-responses that name requests of the batch *)

Lemma named_of_id r i :
  r_id r = toString i -> idxNat r = i /\ idx r = Some (Z.of_nat i).
Proof.
  intros H. unfold idxNat, idx. rewrite H, parseInt_toString. simpl.
  split; [apply Nat2Z.id | reflexivity].
Qed.

Lemma named_at reqs r :
  named reqs r -> at_ reqs (idx r) = reqs !! idxNat r.
Proof.
  intros (Hid & _). unfold idx at 1. rewrite Hid. apply at_toString.
Qed.

Lemma named_okResp reqs r : named reqs r -> okResp reqs r.
Proof.
  intros Hn. split; [| apply Hn].
  rewrite (named_at _ _ Hn). apply Hn.
Qed.

Lemma distinctIds_inj reqs i j ri rj :
  distinctIds reqs -> reqs !! i = Some ri -> reqs !! j = Some rj ->
  req_id ri = req_id rj -> i = j.
Proof.
  intros Hnd Hi Hj Heq.
  eapply NoDup_lookup; [exact Hnd | |].
  - rewrite list_lookup_fmap, Hi. reflexivity.
  - rewrite list_lookup_fmap, Hj. simpl. now rewrite Heq.
Qed.

Lemma addEntry_named reqs m r request :
  named reqs r -> reqs !! idxNat r = Some request ->
  addEntry reqs m r =
  if r_status r =? 200
  then match decode r with
       | Some c => <[req_id request := entry request r c]> m
       | None => m
       end
  else m.
Proof.
  intros Hn Hreq. unfold addEntry.
  rewrite (named_at _ _ Hn), Hreq. reflexivity.
Qed.

(** Lookups in the map produced by a round. *)
Lemma foldl_addEntry_other reqs rs : forall m i request,
  distinctIds reqs -> Forall (named reqs) rs ->
  reqs !! i = Some request ->
  (forall r, r ∈ rs -> idxNat r = i -> r_status r <> 200) ->
  foldl (addEntry reqs) m rs !! req_id request = m !! req_id request.
Proof.
  induction rs as [| r rs IH]; intros m i request Hnd Hnamed Hreq Hno;
    [reflexivity |].
  apply Forall_cons in Hnamed as [Hr Hrs]. cbn [foldl].
  rewrite (IH _ i request Hnd Hrs Hreq)
    by (intros r' Hin; apply Hno; now right).
  destruct Hr as (Hid & [request' Hreq'] & Hdec).
  rewrite (addEntry_named reqs m r request') by (repeat split; eauto).
  destruct (Z.eqb_spec (r_status r) 200) as [H200 | H200]; [| reflexivity].
  destruct (decode r) as [c |]; [| reflexivity].
  apply lookup_insert_ne. intros Heq.
  assert (idxNat r = i) as Hi
    by (eapply distinctIds_inj; eauto).
  apply (Hno r); [left | exact Hi | exact H200].
Qed.

Lemma foldl_addEntry_hit reqs rs : forall m i request r c,
  distinctIds reqs -> Forall (named reqs) rs -> NoDup (map idxNat rs) ->
  reqs !! i = Some request ->
  r ∈ rs -> idxNat r = i -> r_status r = 200 -> decode r = Some c ->
  foldl (addEntry reqs) m rs !! req_id request = Some (entry request r c).
Proof.
  induction rs as [| r0 rs IH]; intros m i request r c Hnd Hnamed Hnodup Hreq Hin Hi H200 Hc.
  - now apply elem_of_nil in Hin.
  - apply Forall_cons in Hnamed as [Hr0 Hrs].
    cbn [map] in Hnodup. apply NoDup_cons in Hnodup as [Hfresh Hnodup].
    cbn [foldl]. apply elem_of_cons in Hin as [<- | Hin].
    + rewrite (foldl_addEntry_other reqs rs _ i request Hnd Hrs Hreq).
      * rewrite (addEntry_named reqs m r request) by (rewrite ?Hi; auto).
        rewrite H200, Hc. simpl. apply lookup_insert_eq.
      * intros r' Hin' Hi' _. apply Hfresh. rewrite Hi, <- Hi'.
        apply list_elem_of_fmap. eauto.
    + eapply IH; eauto.
Qed.

Lemma foldl_addEntry_dom reqs rs : forall m k,
  Forall (named reqs) rs ->
  is_Some (foldl (addEntry reqs) m rs !! k) ->
  is_Some (m !! k) \/
  exists r request c, r ∈ rs /\ reqs !! idxNat r = Some request /\
                      r_status r = 200 /\ decode r = Some c /\
                      k = req_id request.
Proof.
  induction rs as [| r rs IH]; intros m k Hnamed Hk; [now left |].
  apply Forall_cons in Hnamed as [Hr Hrs]. cbn [foldl] in Hk.
  apply IH in Hk as [Hk | (r' & request & c & Hin & Hreq & H200 & Hc & ->)];
    [| right; exists r', request, c; repeat split; auto; now right | exact Hrs].
  destruct Hr as (Hid & [request Hreq] & Hdec).
  rewrite (addEntry_named reqs m r request) in Hk by (repeat split; eauto).
  destruct (Z.eqb_spec (r_status r) 200) as [H200 | H200]; [| now left].
  destruct (decode r) as [c |] eqn:Hc; [| now left].
  destruct (decide (k = req_id request)) as [-> | Hne].
  - right. exists r, request, c. repeat split; auto. left.
  - left. now rewrite lookup_insert_ne in Hk.
Qed.

(** *** What a well-behaved endpoint returns for a round *)

Lemma step_ids reqs (l : list nat) :
  indexed reqs -> Forall (fun i => (i < length reqs)%nat) l ->
  map step_id (stepsOf reqs l) = map toString l.
Proof.
  intros Hidx. induction 1 as [| i l Hi _ IH]; [reflexivity |].
  destruct (lookup_lt_is_Some_2 reqs i Hi) as [request Hreq].
  rewrite (stepsOf_cons _ _ _ _ Hreq). cbn [map]. rewrite IH. f_equal.
  unfold mkStep; simpl. now rewrite (Hidx _ _ Hreq).
Qed.

Lemma submseteq_NoDup {A} (l k : list A) : l ⊆+ k -> NoDup k -> NoDup l.
Proof.
  induction 1 as [| x l k Hsub IH | x y l | x l k Hsub IH | l k k' _ IH1 _ IH2];
    intros Hnd.
  - exact Hnd.
  - apply NoDup_cons in Hnd as [Hx Hnd]. apply NoDup_cons. split; auto.
    intros Hin. apply Hx. eapply elem_of_submseteq; eauto.
  - apply NoDup_cons in Hnd as [Hx Hnd]. apply NoDup_cons in Hnd as [Hy Hnd].
    apply not_elem_of_cons in Hx as [Hxy Hx].
    apply NoDup_cons. split; [| apply NoDup_cons; auto].
    apply not_elem_of_cons. split; [congruence | exact Hy].
  - apply NoDup_cons in Hnd as [_ Hnd]. auto.
  - auto.
Qed.

Lemma wellBehaved_round tp reqs (l : list nat) h sc :
  wellBehaved tp -> indexed reqs -> NoDup l ->
  Forall (fun i => (i < length reqs)%nat) l ->
  exists rs,
    tp h sc (stepsOf reqs l) = Resolved rs /\
    Forall (named reqs) rs /\ NoDup (map idxNat rs) /\
    (forall r, r ∈ rs -> idxNat r ∈ l).
Proof.
  intros Hwb Hidx Hndl Hvalid.
  destruct (Hwb h sc (stepsOf reqs l)) as (rs & Htp & Hsub & Hall).
  exists rs. split; [exact Htp |].
  rewrite (step_ids _ _ Hidx Hvalid) in Hsub.
  assert (Hnodup : NoDup (map r_id rs)).
  { eapply submseteq_NoDup; [exact Hsub |].
    now apply (NoDup_fmap_2 toString). }
  assert (Hnames : forall r, r ∈ rs ->
            exists i, i ∈ l /\ r_id r = toString i /\ idxNat r = i).
  { intros r Hin.
    assert (r_id r ∈ map toString l) as Hid
      by (eapply elem_of_submseteq; [| exact Hsub];
          apply list_elem_of_fmap; eauto).
    apply list_elem_of_fmap in Hid as (i & Hid & Hi).
    exists i. repeat split; auto. now apply (named_of_id r i). }
  split; [| split].
  - apply Forall_forall. intros r Hin.
    destruct (Hnames r Hin) as (i & Hi & Hid & Hix).
    rewrite Forall_forall in Hall. rewrite Forall_forall in Hvalid.
    repeat split.
    + now rewrite Hix.
    + rewrite Hix. apply lookup_lt_is_Some_2. now apply Hvalid.
    + now apply Hall.
  - apply (NoDup_fmap_1 toString).
    rewrite <- list_fmap_compose.
    erewrite (list_fmap_ext _ r_id); [exact Hnodup |].
    intros k r Hk. simpl.
    destruct (Hnames r) as (i & _ & Hid & Hix);
      [eapply list_elem_of_lookup_2; eauto | congruence].
  - intros r Hin. destruct (Hnames r Hin) as (i & Hi & _ & Hix). congruence.
Qed.

(** *** Preservation of the invariant by a round *)

Lemma answers_app tr1 tr2 :
  answers (tr1 ++ tr2) = (answers tr1 ++ answers tr2)%list.
Proof.
  induction tr1 as [| e tr1 IH]; [reflexivity |].
  destruct e as [ms | sc steps [e | rs]]; simpl; rewrite IH;
    [reflexivity | reflexivity | now rewrite app_assoc].
Qed.

Lemma answers_afterDelay st : answers (afterDelay st) = answers (trace st).
Proof.
  unfold afterDelay. destruct (retryAfter (batch st) =? 0); [reflexivity |].
  rewrite answers_app. simpl. apply app_nil_r.
Qed.

Lemma posts_app tr1 tr2 :
  posts (tr1 ++ tr2) = (posts tr1 ++ posts tr2)%list.
Proof.
  induction tr1 as [| e tr1 IH]; [reflexivity |].
  destruct e as [ms | sc steps res]; simpl; now rewrite IH.
Qed.

Lemma posts_afterDelay st : posts (afterDelay st) = posts (trace st).
Proof.
  unfold afterDelay. destruct (retryAfter (batch st) =? 0); [reflexivity |].
  rewrite posts_app. simpl. apply app_nil_r.
Qed.

Lemma throttled_sublist rs : throttled rs `sublist_of` map idxNat rs.
Proof.
  induction rs as [| r rs IH]; cbn [throttled map]; [constructor |].
  destruct (r_status r =? 429); now constructor.
Qed.

Lemma take_drop_disjoint {A} (q : list A) (n : nat) (x : A) :
  NoDup q -> x ∈ take n q -> x ∉ drop n q.
Proof.
  intros Hnd. rewrite <- (take_drop n q) in Hnd.
  apply NoDup_app in Hnd as (_ & Hdisj & _). apply Hdisj.
Qed.

Lemma elem_of_take_full {A} (q : list A) (n : nat) (x : A) :
  x ∈ take n q -> x ∈ q.
Proof.
  intros H. rewrite <- (take_drop n q). apply elem_of_app. now left.
Qed.

Lemma elem_of_drop_full {A} (q : list A) (n : nat) (x : A) :
  x ∈ drop n q -> x ∈ q.
Proof.
  intros H. rewrite <- (take_drop n q). apply elem_of_app. now right.
Qed.

Lemma NoDup_fmap_elem_inj {A B} (f : A -> B) (l : list A) x y :
  NoDup (map f l) -> x ∈ l -> y ∈ l -> f x = f y -> x = y.
Proof.
  induction l as [| a l IH]; intros Hnd Hx Hy Heq.
  - now apply elem_of_nil in Hx.
  - cbn [map] in Hnd. apply NoDup_cons in Hnd as [Hfresh Hnd].
    apply elem_of_cons in Hx as [-> | Hx];
      apply elem_of_cons in Hy as [-> | Hy]; auto.
    + exfalso. apply Hfresh. rewrite Heq. apply list_elem_of_fmap. eauto.
    + exfalso. apply Hfresh. rewrite <- Heq. apply list_elem_of_fmap. eauto.
Qed.

Lemma inv_round reqs m st rs ra sc steps :
  indexed reqs -> distinctIds reqs -> Inv reqs m st ->
  Forall (named reqs) rs -> NoDup (map idxNat rs) ->
  (forall r, r ∈ rs -> idxNat r ∈ take 20 (requestsQueue (batch st))) ->
  Inv reqs (foldl (addEntry reqs) ∅ rs ∪ m)
      (withState (reverse (throttled rs) ++ drop 20 (requestsQueue (batch st))) ra
                 (afterDelay st ++ [EvPost sc steps (Resolved rs)]) st).
Proof.
  intros Hidx Hdist [Hreqs Hnd Hvalid Hpend Hok Habs Hdec Hfin Hdom] Hnamed Hnodup Hsent.
  set (q := requestsQueue (batch st)) in *.
  assert (Hthr : forall i, i ∈ reverse (throttled rs) ->
            exists r, r ∈ rs /\ r_status r = 429 /\ idxNat r = i).
  { intros i Hi. rewrite elem_of_reverse in Hi. now rewrite elem_of_throttled in Hi. }
  assert (Hans : answers (afterDelay st ++ [EvPost sc steps (Resolved rs)])
                 = (answers (trace st) ++ rs)%list).
  { rewrite answers_app, answers_afterDelay. simpl. now rewrite app_nil_r. }
  assert (Hnew : forall r i, r ∈ rs -> r_id r = toString i -> idxNat r = i).
  { intros r i _ Hid. now apply (named_of_id r i). }
  assert (Hq' : forall i, i ∈ (reverse (throttled rs) ++ drop 20 q)%list -> i ∈ q).
  { intros i Hi. apply elem_of_app in Hi as [Hi | Hi].
    - destruct (Hthr i Hi) as (r & Hin & _ & <-).
      eapply elem_of_take_full. now apply Hsent.
    - eapply elem_of_drop_full; eauto. }
  constructor; simpl.
  - exact Hreqs.
  - apply NoDup_app. repeat split.
    + rewrite reverse_Permutation.
      exact (sublist_NoDup _ _ Hnodup (throttled_sublist rs)).
    + intros i Hi. destruct (Hthr i Hi) as (r & Hin & _ & <-).
      apply take_drop_disjoint; auto.
    + rewrite <- (take_drop 20 q) in Hnd. now apply NoDup_app in Hnd.
  - apply Forall_forall. intros i Hi. rewrite Forall_forall in Hvalid.
    apply Hvalid. now apply Hq'.
  - intros i r Hi Hr Hid. rewrite Hans in Hr.
    apply elem_of_app in Hr as [Hr | Hr].
    + eapply Hpend; eauto.
    + pose proof (Hnew r i Hr Hid) as Hix.
      apply elem_of_app in Hi as [Hi | Hi].
      * destruct (Hthr i Hi) as (r' & Hin' & H429 & Hix').
        assert (r' = r) as ->
          by (apply (NoDup_fmap_elem_inj idxNat rs r' r Hnodup Hin' Hr); congruence).
        exact H429.
      * exfalso. eapply (take_drop_disjoint q 20 i); eauto.
        rewrite <- Hix. now apply Hsent.
  - intros i request r c Hreq Hr Hid H200 Hc. rewrite Hans in Hr.
    apply elem_of_app in Hr as [Hr | Hr].
    + rewrite lookup_union_r; [eapply Hok; eauto |].
      rewrite (foldl_addEntry_other reqs rs ∅ i request); auto.
      intros r' Hin' Hix' _.
      assert (i ∈ q) as Hiq
        by (eapply elem_of_take_full; rewrite <- Hix'; now apply Hsent).
      pose proof (Hpend i r Hiq Hr Hid). lia.
    + apply lookup_union_Some_l.
      eapply foldl_addEntry_hit; eauto.
  - intros i request Hreq Hno.
    apply lookup_union_None. split.
    + rewrite (foldl_addEntry_other reqs rs ∅ i request); auto.
      intros r Hin Hix. apply Hno.
      * rewrite Hans. apply elem_of_app. now right.
      * rewrite Forall_forall in Hnamed.
        destruct (Hnamed r Hin) as (Hid & _). now rewrite Hid, Hix.
    + apply (Habs i); auto. intros r Hr. apply Hno. rewrite Hans.
      apply elem_of_app. now left.
  - intros r Hr H200. rewrite Hans in Hr.
    apply elem_of_app in Hr as [Hr | Hr]; [now apply Hdec |].
    rewrite Forall_forall in Hnamed. now apply (Hnamed r Hr).
  - intros i r r' Hr Hr' Hid Hid' Hs Hs'. rewrite Hans in Hr, Hr'.
    assert (Hmix : forall r1 r2, r1 ∈ answers (trace st) -> r2 ∈ rs ->
              r_id r1 = toString i -> r_id r2 = toString i ->
              r_status r1 <> 429 -> False).
    { intros r1 r2 H1 H2 Hid1 Hid2 Hs1. apply Hs1.
      apply (Hpend i r1); auto.
      eapply elem_of_take_full. rewrite <- (Hnew r2 i H2 Hid2). now apply Hsent. }
    apply elem_of_app in Hr as [Hr | Hr];
      apply elem_of_app in Hr' as [Hr' | Hr'].
    + eapply Hfin; eauto.
    + exfalso. eapply (Hmix r r'); eauto.
    + exfalso. eapply (Hmix r' r); eauto.
    + apply (NoDup_fmap_elem_inj idxNat rs r r' Hnodup Hr Hr').
      rewrite (Hnew r i Hr Hid), (Hnew r' i Hr' Hid'). reflexivity.
  - intros k Hk. apply lookup_union_is_Some in Hk as [Hk | Hk].
    + apply foldl_addEntry_dom in Hk
        as [Hk | (r & request & c & _ & Hreq & _ & _ & ->)]; auto.
      * rewrite lookup_empty in Hk. now destruct Hk.
      * eauto.
    + now apply Hdom.
Qed.

(** *** A round against a well-behaved endpoint *)

Lemma executeNext_wb tp reqs m st :
  wellBehaved tp -> indexed reqs -> distinctIds reqs -> Inv reqs m st ->
  requestsQueue (batch st) <> [] ->
  let q := requestsQueue (batch st) in
  let steps := stepsOf reqs (take 20 q) in
  exists rs,
    tp (afterDelay st) (scopes (batch st)) steps = Resolved rs /\
    Forall (named reqs) rs /\ NoDup (map idxNat rs) /\
    (forall r, r ∈ rs -> idxNat r ∈ take 20 q) /\
    executeNext tp st =
    (Ok (foldl (addEntry reqs) ∅ rs),
     withState (reverse (throttled rs) ++ drop 20 q) (foldl bumpRetry 0 rs)
               (afterDelay st ++ [EvPost (scopes (batch st)) steps (Resolved rs)])
               st).
Proof.
  intros Hwb Hidx Hdist Hinv Hq q steps. subst q steps.
  pose proof (inv_reqs _ _ _ Hinv) as Hreqs.
  pose proof (inv_valid _ _ _ Hinv) as Hvalid.
  pose proof (inv_nodup _ _ _ Hinv) as Hnd.
  destruct (wellBehaved_round tp reqs (take 20 (requestsQueue (batch st)))
              (afterDelay st)
              (scopes (batch st)) Hwb Hidx)
    as (rs & Htp & Hnamed & Hnodup & Hsent).
  { rewrite <- (take_drop 20 (requestsQueue (batch st))) in Hnd.
    now apply NoDup_app in Hnd. }
  { now apply Forall_take. }
  exists rs. repeat split; auto.
  rewrite executeNext_post; [| exact Hq | now rewrite Hreqs].
  cbv zeta. rewrite Hreqs, Htp.
  rewrite forOf_processResponse.
  - simpl. rewrite Hreqs, foldl_requeue. reflexivity.
  - simpl. rewrite Hreqs. eapply Forall_impl; [exact Hnamed |].
    intros r. apply named_okResp.
Qed.

(** *** The loop of [executeAll] *)

Lemma executeAllLoop_done tp fuel m st :
  requestsQueue (batch st) = [] -> executeAllLoop tp fuel m st = (Ok m, st).
Proof.
  intros Hq. destruct fuel; simpl; unfold bind, getState, hasRequests;
    rewrite Hq; reflexivity.
Qed.

Lemma executeAllLoop_step tp fuel m st :
  requestsQueue (batch st) <> [] ->
  executeAllLoop tp (S fuel) m st =
  bind (executeNext tp) (fun round => executeAllLoop tp fuel (round ∪ m)) st.
Proof.
  intros Hq. simpl. unfold bind at 1, getState, hasRequests.
  destruct (requestsQueue (batch st)); [congruence | reflexivity].
Qed.

Lemma executeAllLoop_out tp m st :
  requestsQueue (batch st) <> [] -> executeAllLoop tp 0 m st = (Timeout, st).
Proof.
  intros Hq. simpl. unfold bind at 1, getState, hasRequests.
  destruct (requestsQueue (batch st)); [congruence | reflexivity].
Qed.

Lemma round_budget tp reqs n st rs :
  quietAfter n tp ->
  requestsQueue (batch st) <> [] ->
  tp (afterDelay st) (scopes (batch st))
     (stepsOf reqs (take 20 (requestsQueue (batch st)))) = Resolved rs ->
  NoDup (map idxNat rs) ->
  (forall r, r ∈ rs -> idxNat r ∈ take 20 (requestsQueue (batch st))) ->
  forall ra sc steps res,
  (S (budget n (withState (reverse (throttled rs) ++
                             drop 20 (requestsQueue (batch st))) ra
                          (afterDelay st ++ [EvPost sc steps res]) st))
   <= budget n st)%nat.
Proof.
  intros Hquiet Hq Htp Hnodup Hsent ra sc steps res.
  unfold budget; simpl.
  rewrite posts_app, posts_afterDelay, length_app, length_app,
    length_reverse, length_drop. simpl.
  set (q := requestsQueue (batch st)) in *.
  assert (Hthr : (length (throttled rs) <= length (take 20 q))%nat).
  { etransitivity; [apply sublist_length, throttled_sublist |].
    apply submseteq_length, NoDup_submseteq; [exact Hnodup |].
    intros i Hi. apply list_elem_of_fmap in Hi as (r & -> & Hr). auto. }
  rewrite length_take in Hthr.
  assert (length q <> 0)%nat by (destruct q; simpl; congruence).
  destruct (le_lt_dec n (length (posts (trace st)))) as [Hle | Hlt].
  - rewrite (throttled_quiet rs); [simpl; lia |].
    eapply Hquiet; [| exact Htp]. now rewrite posts_afterDelay.
  - lia.
Qed.

(** Whatever the budget of rounds, the loop keeps the invariant; it
    returns once the queue is empty, and it runs out only if the
    budget is below what the endpoint may need. *)
Lemma executeAllLoop_run tp reqs :
  wellBehaved tp -> indexed reqs -> distinctIds reqs ->
  forall fuel m st,
    Inv reqs m st ->
    exists res st' m',
      executeAllLoop tp fuel m st = (res, st') /\
      Inv reqs m' st' /\
      ((res = Ok m' /\ requestsQueue (batch st') = []) \/
       (res = Timeout /\
        forall n, quietAfter n tp -> (fuel < budget n st)%nat)).
Proof.
  intros Hwb Hidx Hdist.
  induction fuel as [| fuel IH]; intros m st Hinv.
  - destruct (decide (requestsQueue (batch st) = [])) as [Hq | Hq].
    + exists (Ok m), st, m. rewrite executeAllLoop_done by exact Hq. auto.
    + exists Timeout, st, m. rewrite executeAllLoop_out by exact Hq.
      split; [reflexivity |]. split; [exact Hinv |].
      right. split; [reflexivity |]. intros n _.
      unfold budget. destruct (requestsQueue (batch st)); simpl; [congruence | lia].
  - destruct (decide (requestsQueue (batch st) = [])) as [Hq | Hq].
    + exists (Ok m), st, m. rewrite executeAllLoop_done by exact Hq. auto.
    + destruct (executeNext_wb tp reqs m st Hwb Hidx Hdist Hinv Hq)
        as (rs & Htp & Hnamed & Hnodup & Hsent & Hrun).
      rewrite executeAllLoop_step by exact Hq.
      rewrite (bind_ok _ _ _ _ _ Hrun).
      match goal with
      | |- context [executeAllLoop tp fuel ?m1 ?st1] =>
          destruct (IH m1 st1) as (res & st' & m' & Hloop & Hinv' & Hres)
      end.
      { now apply inv_round. }
      exists res, st', m'. split; [exact Hloop |]. split; [exact Hinv' |].
      destruct Hres as [Hres | [Hres Hlt]]; [now left | right].
      split; [exact Hres |]. intros n Hquiet.
      pose proof (round_budget tp reqs n st rs Hquiet Hq Htp Hnodup Hsent
                    (foldl bumpRetry 0 rs) (scopes (batch st))
                    (stepsOf reqs (take 20 (requestsQueue (batch st))))
                    (Resolved rs)) as Hb.
      specialize (Hlt n Hquiet). lia.
Qed.

Lemma fresh_inv calls :
  Inv (T := T) (allRequests (getAll calls newBatch)) ∅ (fresh calls).
Proof.
  destruct (getAll_wf calls) as [_ Hvalid].
  constructor; simpl.
  - reflexivity.
  - destruct (getAll_fields calls) as (_ & -> & _). apply NoDup_seq.
  - exact Hvalid.
  - intros i r _ Hr. now apply elem_of_nil in Hr.
  - intros i request r c _ Hr. now apply elem_of_nil in Hr.
  - intros. apply lookup_empty.
  - intros r Hr. now apply elem_of_nil in Hr.
  - intros i r r' Hr. now apply elem_of_nil in Hr.
  - intros k Hk. rewrite lookup_empty in Hk. now destruct Hk.
Qed.

Lemma fresh_budget n calls :
  (budget (T := T) n (fresh calls) = n + length calls)%nat.
Proof.
  unfold budget, fresh; simpl.
  destruct (getAll_fields calls) as (_ & -> & _).
  rewrite length_seq. lia.
Qed.

(** The run of [executeAll] on a fresh batch against a well-behaved
    endpoint. *)
Lemma executeAll_fresh tp calls fuel :
  NoDup (map c_id calls) -> wellBehaved tp ->
  exists res st' m',
    executeAll tp fuel (fresh calls) = (res, st') /\
    Inv (allRequests (getAll calls newBatch)) m' st' /\
    ((res = Ok m' /\ requestsQueue (batch st') = []) \/
     (res = Timeout /\
      forall n, quietAfter n tp -> (fuel < n + length calls)%nat)).
Proof.
  intros Hnd Hwb. unfold executeAll.
  destruct (executeAllLoop_run tp (allRequests (getAll calls newBatch)) Hwb
              (getAll_indexed calls)) with (fuel := fuel) (m := ∅ : gmap string (BatchResponse T))
              (st := fresh (T := T) calls)
    as (res & st' & m' & Hrun & Hinv & Hres).
  - unfold distinctIds. now rewrite getAll_ids.
  - apply fresh_inv.
  - exists res, st', m'. split; [exact Hrun |]. split; [exact Hinv |].
    destruct Hres as [Hres | [Hres Hlt]]; [now left | right].
    split; [exact Hres |]. intros n Hq. rewrite <- (fresh_budget n calls). auto.
Qed.

Lemma inv_idle reqs m st :
  Inv reqs m st -> requestsQueue (batch st) = [] ->
  Inv reqs m (withState [] 0 (afterDelay st) st).
Proof.
  intros [Hreqs Hnd Hvalid Hpend Hok Habs Hdec Hfin Hdom] Hq.
  constructor; simpl; rewrite ?answers_afterDelay; auto;
    first [ now constructor
          | intros i r Hi; now apply elem_of_nil in Hi ].
Qed.

Lemma reachable_inv tp calls st :
  NoDup (map c_id calls) -> wellBehaved tp ->
  Reachable tp calls st ->
  exists m, Inv (allRequests (getAll calls newBatch)) m st.
Proof.
  intros Hnd Hwb. induction 1 as [| st round st' _ [m Hinv] Hrun].
  - exists ∅. apply fresh_inv.
  - destruct (decide (requestsQueue (batch st) = [])) as [Hq | Hq].
    + rewrite executeNext_empty in Hrun by exact Hq.
      injection Hrun as _ <-. exists m. now apply inv_idle.
    + destruct (executeNext_wb tp _ m st Hwb (getAll_indexed calls))
        as (rs & Htp & Hnamed & Hnodup & Hsent & Hrun'); auto.
      { unfold distinctIds. now rewrite getAll_ids. }
      rewrite Hrun' in Hrun. injection Hrun as _ <-.
      exists (foldl (addEntry (allRequests (getAll calls newBatch))) ∅ rs ∪ m).
      apply inv_round; auto.
      * apply getAll_indexed.
      * unfold distinctIds. now rewrite getAll_ids.
Qed.

(** *** What any round does, whatever the endpoint returns *)




(** *** An endpoint that answers 200 to everything *)





(** *** A rejected composite request *)

Lemma executeNext_rejected tp st e :
  wfBatch (batch st) -> requestsQueue (batch st) <> [] ->
  let steps := stepsOf (allRequests (batch st))
                       (take 20 (requestsQueue (batch st))) in
  tp (afterDelay st) (scopes (batch st)) steps = Rejected e ->
  executeNext tp st =
  (Throw e,
   withState (drop 20 (requestsQueue (batch st))) 0
     (afterDelay st ++ [EvPost (scopes (batch st)) steps (Rejected e)]) st).
Proof.
  intros [_ Hvalid] Hq steps Htp.
  rewrite executeNext_post by assumption. cbv zeta. fold steps.
  now rewrite Htp.
Qed.

Lemma executeAll_rejected tp b e fuel :
  built b -> requestsQueue b <> [] ->
  let steps := stepsOf (allRequests b) (take 20 (requestsQueue b)) in
  tp [] (scopes b) steps = Rejected e ->
  executeAll tp (S fuel) {| batch := b; trace := [] |} =
  (Throw e,
   {| batch := withBatch (drop 20 (requestsQueue b)) 0 b;
      trace := [EvPost (scopes b) steps (Rejected e)] |}).
Proof.
  intros (_ & Hwf & Hra) Hq steps Htp. unfold executeAll.
  rewrite executeAllLoop_step by exact Hq.
  erewrite bind_throw; [reflexivity |].
  rewrite executeNext_rejected with (e := e); auto.
  - unfold afterDelay; simpl. rewrite Hra. reflexivity.
  - unfold afterDelay; simpl. rewrite Hra. exact Htp.
Qed.

End Facts.
End BatchFacts.

(** ** Statements about the engine *)

Module BatchClaims.
Import Js JsFacts BatchEngine BatchSpec BatchFacts BatchExamples.

(** *** The concrete endpoints are well behaved *)

Lemma mapped_wellBehaved (f : list (Event string) -> RequestStep -> SubResponse string) :
  (forall h s, r_id (f h s) = step_id s) ->
  (forall h s, is_Some (decode (f h s))) ->
  wellBehaved (fun h _ steps => Resolved (map (f h) steps)).
Proof.
  intros Hid Hdec h sc steps. exists (map (f h) steps).
  split; [reflexivity |]. split.
  - rewrite map_map. erewrite map_ext; [reflexivity |]. intros s. apply Hid.
  - apply Forall_forall. intros r Hr _.
    apply list_elem_of_fmap in Hr as (s & -> & _). apply Hdec.
Qed.

Lemma okAll_wellBehaved : wellBehaved okAll.
Proof. apply (mapped_wellBehaved (fun _ => ok200)); intros; simpl; eauto. Qed.

Lemma okAll_quiet : quietAfter 0 okAll.
Proof.
  intros h sc steps rs _ [= <-]. apply Forall_forall. intros r Hr.
  apply list_elem_of_fmap in Hr as (s & -> & _). discriminate.
Qed.




Lemma missingSecond_wellBehaved : wellBehaved missingSecond.
Proof.
  apply (mapped_wellBehaved
           (fun _ s => if String.eqb (step_id s) "1"
                       then respond 404 ∅ (BodyOther "{}") s
                       else ok200 s));
    intros h s; destruct (String.eqb _ _); simpl; eauto.
Qed.

Lemma missingSecond_quiet : quietAfter 0 missingSecond.
Proof.
  intros h sc steps rs _ [= <-]. apply Forall_forall. intros r Hr.
  apply list_elem_of_fmap in Hr as (s & -> & _).
  destruct (String.eqb _ _); discriminate.
Qed.

Section Claims.
Context {T : Type}.
Implicit Types (r : SubResponse T) (rs : list (SubResponse T)).
Implicit Types (m : gmap string (BatchResponse T)).
Implicit Types (st : EngineState T) (tp : Transport T).


(** C4: a sub-response whose status is neither 200 nor 429 is dropped.
    Processing it raises nothing and changes neither the result map nor
    the batch; in every round of a batch built by [get] calls with
    distinct ids and run against a well-behaved endpoint, the request is
    not in the queue afterwards and its id is not in the round's map; and
    whatever the number of rounds [executeAll] is given, the request is
    not in the queue and, when [executeAll] returns, its id is absent from
    the merged map. *)
Theorem C4_other_statuses_dropped (calls : list GetCall) tp :
  NoDup (map c_id calls) -> wellBehaved tp ->
  (forall m r st request,
     at_ (allRequests (batch st)) (idx r) = Some request ->
     r_status r <> 200 -> r_status r <> 429 ->
     processResponse m r st = (Ok m, st)) /\
  (forall st res st',
     Reachable tp calls st -> executeNext tp st = (res, st') ->
     exists round,
       res = Ok round /\
       forall i c r,
         calls !! i = Some c -> r ∈ answers (trace st') ->
         r_id r = toString i -> r_status r <> 200 -> r_status r <> 429 ->
         (i ∉ requestsQueue (batch st')) /\ round !! c_id c = None) /\
  (forall fuel res st',
     executeAll tp fuel (fresh calls) = (res, st') ->
     (forall e, res <> Throw e) /\
     forall i c r,
       calls !! i = Some c -> r ∈ answers (trace st') ->
       r_id r = toString i -> r_status r <> 200 -> r_status r <> 429 ->
       (i ∉ requestsQueue (batch st')) /\
       forall m, res = Ok m -> m !! c_id c = None).
Proof.
  intros Hnd Hwb.
  assert (Hdropped : forall m st i c r,
            Inv (allRequests (getAll calls newBatch)) m st ->
            calls !! i = Some c -> r ∈ answers (trace st) ->
            r_id r = toString i -> r_status r <> 200 -> r_status r <> 429 ->
            (i ∉ requestsQueue (batch st)) /\ m !! c_id c = None).
  { intros m st i c r Hinv Hc Hr Hid H200 H429. split.
    - intros Hi. apply H429. exact (inv_pending _ _ _ Hinv i r Hi Hr Hid).
    - apply (inv_absent _ _ _ Hinv i (requestOf i c));
        [apply getAll_lookup; eauto |].
      intros r' Hr' Hid' H200'.
      assert (r = r') as <-
        by (apply (inv_final _ _ _ Hinv i r r'); auto; lia).
      contradiction. }
  split; [| split].
  - intros m r st request Hreq H200 H429.
    rewrite processResponse_run by (split; [eauto | intros; contradiction]).
    unfold addEntry, requeue, bumpRetry.
    apply Z.eqb_neq in H200, H429. rewrite H200, H429.
    destruct st as [[reqs q sc ra ni] tr]. reflexivity.
  - intros st res st' Hreach Hrun.
    destruct (reachable_inv tp calls st Hnd Hwb Hreach) as [m Hinv].
    destruct (decide (requestsQueue (batch st) = [])) as [Hq | Hq].
    + rewrite executeNext_empty in Hrun by exact Hq.
      injection Hrun as <- <-. exists ∅. split; [reflexivity |].
      intros i c r Hc Hr Hid H200 H429. split; [| apply lookup_empty].
      simpl. apply not_elem_of_nil.
    + destruct (executeNext_wb tp _ m st Hwb (getAll_indexed calls))
        as (rs & Htp & Hnamed & Hnodup & Hsent & Hrun'); auto.
      { unfold distinctIds. now rewrite getAll_ids. }
      rewrite Hrun' in Hrun. injection Hrun as <- <-.
      eexists. split; [reflexivity |].
      intros i c r Hc Hr Hid H200 H429.
      assert (Hinv' := inv_round _ m st rs (foldl bumpRetry 0 rs)
                         (scopes (batch st))
                         (stepsOf (allRequests (getAll calls newBatch))
                                  (take 20 (requestsQueue (batch st))))
                         (getAll_indexed calls)
                         ltac:(unfold distinctIds; now rewrite getAll_ids)
                         Hinv Hnamed Hnodup Hsent).
      split; [exact (proj1 (Hdropped _ _ i c r Hinv' Hc Hr Hid H200 H429)) |].
      rewrite (foldl_addEntry_other _ rs ∅ i (requestOf i c)); auto.
      * unfold distinctIds. now rewrite getAll_ids.
      * apply getAll_lookup; eauto.
      * intros r' Hr' Hix' H200'.
        assert (r = r') as <-; [| contradiction].
        apply (inv_final _ _ _ Hinv' i r r'); auto; [| | lia].
        -- cbn [trace withState]. rewrite answers_app. apply elem_of_app.
           right. simpl. rewrite app_nil_r. exact Hr'.
        -- rewrite Forall_forall in Hnamed.
           destruct (Hnamed r' Hr') as (Hid' & _). now rewrite Hid', Hix'.
  - intros fuel res st' Hrun.
    destruct (executeAll_fresh tp calls fuel Hnd Hwb)
      as (res' & st'' & m & Hrun' & Hinv & Hres).
    rewrite Hrun in Hrun'. injection Hrun' as <- <-.
    split.
    + intros e ->. destruct Hres as [[[=] _] | [[=] _]].
    + intros i c r Hc Hr Hid H200 H429.
      destruct (Hdropped m st' i c r Hinv Hc Hr Hid H200 H429) as [Hq Hm].
      split; [exact Hq |].
      intros m' ->. destruct Hres as [[[= <-] _] | [[=] _]]. exact Hm.
Qed.




End Claims.

(** The second of three requests is answered 404. *)
Lemma C4_witness :
  (forall m (r : SubResponse string) st request,
     at_ (allRequests (batch st)) (idx r) = Some request ->
     r_status r <> 200 -> r_status r <> 429 ->
     processResponse m r st = (Ok m, st)) /\
  (forall st res st',
     Reachable missingSecond threeCalls st ->
     executeNext missingSecond st = (res, st') ->
     exists round,
       res = Ok round /\
       forall i c r,
         threeCalls !! i = Some c -> r ∈ answers (trace st') ->
         r_id r = toString i -> r_status r <> 200 -> r_status r <> 429 ->
         (i ∉ requestsQueue (batch st')) /\ round !! c_id c = None) /\
  (forall fuel res st',
     executeAll missingSecond fuel (fresh threeCalls) = (res, st') ->
     (forall e, res <> Throw e) /\
     forall i c r,
       threeCalls !! i = Some c -> r ∈ answers (trace st') ->
       r_id r = toString i -> r_status r <> 200 -> r_status r <> 429 ->
       (i ∉ requestsQueue (batch st')) /\
       forall m, res = Ok m -> m !! c_id c = None).
Proof.
  apply (C4_other_statuses_dropped threeCalls missingSecond).
  - apply (bool_decide_unpack _). vm_compute. exact I.
  - exact missingSecond_wellBehaved.
Defined.










End BatchClaims.

(** ** The page iterator *)

Module PageIteratorFacts.
Import Js JsFacts PageIterator.

Section Facts.
Context {T : Type}.
Implicit Types (it : GraphPageIterator T) (srv : Server T).
Implicit Types (reqs : Requests) (response : option (CollectionResponse T)).

Lemma get_run srv request reqs :
  get srv request reqs =
  match srv reqs request with
  | GetRejected e => (Throw e, reqs ++ [request])
  | GetResolved response => (Ok response, reqs ++ [request])
  end%list.
Proof.
  unfold get, bind, getState, modify; simpl.
  now destruct (srv reqs request).
Qed.

Lemma next_exhausted srv it reqs :
  hasNext it = false -> next srv it reqs = (Ok (it, None), reqs).
Proof. unfold next, hasNext. now intros ->. Qed.

Lemma next_page srv it reqs v link :
  hasNext it = true ->
  srv reqs (nextRequest it) =
  GetResolved (Some {| value := Some v; odata_nextLink := link |}) ->
  v <> [] ->
  next srv it reqs =
  (Ok ({| it_graph := it_graph it; it_nextLink := link;
          it_version := it_version it; it_value := it_value it ++ v |},
       Some v),
   reqs ++ [nextRequest it])%list.
Proof.
  unfold next, hasNext. intros -> Hsrv Hv.
  unfold bind. rewrite get_run, Hsrv.
  destruct v; [congruence | reflexivity].
Qed.

Lemma next_no_items srv it reqs response :
  hasNext it = true ->
  srv reqs (nextRequest it) = GetResolved response ->
  items response = [] ->
  next srv it reqs = (Ok (it, None), reqs ++ [nextRequest it])%list.
Proof.
  unfold next, hasNext. intros -> Hsrv Hv.
  unfold bind. rewrite get_run, Hsrv.
  destruct response as [[[[| x v] |] link] |]; simpl in *;
    first [reflexivity | discriminate].
Qed.



Lemma create_run srv graph request version reqs it reqs' :
  create srv graph request version reqs = (Ok (Some it), reqs') ->
  exists v link,
    srv reqs request =
    GetResolved (Some {| value := Some v; odata_nextLink := link |}) /\
    reqs' = (reqs ++ [request])%list /\
    it = {| it_graph := graph; it_nextLink := link;
            it_version := if truthyStr version then default "" version
                          else g_version graph;
            it_value := v |}.
Proof.
  unfold create, bind. rewrite get_run.
  destruct (srv reqs request) as [e | [[[v |] link] |]]; simpl; try discriminate.
  intros [= <- <-]. eauto.
Qed.

Lemma nextTimes_exhausted srv n : forall it reqs,
  hasNext it = false -> nextTimes srv n it reqs = (Ok it, reqs).
Proof.
  induction n as [| n IH]; intros it reqs Hnext; [reflexivity |].
  cbn [nextTimes]. unfold bind. rewrite next_exhausted by exact Hnext.
  simpl. now apply IH.
Qed.

(** C7 (amended): [hasNext] tells whether a link is stored.  After
    [create()] it is false exactly when the first page carried no
    continuation link; after a [next()] that fetched at least one item it
    is false exactly when that page carried no continuation link; once it
    is false, further [next()] calls issue no request and leave the
    iterator as it is, so it stays false; and a fetched page without items
    leaves the iterator, and so [hasNext], unchanged. *)
Theorem C7_hasNext_follows_link :
  (forall srv graph request version reqs it reqs',
     create srv graph request version reqs = (Ok (Some it), reqs') ->
     exists response,
       srv reqs request = GetResolved response /\
       hasNext it = truthyStr (linkOf response)) /\
  (forall srv it reqs response,
     hasNext it = true ->
     srv reqs (nextRequest it) = GetResolved response ->
     items response <> [] ->
     exists it',
       next srv it reqs = (Ok (it', Some (items response)), reqs ++ [nextRequest it])%list /\
       hasNext it' = truthyStr (linkOf response)) /\
  (forall srv it n reqs,
     hasNext it = false ->
     nextTimes srv n it reqs = (Ok it, reqs)) /\
  (forall srv it reqs response,
     hasNext it = true ->
     srv reqs (nextRequest it) = GetResolved response ->
     items response = [] ->
     next srv it reqs = (Ok (it, None), reqs ++ [nextRequest it])%list).
Proof.
  split; [| split; [| split]].
  - intros srv graph request version reqs it reqs' Hrun.
    apply create_run in Hrun as (v & link & Hsrv & _ & ->).
    eexists. split; [exact Hsrv | reflexivity].
  - intros srv it reqs response Hnext Hsrv Hitems.
    destruct response as [[[v |] link] |]; simpl in Hitems; try congruence.
    rewrite (next_page _ _ _ _ _ Hnext Hsrv Hitems).
    eexists. split; [reflexivity | reflexivity].
  - intros srv it n reqs Hnext. now apply nextTimes_exhausted.
  - intros srv it reqs response. apply next_no_items.
Qed.


End Facts.

(** A page with no items and no continuation link is fetched, and
    [hasNext] is still true. *)
Lemma C7_counterexample :
  let it := createFromValue graphV1 ["m1"; "m2"] (Some secondLink) in
  exists it',
    thenEmpty [] (nextRequest it) = GetResolved (Some emptyPage) /\
    linkOf (Some emptyPage) = None /\
    next thenEmpty it [] = (Ok (it', None), [nextRequest it]) /\
    hasNext it' = true.
Proof. eexists. repeat split; reflexivity. Qed.

(** Two pages of messages: the second one has an item and no link. *)
Lemma C7_witness :
  (exists it reqs',
     create twoPages graphV1 messagesRequest None [] = (Ok (Some it), reqs') /\
     hasNext it = true) /\
  (exists it',
     next twoPages (createFromValue graphV1 ["m1"; "m2"] (Some secondLink)) []
     = (Ok (it', Some ["m3"]),
        [nextRequest (createFromValue graphV1 ["m1"; "m2"] (Some secondLink))]) /\
     hasNext it' = false) /\
  nextTimes twoPages 3 (createFromValue graphV1 ["m1"; "m2"; "m3"] None) []
  = (Ok (createFromValue graphV1 ["m1"; "m2"; "m3"] None), []).
Proof.
  destruct (C7_hasNext_follows_link (T := string))
    as (Hcreate & Hnext & Hdone & _).
  split; [| split].
  - eexists _, _. split; [reflexivity |].
    destruct (Hcreate twoPages graphV1 messagesRequest None [] _ _ eq_refl)
      as (response & Hsrv & ->).
    injection Hsrv as <-. reflexivity.
  - destruct (Hnext twoPages
                (createFromValue graphV1 ["m1"; "m2"] (Some secondLink)) []
                (Some lastPage) eq_refl eq_refl)
      as (it' & Hrun & Hhas); [discriminate |].
    exists it'. split; [exact Hrun | exact Hhas].
  - apply (Hdone twoPages _ 3%nat []). reflexivity.
Defined.


End PageIteratorFacts.

(** ** The entity accessors *)

Module AccessFacts.
Import Js JsFacts BatchEngine BatchSpec BatchFacts Access.

Lemma apiGet_run env path w :
  get env path w =
  match apiGet env (w_log w) path with
  | ApiRejected e => (Throw e, addLog (LogGet path) w)
  | ApiResolved j => (Ok j, addLog (LogGet path) w)
  end.
Proof.
  unfold get, bind, getState, logged, modify; simpl.
  now destruct (apiGet env (w_log w) path).
Qed.

Lemma getRaw_run env path w :
  getRaw env path w =
  match apiRaw env (w_log w) path with
  | ApiRejected e => (Throw e, addLog (LogRaw path) w)
  | ApiResolved r => (Ok r, addLog (LogRaw path) w)
  end.
Proof.
  unfold getRaw, bind, getState, logged, modify; simpl.
  now destruct (apiRaw env (w_log w) path).
Qed.

Lemma dateNow_run env w : dateNow env w = (Ok (clock env (w_ticks w)), tick w).
Proof. reflexivity. Qed.

(** C9: at every place where an accessor tests a cached item, an item
    stamped [T] under the effective period [P] is fresh at [T + P - 1] and
    stale at [T + P + 1]; the comparison is strict everywhere, so at
    exactly [T + P] every place finds the item stale. *)
Theorem C9_ttl_boundary (site : CallSite) (config : CacheConfig) (T : Z) :
  readsStore site config = true ->
  let P := effectivePeriod site config in
  treatsAsFresh site config (T + P - 1) T = true /\
  treatsAsFresh site config (T + P + 1) T = false /\
  treatsAsFresh site config (T + P) T = false.
Proof.
  intros Hreads P. subst P.
  destruct site; cbn [treatsAsFresh effectivePeriod readsStore] in *;
    unfold getContactPhoto_fresh, getUserPhoto_fresh, myPhoto_fresh,
      getGroupImage_fresh, getTeamsPhotosForPhotoIds_fresh,
      getUserPresence_fresh, getUsersPresenceByPeople_fresh,
      getFilesByQueries_fresh, getFileFromCache_fresh,
      getFileListFromCache_fresh, getPersonCardGraphData_fresh,
      findGroups_fresh, findGroupsFromGroup_fresh, getGroup_fresh,
      getGroupsForGroupIds_fresh;
    rewrite ?Hreads; cbn [andb];
    repeat split;
    first [ apply Z.gtb_lt; lia
          | rewrite Z.gtb_ltb; apply Z.ltb_ge; lia ].
Qed.

(** An hour-long default period, read by [findGroups]. *)
Lemma C9_witness :
  treatsAsFresh FindGroups hourConfig (1000 + 3600000 - 1) 1000 = true /\
  treatsAsFresh FindGroups hourConfig (1000 + 3600000 + 1) 1000 = false /\
  treatsAsFresh FindGroups hourConfig (1000 + 3600000) 1000 = false.
Proof. exact (C9_ttl_boundary FindGroups hourConfig 1000 eq_refl). Defined.

(** C10: with the photo cache disabled, globally or for the photos
    category, a truthy answer to the [me/photo] metadata request makes
    [myPhoto] return null: the eTag comparison reads [photoDetails.eTag]
    on an undefined [photoDetails], the TypeError is caught, and the photo
    content is never requested (the metadata request is the only thing
    [myPhoto] does). *)
Theorem C10_myPhoto_without_cache (env : Env) (w : World) (response : Json) :
  config_isEnabled (config env) = false \/
  isEnabled (photos (config env)) = false ->
  apiGet env (w_log w) "me/photo" = ApiResolved response ->
  truthy response = true ->
  exists w',
    myPhoto env w = (Ok JNull, w') /\
    photoChanged response None w' = (Throw TypeError, w') /\
    w_log w' = (w_log w ++ [LogGet "me/photo"])%list /\
    w_ticks w' = w_ticks w /\ w_photos w' = w_photos w.
Proof.
  intros Hoff Hget Htruthy.
  assert (Henabled : getIsPhotosCacheEnabled (config env) = false).
  { unfold getIsPhotosCacheEnabled. destruct Hoff as [-> | ->];
      [apply andb_false_r | reflexivity]. }
  assert (Hthrow : photoChanged response None (addLog (LogGet "me/photo") w)
                   = (Throw TypeError, addLog (LogGet "me/photo") w)).
  { unfold photoChanged. now rewrite Htruthy. }
  exists (addLog (LogGet "me/photo") w).
  split; [| now repeat split].
  unfold myPhoto. rewrite Henabled, bind_ret.
  erewrite bind_ok; cycle 1.
  { erewrite tryCatch_throw; cycle 1.
    { erewrite bind_ok; cycle 1.
      { rewrite apiGet_run, Hget. reflexivity. }
      erewrite bind_throw; [reflexivity | exact Hthrow]. }
    reflexivity. }
  reflexivity.
Qed.

Lemma C10_witness :
  exists w',
    myPhoto (photoEnv cacheOff) emptyWorld = (Ok JNull, w') /\
    w_log w' = [LogGet "me/photo"].
Proof.
  destruct (C10_myPhoto_without_cache (photoEnv cacheOff) emptyWorld
              (JObj [("@odata.mediaEtag", JStr "W/1")]))
    as (w' & Hrun & _ & Hlog & _).
  - left. reflexivity.
  - reflexivity.
  - reflexivity.
  - exists w'. split; [exact Hrun | exact Hlog].
Defined.

(** *** Batches that fail as a whole *)

Lemma runBatch_rejected env fuel b e w :
  rejectsAll env e -> built b -> requestsQueue b <> [] ->
  runBatch env (S fuel) b w = (Throw e, appendLog [rejectedPost b e] w).
Proof.
  intros Hrej Hbuilt Hq. unfold runBatch.
  rewrite (executeAll_rejected (batchPost env) b e fuel Hbuilt Hq (Hrej _ _ _)).
  reflexivity.
Qed.

(** *** [getGroupsForGroupIds] *)








Lemma inList_elem_of (x : string) (l : list string) :
  inList x l = true <-> x ∈ l.
Proof.
  unfold inList. rewrite existsb_exists. split.
  - intros (y & Hy & Heq). apply String.eqb_eq in Heq as ->.
    now apply list_elem_of_In.
  - intros Hx. exists x. split; [now apply list_elem_of_In | apply String.eqb_refl].
Qed.

Lemma filter_agree {A} (P Q : A -> bool) (l : list A) :
  (forall x, x ∈ l -> P x = Q x) ->
  filter (fun x => P x) l = filter (fun x => Q x) l.
Proof.
  induction l as [| a l IH]; intros H; [reflexivity |].
  rewrite !filter_cons, IH by (intros x Hx; apply H; now right).
  rewrite (H a) by now left. reflexivity.
Qed.

Lemma retried_asked (groupIds : list string) :
  filter (fun id => inList id (askedIds groupIds)) groupIds = askedIds groupIds.
Proof.
  unfold askedIds at 2.
  apply (filter_agree (fun id => inList id (askedIds groupIds))).
  intros id Hid. apply Bool.eq_iff_eq_true.
  rewrite inList_elem_of. unfold askedIds. rewrite list_elem_of_filter.
  rewrite Is_true_true. tauto.
Qed.

(** *** [getPersonCardGraphData] *)








End AccessFacts.
(** ** Further properties of the engine *)

Module BatchExtras.
Import Js JsFacts BatchEngine BatchSpec BatchFacts BatchExamples MoreExamples.

#[local] Arguments parseInt : simpl never.
#[local] Arguments at_ : simpl never.
#[local] Arguments toString : simpl never.



(** *** Chunks of a queue *)





Section Extras.
Context {T : Type}.
Implicit Types (r : SubResponse T) (rs : list (SubResponse T)).
Implicit Types (m : gmap string (BatchResponse T)).
Implicit Types (st : EngineState T) (tp : Transport T).



(** A rejected composite request is not retried: its requests have left
    the queue for good.  After the failure the queue holds what lay
    beyond the first 20 entries, so for a batch of at most 20 requests a
    second [executeAll] sends nothing and returns an empty map. *)
Theorem rejected_requests_are_dropped tp b e fuel :
  built b -> requestsQueue b <> [] ->
  tp [] (scopes b) (stepsOf (allRequests b) (take 20 (requestsQueue b)))
  = Rejected e ->
  let st1 := (executeAll tp (S fuel) {| batch := b; trace := [] |}).2 in
  requestsQueue (batch st1) = drop 20 (requestsQueue b) /\
  allRequests (batch st1) = allRequests b /\
  ((length (requestsQueue b) <= 20)%nat ->
   forall tp' fuel', executeAll tp' fuel' st1 = (Ok ∅, st1)).
Proof.
  intros Hb Hq Htp st1. subst st1.
  rewrite (executeAll_rejected tp b e fuel Hb Hq Htp). simpl.
  split; [reflexivity |]. split; [reflexivity |].
  intros Hlen tp' fuel'. unfold executeAll.
  apply executeAllLoop_done. simpl. apply drop_ge. lia.
Qed.





End Extras.

(** *** Concrete runs *)


(** Three requests and an endpoint that cannot be reached. *)
Lemma rejected_requests_are_dropped_witness :
  let st1 := (executeAll unreachable 1
                {| batch := getAll threeCalls newBatch; trace := [] |}).2 in
  requestsQueue (batch st1) = [] /\
  allRequests (batch st1) = allRequests (getAll threeCalls newBatch) /\
  ((length (requestsQueue (getAll threeCalls newBatch)) <= 20)%nat ->
   forall tp' fuel', executeAll tp' fuel' st1 = (Ok ∅, st1)).
Proof.
  apply (rejected_requests_are_dropped unreachable (getAll threeCalls newBatch)
           (TransportError "Failed to fetch") 0).
  - split; [reflexivity |]. split; [apply getAll_wf | reflexivity].
  - discriminate.
  - reflexivity.
Defined.



End BatchExtras.
(** ** Further properties of the page iterator *)

Module PageIteratorExtras.
Import Js JsFacts PageIterator PageIteratorFacts.

(** *** [split] on a string with one occurrence of the separator *)

Lemma append_nil_r (s : string) : s ++ "" = s.
Proof.
  induction s as [| a s IH]; [reflexivity |].
  change (String a (s ++ "") = String a s). now f_equal.
Qed.

Lemma append_assoc (s t u : string) : (s ++ t) ++ u = s ++ (t ++ u).
Proof.
  induction s as [| a s IH]; [reflexivity |].
  change (String a ((s ++ t) ++ u) = String a (s ++ (t ++ u))). now f_equal.
Qed.

Lemma prefix_append (s t : string) : String.prefix s (s ++ t) = true.
Proof.
  induction s as [| a s IH]; [now destruct t |].
  change (String.prefix (String a s) (String a (s ++ t)) = true).
  simpl. destruct (ascii_dec a a); [exact IH | congruence].
Qed.

Lemma splitGo_none (sep : string) : forall s cur,
  sep <> "" -> includes s sep = false -> splitGo sep s 0 cur = [cur ++ s].
Proof.
  induction s as [| a s IH]; intros cur Hsep Hinc.
  - simpl. now rewrite append_nil_r.
  - cbn [includes] in Hinc. apply orb_false_iff in Hinc as [Hpre Hrest].
    cbn [splitGo]. rewrite Hpre, (IH _ Hsep Hrest), append_assoc. reflexivity.
Qed.

Lemma splitGo_skip (sep : string) : forall t rest cur,
  splitGo sep (t ++ rest) (String.length t) cur = splitGo sep rest 0 cur.
Proof.
  induction t as [| a t IH]; intros rest cur; [reflexivity |].
  change (splitGo sep (String a (t ++ rest)) (S (String.length t)) cur
          = splitGo sep rest 0 cur).
  cbn [splitGo]. apply IH.
Qed.

Lemma splitGo_scan (c : ascii) (ver : string) : forall pre s cur,
  forallb (fun x => negb (Ascii.eqb x c)) (list_ascii_of_string pre) = true ->
  splitGo (String c ver) (pre ++ s) 0 cur =
  splitGo (String c ver) s 0 (cur ++ pre).
Proof.
  induction pre as [| a pre IH]; intros s cur Hpre.
  - simpl. now rewrite append_nil_r.
  - cbn [list_ascii_of_string forallb] in Hpre.
    apply andb_true_iff in Hpre as [Ha Hpre].
    apply negb_true_iff, Ascii.eqb_neq in Ha.
    change (String a pre ++ s) with (String a (pre ++ s)).
    cbn [splitGo String.prefix].
    destruct (ascii_dec c a) as [-> | _]; [congruence |].
    rewrite (IH _ _ Hpre), append_assoc. reflexivity.
Qed.

Lemma split_once (c : ascii) (ver pre rest : string) :
  forallb (fun x => negb (Ascii.eqb x c)) (list_ascii_of_string pre) = true ->
  includes rest (String c ver) = false ->
  split (pre ++ String c ver ++ rest) (String c ver) = [pre; rest].
Proof.
  intros Hpre Hrest. unfold split.
  rewrite (splitGo_scan c ver pre _ "" Hpre).
  change ("" ++ pre) with pre.
  change (String c ver ++ rest) with (String c (ver ++ rest)).
  cbn [splitGo].
  change (String c (ver ++ rest)) with (String c ver ++ rest).
  rewrite prefix_append. cbn [String.length Nat.pred].
  rewrite splitGo_skip, splitGo_none by (congruence || exact Hrest).
  reflexivity.
Qed.

Lemma split_absent (sep s : string) :
  sep <> "" -> includes s sep = false -> split s sep = [s].
Proof.
  intros Hsep Hinc. unfold split. destruct sep; [congruence |].
  now rewrite splitGo_none.
Qed.

Section Extras.
Context {T : Type}.
Implicit Types (it : GraphPageIterator T) (srv : Server T).
Implicit Types (reqs : Requests) (response : option (CollectionResponse T)).

Lemma next_step srv it reqs it' promised reqs' :
  next srv it reqs = (Ok (it', promised), reqs') ->
  exists added sent,
    it_value it' = (it_value it ++ added)%list /\
    reqs' = (reqs ++ sent)%list /\ (length sent <= 1)%nat /\
    it_version it' = it_version it /\ it_graph it' = it_graph it /\
    (added = [] -> it' = it).
Proof.
  unfold next. destruct (truthyStr (it_nextLink it)).
  - unfold bind. rewrite get_run.
    destruct (srv reqs (nextRequest it)) as [e | response]; [discriminate |].
    destruct response as [[[[| x v] |] link] |]; intros [= <- <- <-];
      first [ exists (x :: v), [nextRequest it]; repeat split; auto; discriminate
            | exists [], [nextRequest it]; rewrite app_nil_r; repeat split; auto ].
  - intros [= <- <- <-]. exists [], []. rewrite !app_nil_r.
    repeat split; auto.
Qed.

(** [value] only grows: whatever the endpoint answers, after [n] calls
    of [next()] that all returned, the items fetched before are still
    there, in order, followed by the new ones; at most [n] requests were
    made, the version and the graph are the ones the iterator started
    with, and an iterator that gained no item is the one it was. *)
Theorem value_only_grows srv n : forall it reqs it' reqs',
  nextTimes srv n it reqs = (Ok it', reqs') ->
  exists added sent,
    it_value it' = (it_value it ++ added)%list /\
    reqs' = (reqs ++ sent)%list /\ (length sent <= n)%nat /\
    it_version it' = it_version it /\ it_graph it' = it_graph it /\
    (added = [] -> it' = it).
Proof.
  induction n as [| n IH]; intros it reqs it' reqs' Hrun.
  - injection Hrun as <- <-. exists [], []. rewrite !app_nil_r.
    repeat split; auto.
  - cbn [nextTimes] in Hrun. unfold bind in Hrun.
    destruct (next srv it reqs) as [[[it1 promised] | e |] reqs1] eqn:Hnext;
      try discriminate.
    destruct (next_step _ _ _ _ _ _ Hnext)
      as (added1 & sent1 & Hv1 & Hreqs1 & Hlen1 & Hver1 & Hg1 & Hsame1).
    destruct (IH _ _ _ _ Hrun)
      as (added & sent & Hv & Hreqs & Hlen & Hver & Hg & Hsame).
    simpl in *.
    exists (added1 ++ added)%list, (sent1 ++ sent)%list.
    split; [now rewrite Hv, Hv1, app_assoc |].
    split; [now rewrite Hreqs, Hreqs1, app_assoc |].
    split; [rewrite length_app; lia |].
    split; [congruence |]. split; [congruence |].
    intros Hnil. apply app_eq_nil in Hnil as [Hnil1 Hnil2].
    rewrite (Hsame Hnil2). exact (Hsame1 Hnil1).
Qed.

(** An iterator rebuilt with [createFromValue] from what the getters
    [value] and [nextLink] of an iterator return (the way a cached file
    list is replayed) has the same [value], [nextLink] and [hasNext], and
    its [next()] makes the same request with the same outcome, if the
    version of the iterator is the version of its graph. *)
Theorem rebuilt_from_getters it :
  it_version it = g_version (it_graph it) ->
  let it2 := createFromValue (it_graph it) (it_value it) (Some (nextLink it)) in
  it_value it2 = it_value it /\ nextLink it2 = nextLink it /\
  hasNext it2 = hasNext it /\
  forall srv reqs,
    match next srv it reqs, next srv it2 reqs with
    | (Ok (a, ra), q1), (Ok (b, rb), q2) =>
        it_value a = it_value b /\ nextLink a = nextLink b /\
        hasNext a = hasNext b /\ ra = rb /\ q1 = q2
    | (Throw e1, q1), (Throw e2, q2) => e1 = e2 /\ q1 = q2
    | (Timeout, _), (Timeout, _) => True
    | _, _ => False
    end.
Proof.
  intros Hver it2. destruct it as [graph link version v]. simpl in Hver.
  subst version it2. unfold createFromValue, nextLink, hasNext. simpl.
  destruct link as [[| a l] |]; simpl.
  1, 3: repeat split; intros srv reqs; unfold next; simpl; repeat split.
  repeat split. intros srv reqs. unfold next. simpl.
  change (nextRequest {| it_graph := graph; it_nextLink := Some (String a l);
                         it_version := g_version graph; it_value := v |})
    with (nextRequest (T := T)
                      {| it_graph := graph; it_nextLink := Some (String a l);
                         it_version := g_version graph; it_value := v |}).
  unfold bind. rewrite !get_run.
  destruct (srv reqs _) as [e | response]; [now split |].
  destruct response as [[[[| x xs] |] link'] |]; simpl; repeat split.
Qed.

(** The resource [next()] asks for is what follows the version in the
    stored link: for a link made of a prefix without the first character
    of the version, the version, and a rest in which the version does not
    occur again, it is that rest.  When the version does not occur in the
    link at all, the request is made without a path ([undefined]). *)
Theorem next_resource it (c : ascii) (ver : string) :
  it_version it = String c ver ->
  (forall pre rest,
     it_nextLink it = Some (pre ++ String c ver ++ rest)%string ->
     forallb (fun x => negb (Ascii.eqb x c)) (list_ascii_of_string pre) = true ->
     includes rest (String c ver) = false ->
     nextRequest it = {| gr_path := Some rest; gr_version := String c ver |}) /\
  (forall link,
     it_nextLink it = Some link ->
     includes link (String c ver) = false ->
     nextRequest it = {| gr_path := None; gr_version := String c ver |}).
Proof.
  intros Hver. unfold nextRequest. rewrite Hver. split.
  - intros pre rest -> Hpre Hrest. simpl default.
    now rewrite (split_once c ver pre rest Hpre Hrest).
  - intros link -> Hinc. simpl default.
    now rewrite split_absent by (congruence || exact Hinc).
Qed.

End Extras.

(** *** Concrete runs *)

(** Three calls of [next()] on two pages of messages. *)
Lemma value_only_grows_witness :
  exists added sent,
    ["m1"; "m2"; "m3"] = (["m1"; "m2"] ++ added)%list /\
    [nextRequest (createFromValue graphV1 ["m1"; "m2"] (Some secondLink))]
    = ([] ++ sent)%list /\ (length sent <= 3)%nat.
Proof.
  destruct (value_only_grows twoPages 3
              (createFromValue graphV1 ["m1"; "m2"] (Some secondLink)) []
              {| it_graph := graphV1; it_nextLink := None;
                 it_version := "v1.0"; it_value := ["m1"; "m2"; "m3"] |}
              [nextRequest (createFromValue graphV1 ["m1"; "m2"] (Some secondLink))]
              eq_refl)
    as (added & sent & Hv & Hreqs & Hlen & _).
  exists added, sent. auto.
Defined.

(** The iterator over the first page of messages. *)
Lemma rebuilt_from_getters_witness :
  let it := createFromValue graphV1 ["m1"; "m2"] (Some secondLink) in
  let it2 := createFromValue graphV1 (it_value it) (Some (nextLink it)) in
  hasNext it2 = hasNext it /\ nextLink it2 = secondLink.
Proof.
  destruct (rebuilt_from_getters
              (createFromValue graphV1 ["m1"; "m2"] (Some secondLink)) eq_refl)
    as (_ & Hlink & Hnext & _).
  split; [exact Hnext | exact Hlink].
Defined.

(** The link of the second page of messages, and the same link in an
    iterator for the [beta] version. *)
Lemma next_resource_witness :
  nextRequest (createFromValue graphV1 ["m1"; "m2"] (Some secondLink))
  = {| gr_path := Some "/me/messages?$skip=2"; gr_version := "v1.0" |} /\
  nextRequest (createFromValue {| g_version := "beta" |} ["m1"; "m2"]
                               (Some secondLink))
  = {| gr_path := None; gr_version := "beta" |}.
Proof.
  split.
  - destruct (next_resource
                (createFromValue graphV1 ["m1"; "m2"] (Some secondLink))
                "v" "1.0" eq_refl) as [Hrest _].
    apply (Hrest "https://graph.microsoft.com/" "/me/messages?$skip=2");
      reflexivity.
  - destruct (next_resource
                (createFromValue {| g_version := "beta" |} ["m1"; "m2"]
                                 (Some secondLink))
                "b" "eta" eq_refl) as [_ Habsent].
    apply (Habsent secondLink); reflexivity.
Defined.

End PageIteratorExtras.
(** ** Further properties of the group accessors *)

Module GroupsExtras.
Import Js JsFacts BatchEngine BatchSpec BatchFacts Access AccessFacts MoreAccess.

Ltac world :=
  cbn [w_log w_ticks w_photos w_groups w_cards addLog tick appendLog
       group_timeCached group parsedGroup fst snd].

Lemma isJson_stringify (j : Json) : isJson j = true -> stringify j = Some j.
Proof. now destruct j. Qed.

(** *** [getGroup] *)

(** A group that is not in the store is requested once and stored with
    the time of the write; a second call while the entry is younger than
    the invalidation period returns the same group without a request, and
    a call at or after the end of the period asks the graph again. *)
Theorem getGroup_round_trip env id w j :
  getIsGroupsCacheEnabled (config env) = true ->
  w_groups w !! id = None ->
  apiGet env (w_log w) ("/groups/" ++ id) = ApiResolved j ->
  isJson j = true ->
  let stamp := clock env (w_ticks w) in
  exists w1,
    getGroup env id None w = (Ok j, w1) /\
    w_log w1 = (w_log w ++ [LogGet ("/groups/" ++ id)])%list /\
    w_groups w1 =
    <[id := {| group_timeCached := Some stamp; group := Some j |}]> (w_groups w) /\
    (clock env (S (w_ticks w)) - stamp < getGroupsInvalidationTime (config env) ->
     getGroup env id None w1 = (Ok j, tick w1)) /\
    (getGroupsInvalidationTime (config env) <= clock env (S (w_ticks w)) - stamp ->
     w_log (getGroup env id None w1).2 =
     (w_log w1 ++ [LogGet ("/groups/" ++ id)])%list).
Proof.
  intros Hon Hmiss Hget Hjson stamp.
  pose proof (isJson_stringify j Hjson) as Hstr.
  eexists. split.
  { unfold getGroup. rewrite Hon.
    cbv [bind getGroupValue getState ret]. rewrite Hmiss.
    rewrite apiGet_run, Hget. cbv [putGroupValue bind dateNow getState modify ret].
    rewrite Hstr. reflexivity. }
  cbn [w_log w_groups w_ticks addLog tick].
  split; [reflexivity |]. split; [reflexivity |].
  split.
  - intros Hfresh. unfold getGroup. rewrite Hon.
    cbv [bind getGroupValue getState ret dateNow modify].
    world. rewrite lookup_insert_eq. world. unfold getGroup_fresh.
    replace (getGroupsInvalidationTime (config env) >?
             clock env (S (w_ticks w)) - clock env (w_ticks w)) with true
      by (symmetry; apply Z.gtb_lt; exact Hfresh).
    reflexivity.
  - intros Hstale. unfold getGroup. rewrite Hon.
    cbv [bind getGroupValue getState ret dateNow modify].
    world. rewrite lookup_insert_eq. world. unfold getGroup_fresh.
    replace (getGroupsInvalidationTime (config env) >?
             clock env (S (w_ticks w)) - clock env (w_ticks w)) with false
      by (symmetry; rewrite Z.gtb_ltb; apply Z.ltb_ge; subst stamp; lia).
    rewrite apiGet_run. world.
    match goal with
    | |- context [apiGet env ?l ?p] => destruct (apiGet env l p) as [e | j']
    end; [reflexivity |].
    cbv [putGroupValue bind dateNow getState modify ret]. reflexivity.
Qed.

(** A fresh entry is returned without a request when at most one of the
    requested properties is missing from it, the missing one included in
    what the caller asked for or not; with two or more missing the group
    is requested with [$select] and the requested properties joined by
    commas. *)
Theorem getGroup_requested_props env id w g t j props :
  getIsGroupsCacheEnabled (config env) = true ->
  w_groups w !! id = Some g ->
  group_timeCached g = Some t ->
  getGroup_fresh (config env) (clock env (w_ticks w)) t = true ->
  group g = Some j -> truthy j = true ->
  ((length (missingProps j props) <= 1)%nat ->
   getGroup env id (Some props) w = (Ok j, tick w)) /\
  ((2 <= length (missingProps j props))%nat ->
   w_log (getGroup env id (Some props) w).2 =
   (w_log w ++
    [LogGet ("/groups/" ++ id ++ "?$select=" ++ String.concat "," props)])%list).
Proof.
  intros Hon Hg Ht Hfresh Hj Htruthy.
  assert (Hparsed : parsedGroup g = j) by (unfold parsedGroup; now rewrite Hj).
  split.
  - intros Hlen. unfold getGroup. rewrite Hon.
    cbv [bind getGroupValue getState ret dateNow modify].
    rewrite Hg, Ht, Hfresh, Hparsed, Htruthy.
    fold (missingProps j props).
    apply Nat.leb_le in Hlen. rewrite Hlen. reflexivity.
  - intros Hlen. unfold getGroup. rewrite Hon.
    cbv [bind getGroupValue getState ret dateNow modify].
    rewrite Hg, Ht, Hfresh, Hparsed, Htruthy.
    fold (missingProps j props).
    replace (length (missingProps j props) <=? 1)%nat with false
      by (symmetry; apply Nat.leb_gt; lia).
    rewrite apiGet_run. world.
    match goal with
    | |- context [apiGet env ?l ?p] => destruct (apiGet env l p) as [e | j']
    end; [reflexivity |].
    cbv [putGroupValue bind dateNow getState modify ret]. reflexivity.
Qed.

(** *** Objects used as dictionaries *)




Lemma dictGet_dictSet {A} (k k' : string) (v : A) (d : list (string * A)) :
  dictGet k (dictSet k' v d) = if String.eqb k k' then Some v else dictGet k d.
Proof.
  induction d as [| [x y] d IH].
  - cbn [dictSet dictGet]. rewrite (String.eqb_sym k' k). reflexivity.
  - cbn [dictSet]. destruct (String.eqb x k') eqn:E.
    + apply String.eqb_eq in E as ->. cbn [dictGet].
      rewrite (String.eqb_sym k' k). now destruct (String.eqb k k').
    + cbn [dictGet]. rewrite IH. destruct (String.eqb x k) eqn:E'; [| reflexivity].
      apply String.eqb_eq in E' as ->. now rewrite E.
Qed.

Lemma dictSet_values {A} (P : A -> Prop) (k : string) (v : A) (d : list (string * A)) :
  P v -> Forall P (objectValues d) -> Forall P (objectValues (dictSet k v d)).
Proof.
  intros Hv. unfold objectValues. induction d as [| [x y] d IH]; intros Hd.
  - repeat constructor. exact Hv.
  - cbn [dictSet]. apply Forall_cons in Hd as [Hy Hd].
    destruct (String.eqb x k); constructor; auto.
Qed.

Lemma dictSet_holds {A} (k : string) (v : A) (d : list (string * A)) :
  v ∈ objectValues (dictSet k v d).
Proof.
  unfold objectValues. induction d as [| [x y] d IH].
  - apply list_elem_of_here.
  - cbn [dictSet]. destruct (String.eqb x k); cbn [map snd].
    + apply list_elem_of_here.
    + apply list_elem_of_further, IH.
Qed.

Lemma dictSet_keeps {A} (k : string) (v : A) (d : list (string * A)) :
  v ∈ objectValues d -> v ∈ objectValues (dictSet k v d).
Proof. intros _. apply dictSet_holds. Qed.

(** *** The first loop of [getGroupsForGroupIds] *)





(** *** The fallback of [getGroupsForGroupIds] *)

Lemma getAll_built calls : forall b, built b -> built (getAll calls b).
Proof.
  induction calls as [| c calls IH]; intros b Hb; [exact Hb |].
  apply (IH (BatchEngine.get (c_id c) (c_resource c) (c_scopes c) (c_headers c) b)).
  now apply get_built.
Qed.

Lemma askedIds_cons id ids :
  askedIds (id :: ids) =
  if String.eqb id "" then askedIds ids else id :: askedIds ids.
Proof.
  unfold askedIds. destruct (String.eqb id "") eqn:E.
  - rewrite filter_cons_False; [reflexivity |]. now rewrite E.
  - rewrite filter_cons_True; [reflexivity |]. now rewrite E.
Qed.

(** Nothing usable in the store (it is switched off, or holds none of
    the ids): every non-empty id goes to the batch. *)
Lemma scan_cold env filters : forall groupIds acc w,
  (getIsGroupsCacheEnabled (config env) = false \/
   forall id, id ∈ groupIds -> w_groups w !! id = None) ->
  forOf (scanGroup env filters) groupIds acc w =
  (Ok {| groupDict := foldl (fun d id => dictSet id JNull d) (groupDict acc) groupIds;
         scanBatch := getAll (map (groupCall filters) (askedIds groupIds))
                             (scanBatch acc);
         notInCache := notInCache acc ++ askedIds groupIds |}, w).
Proof.
  induction groupIds as [| id ids IH]; intros acc w Hcold.
  - cbn [forOf foldl map]. unfold askedIds. rewrite filter_nil, app_nil_r.
    now destruct acc.
  - cbn [forOf].
    assert (Hstep : scanGroup env filters acc id w =
              (Ok {| groupDict := dictSet id JNull (groupDict acc);
                     scanBatch :=
                       if String.eqb id "" then scanBatch acc
                       else getAll [groupCall filters id] (scanBatch acc);
                     notInCache :=
                       if String.eqb id "" then notInCache acc
                       else (notInCache acc ++ [id])%list |}, w)).
    { cbv [scanGroup bind getGroupValue getState dateNow modify ret].
      destruct Hcold as [Hoff | Hnone].
      - rewrite Hoff. now destruct (String.eqb id "").
      - destruct (getIsGroupsCacheEnabled (config env));
          [rewrite (Hnone id) by apply list_elem_of_here |];
          now destruct (String.eqb id ""). }
    rewrite (bind_ok _ _ _ _ _ Hstep), IH; cycle 1.
    { destruct Hcold as [Hoff | Hnone]; [now left | right].
      intros id' Hid'. apply Hnone. now apply list_elem_of_further. }
    cbn [groupDict scanBatch notInCache foldl]. rewrite askedIds_cons.
    destruct (String.eqb id ""); [reflexivity |].
    cbn [map]. now rewrite <- app_assoc.
Qed.

Lemma asked_queue filters (asked : list string) :
  asked <> [] ->
  requestsQueue (getAll (map (groupCall filters) asked) newBatch) <> [].
Proof.
  intros Hne. destruct (getAll_fields (map (groupCall filters) asked))
    as (_ & -> & _).
  rewrite length_map. destruct asked; [congruence | discriminate].
Qed.

(** With nothing usable in the store and the batch endpoint rejecting,
    the call is what the [catch] block does after the one composite
    request. *)
Lemma fallback_entered env fuel groupIds filters w e :
  rejectsAll env e ->
  (getIsGroupsCacheEnabled (config env) = false \/
   forall id, id ∈ groupIds -> w_groups w !! id = None) ->
  askedIds groupIds <> [] ->
  let scan :=
    {| groupDict := foldl (fun d id => dictSet id JNull d) [] groupIds;
       scanBatch := getAll (map (groupCall filters) (askedIds groupIds)) newBatch;
       notInCache := askedIds groupIds |} in
  getGroupsForGroupIds env (S fuel) (Some groupIds) filters w =
  fallbackGroups env groupIds scan
    (appendLog [rejectedPost (scanBatch scan) e] w).
Proof.
  intros Hrej Hcold Hasked scan. unfold getGroupsForGroupIds.
  destruct groupIds as [| id ids]; [now contradiction Hasked |].
  rewrite (bind_ok _ _ _ _ _
             (scan_cold env filters (id :: ids)
                {| groupDict := []; scanBatch := newBatch; notInCache := [] |}
                w Hcold)).
  cbn [groupDict scanBatch notInCache app]. fold scan.
  erewrite tryCatch_throw; [reflexivity |].
  unfold batchedGroups. erewrite bind_throw; [reflexivity |].
  apply runBatch_rejected; [exact Hrej | |].
  - apply getAll_built, newBatch_built.
  - now apply asked_queue.
Qed.


Lemma promiseAll_oks {A B} (f : B -> A) (l : list B) w :
  promiseAll (map (fun x => Ok (f x)) l) w = (Ok (map f l), w).
Proof.
  induction l as [| x l IH]; [reflexivity |].
  cbn [map promiseAll]. unfold bind. now rewrite IH.
Qed.

Lemma promiseAll_throws {A} (e : Exn) (ps : list (Result A)) w :
  Forall (fun r => (exists a, r = Ok a) \/ r = Throw e) ps ->
  Throw e ∈ ps -> promiseAll ps w = (Throw e, w).
Proof.
  induction ps as [| p ps IH]; intros Hall Hin; [now apply elem_of_nil in Hin |].
  apply Forall_cons in Hall as [[[a ->] | ->] Hall]; [| reflexivity].
  apply elem_of_cons in Hin as [Hin | Hin]; [discriminate |].
  cbn [promiseAll]. unfold bind. now rewrite IH.
Qed.


Lemma getGroup_fails env id w e :
  getsFail env e ->
  (getIsGroupsCacheEnabled (config env) = false \/ w_groups w !! id = None) ->
  getGroup env id None w = (Throw e, addLog (LogGet ("/groups/" ++ id)) w).
Proof.
  intros Hfail Hcold. unfold getGroup.
  cbv [bind getGroupValue getState ret].
  destruct Hcold as [-> | Hnone].
  - now rewrite apiGet_run, Hfail.
  - destruct (getIsGroupsCacheEnabled (config env));
      [rewrite Hnone |]; now rewrite apiGet_run, Hfail.
Qed.




Lemma fallback_failures env (e : Exn) :
  getsFail env e ->
  forall retried (d : list (string * Result Json)) w,
    (getIsGroupsCacheEnabled (config env) = false \/
     forall id, id ∈ retried -> w_groups w !! id = None) ->
    exists w',
      forOf (fun dict id =>
               bind (attempt (getGroup env id None))
                    (fun p => ret (dictSet id p dict)))
            retried d w =
      (Ok (foldl (fun d id => dictSet id (Throw e) d) d retried), w') /\
      w_groups w' = w_groups w.
Proof.
  intros Hfail. induction retried as [| id ids IH]; intros d w Hcold.
  - exists w. now split.
  - cbn [forOf foldl].
    assert (Hp : attempt (getGroup env id None) w =
                 (Ok (Throw e), addLog (LogGet ("/groups/" ++ id)) w)).
    { unfold attempt. rewrite (getGroup_fails env id w e Hfail); [reflexivity |].
      destruct Hcold as [Hoff | Hnone]; [now left | right].
      apply Hnone, list_elem_of_here. }
    erewrite bind_ok; cycle 1.
    { erewrite bind_ok by exact Hp. reflexivity. }
    destruct (IH (dictSet id (Throw e) d) (addLog (LogGet ("/groups/" ++ id)) w))
      as (w' & Hrun & Hgroups).
    { destruct Hcold as [Hoff | Hnone]; [now left | right].
      intros id' Hid'. cbn [addLog w_groups]. apply Hnone.
      now apply list_elem_of_further. }
    exists w'. split; [exact Hrun | exact Hgroups].
Qed.

Lemma foldl_dictSet_get {A} (v : A) (l : list string) : forall d id,
  id ∈ l -> dictGet id (foldl (fun d x => dictSet x v d) d l) = Some v.
Proof.
  induction l as [| x l IH] using rev_ind; intros d id Hid.
  - now apply elem_of_nil in Hid.
  - rewrite foldl_snoc, dictGet_dictSet.
    destruct (String.eqb id x) eqn:E; [reflexivity |].
    apply IH. apply elem_of_app in Hid as [Hid | Hid]; [exact Hid |].
    apply list_elem_of_singleton in Hid as ->. now rewrite String.eqb_refl in E.
Qed.

Lemma foldl_dictSet_values {A} (P : A -> Prop) (v : A) (l : list string) :
  P v -> forall d,
  Forall P (objectValues d) ->
  Forall P (objectValues (foldl (fun d x => dictSet x v d) d l)).
Proof.
  intros Hv. induction l as [| x l IH]; intros d Hd; [exact Hd |].
  cbn [foldl]. apply IH. now apply dictSet_values.
Qed.

Lemma foldl_dictSet_holds {A} (v : A) (l : list string) : forall d,
  l <> [] -> v ∈ objectValues (foldl (fun d x => dictSet x v d) d l).
Proof.
  induction l as [| x l IH] using rev_ind; intros d Hne; [congruence |].
  rewrite foldl_snoc. apply dictSet_holds.
Qed.

Lemma failed_loop env (e : Exn) (promises : list (string * Result Json)) :
  forall retried failed w,
    (forall id, id ∈ retried -> dictGet id promises = Some (Throw e)) ->
    forOf (fun failed id =>
             match dictGet id promises with
             | Some (Ok j) =>
                 bind (putGroupValue env id {| group_timeCached := None;
                                               group := stringify j |})
                      (fun _ => ret failed)
             | Some (Throw _) => ret true
             | _ => ret failed
             end) retried failed w =
    (Ok (match retried with [] => failed | _ => true end), w).
Proof.
  induction retried as [| id ids IH]; intros failed w Hall; [reflexivity |].
  cbn [forOf]. rewrite (Hall id) by apply list_elem_of_here.
  rewrite bind_ret, IH.
  - now destruct ids.
  - intros id' Hid'. apply Hall. now apply list_elem_of_further.
Qed.

(** The batch endpoint rejects and so does every single request, for
    ids of which the store holds nothing: with the group cache on the
    call returns an empty array, with the cache off it rejects with the
    error of the single requests. *)
Theorem fallback_failure env fuel groupIds filters w e e' :
  rejectsAll env e -> getsFail env e' ->
  askedIds groupIds <> [] ->
  (forall id, id ∈ groupIds -> w_groups w !! id = None) ->
  (getGroupsForGroupIds env (S fuel) (Some groupIds) filters w).1 =
  if getIsGroupsCacheEnabled (config env) then Ok [] else Throw e'.
Proof.
  intros Hrej Hfail Hasked Hnone.
  rewrite (fallback_entered env fuel groupIds filters w e Hrej (or_intror Hnone) Hasked).
  unfold fallbackGroups. cbn [groupDict scanBatch notInCache].
  rewrite retried_asked.
  destruct (fallback_failures env e' Hfail (askedIds groupIds)
              (map (fun kv => (kv.1, Ok kv.2))
                   (foldl (fun d id => dictSet id JNull d) [] groupIds))
              (appendLog [rejectedPost
                            (getAll (map (groupCall filters) (askedIds groupIds))
                                    newBatch) e] w))
    as (w' & Hrun & Hgroups).
  { right. intros id Hid. cbn [appendLog w_groups]. apply Hnone.
    unfold askedIds in Hid. now apply list_elem_of_filter in Hid as [_ Hid]. }
  rewrite (bind_ok _ _ _ _ _ Hrun).
  destruct (getIsGroupsCacheEnabled (config env)).
  - erewrite bind_ok; cycle 1.
    { apply (failed_loop env e'). intros id Hid. now apply foldl_dictSet_get. }
    destruct (askedIds groupIds); [congruence | reflexivity].
  - rewrite bind_ret. cbn beta iota.
    rewrite (promiseAll_throws e'); [reflexivity | |].
    + apply foldl_dictSet_values; [now right |].
      unfold objectValues. rewrite map_map. apply Forall_forall.
      intros r Hr. apply list_elem_of_fmap in Hr as (kv & -> & _). left. eauto.
    + now apply foldl_dictSet_holds.
Qed.

(** *** Concrete runs *)

(** A cold store, then a second call one clock tick later. *)
Lemma getGroup_round_trip_witness :
  exists w1,
    getGroup (batchDown hourConfig) "g1" None emptyWorld =
    (Ok (JObj [("id", JStr "/groups/g1")]), w1) /\
    getGroup (batchDown hourConfig) "g1" None w1 =
    (Ok (JObj [("id", JStr "/groups/g1")]), tick w1).
Proof.
  destruct (getGroup_round_trip (batchDown hourConfig) "g1" emptyWorld
              (JObj [("id", JStr "/groups/g1")]) eq_refl eq_refl eq_refl eq_refl)
    as (w1 & Hfirst & _ & _ & Hhit & _).
  exists w1. split; [exact Hfirst |]. apply Hhit. vm_compute. reflexivity.
Defined.

(** The cached group has no [mail]; it is returned all the same. *)
Lemma getGroup_requested_props_witness :
  getGroup (batchDown hourConfig) "g1" (Some ["id"; "mail"]) oneGroupCached =
  (Ok (groupJson "g1"), tick oneGroupCached).
Proof.
  destruct (getGroup_requested_props (batchDown hourConfig) "g1" oneGroupCached
              {| group_timeCached := Some 1000; group := Some (groupJson "g1") |}
              1000 (groupJson "g1") ["id"; "mail"]
              eq_refl eq_refl eq_refl eq_refl eq_refl eq_refl) as [Hserved _].
  apply Hserved. vm_compute. lia.
Defined.



(** Nothing can be reached, with the cache on and with the cache off. *)
Lemma fallback_failure_witness :
  (getGroupsForGroupIds (allDown hourConfig) 1 (Some ["g1"; "g2"]) "" emptyWorld).1
  = Ok [] /\
  (getGroupsForGroupIds (allDown cacheOff) 1 (Some ["g1"; "g2"]) "" emptyWorld).1
  = Throw (TransportError "offline").
Proof.
  split.
  - apply (fallback_failure (allDown hourConfig) 0 ["g1"; "g2"] "" emptyWorld
             (TransportError "Failed to fetch") (TransportError "offline")).
    + intros h sc steps. reflexivity.
    + intros l path. reflexivity.
    + discriminate.
    + intros id _. reflexivity.
  - apply (fallback_failure (allDown cacheOff) 0 ["g1"; "g2"] "" emptyWorld
             (TransportError "Failed to fetch") (TransportError "offline")).
    + intros h sc steps. reflexivity.
    + intros l path. reflexivity.
    + discriminate.
    + intros id _. reflexivity.
Defined.

End GroupsExtras.
(** ** Further properties of the person card and the photos *)

Module CardPhotoExtras.
Import Js JsFacts BatchEngine BatchSpec BatchFacts Access AccessFacts MoreAccess.
Import UserPhotos.

Ltac world :=
  cbn [w_log w_ticks w_photos w_groups w_cards addLog tick appendLog
       photo_timeCached eTag photo card_timeCached card_data fst snd].

Lemma bind_inv {S A B} (m : M S A) (k : A -> M S B) s b s' :
  bind m k s = (Ok b, s') ->
  exists a s1, m s = (Ok a, s1) /\ k a s1 = (Ok b, s').
Proof.
  unfold bind. destruct (m s) as [[a | e |] s1]; intros H;
    [eauto | discriminate | discriminate].
Qed.

(** *** [getPersonCardGraphData] *)

(** The card-state store is used whatever the cache configuration says:
    a fresh card in the store is returned without any request, and a call
    that finds no card and returns has stored what it returns under the
    user id, stamped with the time of the write. *)
Theorem card_state_store_unconditional scopes env fuel sections person email isMe w :
  let userId := templateM (orM (pd_id person) (pd_userPrincipalName person)) in
  (forall c t,
     w_cards w !! userId = Some c -> card_timeCached c = Some t ->
     getPersonCardGraphData_fresh (config env) (clock env (w_ticks w)) t = true ->
     getPersonCardGraphData scopes env fuel sections person email isMe w
     = (Ok c, tick w)) /\
  (w_cards w !! userId = None ->
   match getPersonCardGraphData scopes env fuel sections person email isMe w with
   | (Ok c, w') =>
       card_timeCached c = None /\
       exists stamp,
         w_cards w' !! userId =
         Some {| card_timeCached := Some stamp; card_data := card_data c |}
   | _ => True
   end).
Proof.
  intros userId. split.
  - intros c t Hc Ht Hfresh. unfold getPersonCardGraphData.
    fold userId.
    cbv [bind getCardValue getState ret dateNow modify].
    now rewrite Hc, Ht, Hfresh.
  - intros Hmiss.
    destruct (getPersonCardGraphData scopes env fuel sections person email isMe w)
      as [[c | e |] w'] eqn:Hrun; [| exact I | exact I].
    unfold getPersonCardGraphData in Hrun. fold userId in Hrun.
    apply bind_inv in Hrun as (cardState & w1 & Hread & Hrun).
    cbv [getCardValue bind getState ret] in Hread. rewrite Hmiss in Hread.
    injection Hread as <- <-. cbn beta iota in Hrun.
    rewrite bind_ret in Hrun. cbn beta iota in Hrun.
    apply bind_inv in Hrun as (isCG & w2 & _ & Hrun).
    apply bind_inv in Hrun as (response & w3 & _ & Hrun).
    apply bind_inv in Hrun as (data1 & w4 & _ & Hrun).
    apply bind_inv in Hrun as (data2 & w5 & _ & Hrun).
    apply bind_inv in Hrun as ([] & w6 & Hput & Hrun).
    injection Hrun as <- <-.
    cbv [putCardValue bind dateNow getState modify ret] in Hput.
    injection Hput as <-. world.
    split; [reflexivity |]. eexists. now rewrite lookup_insert_eq.
Qed.

(** An array of direct reports is replaced by its elements whose
    [accountEnabled] is truthy, in their order; the other keys stay.  A
    [null] or [undefined] element makes the statement raise. *)
Theorem direct_reports_filtered (data : gmap string Json) (reports : list Json) w :
  data !! "directReports" = Some (JArr reports) ->
  (Forall (fun r => r <> JUndefined /\ r <> JNull) reports ->
   filterDirectReports data w =
   (Ok (<["directReports" :=
            JArr (filter (fun r => truthy (prop r "accountEnabled")) reports)]>
          data), w)) /\
  (Exists (fun r => r = JUndefined \/ r = JNull) reports ->
   filterDirectReports data w = (Throw TypeError, w)).
Proof.
  intros Hdata.
  assert (Hok : forall l, Forall (fun r => r <> JUndefined /\ r <> JNull) l ->
            filterReports l w =
            (Ok (filter (fun r => truthy (prop r "accountEnabled")) l), w)).
  { induction l as [| r l IH]; intros Hl; [reflexivity |].
    apply Forall_cons in Hl as [[Hu Hn] Hl]. cbn [filterReports].
    assert (Hr : accountEnabled r w = (Ok (truthy (prop r "accountEnabled")), w))
      by (destruct r; try reflexivity; congruence).
    rewrite (bind_ok _ _ _ _ _ Hr), (bind_ok _ _ _ _ _ (IH Hl)).
    unfold ret. destruct (truthy (prop r "accountEnabled")) eqn:E.
    - rewrite filter_cons_True; [reflexivity |]. now rewrite E.
    - rewrite filter_cons_False; [reflexivity |]. now rewrite E. }
  assert (Hbad : forall l, Exists (fun r => r = JUndefined \/ r = JNull) l ->
            filterReports l w = (Throw TypeError, w)).
  { induction l as [| r l IH]; intros Hl; [now apply Exists_nil in Hl |].
    cbn [filterReports].
    destruct r; try reflexivity;
      (apply Exists_cons in Hl as [[Hl | Hl] | Hl]; try discriminate;
       cbv [bind accountEnabled ret]; now rewrite (IH Hl)). }
  unfold filterDirectReports. rewrite Hdata. split.
  - intros Hall. destruct reports as [| r reports].
    + rewrite filter_nil, insert_id by exact Hdata. reflexivity.
    + now rewrite (bind_ok _ _ _ _ _ (Hok _ Hall)).
  - intros Hex. destruct reports as [| r reports]; [now apply Exists_nil in Hex |].
    now rewrite (bind_throw _ _ _ _ _ (Hbad _ Hex)).
Qed.

(** *** Photos *)

Lemma getPhotoForResource_run env resource w :
  getPhotoForResource env resource w =
  (Ok (photoOf (apiRaw env (w_log w) (resource ++ "/photo/$value"))),
   addLog (LogRaw (resource ++ "/photo/$value")) w).
Proof.
  unfold getPhotoForResource, tryCatch, bind. rewrite getRaw_run.
  unfold photoOf.
  destruct (apiRaw env (w_log w) _) as [e | response]; [reflexivity |].
  destruct (raw_status response =? 404); [reflexivity |].
  destruct (raw_ok response); [| reflexivity].
  now destruct (raw_blob response).
Qed.

(** [getPhotoForResource] makes exactly one request, for
    [<resource>/photo/$value], and never raises: a 404 gives a photo
    object without a photo; a rejected request, another failure status or
    an unreadable body give [null]; otherwise the result is the encoded
    body with the eTag of the response. *)
Theorem getPhotoForResource_total env resource w :
  exists result,
    getPhotoForResource env resource w =
    (Ok result, addLog (LogRaw (resource ++ "/photo/$value")) w) /\
    match apiRaw env (w_log w) (resource ++ "/photo/$value") with
    | ApiRejected _ => result = None
    | ApiResolved response =>
        if raw_status response =? 404
        then result = Some {| photo_timeCached := None;
                              eTag := JNull; photo := JNull |}
        else
          (raw_ok response = false -> result = None) /\
          (raw_blob response = None -> result = None) /\
          (forall blob,
             raw_ok response = true -> raw_blob response = Some blob ->
             result = Some {| photo_timeCached := None;
                              eTag := raw_mediaEtag response;
                              photo := JStr blob |})
    end.
Proof.
  eexists. split; [apply getPhotoForResource_run |].
  unfold photoOf.
  destruct (apiRaw env (w_log w) _) as [e | response]; [reflexivity |].
  destruct (raw_status response =? 404); [reflexivity |].
  destruct (raw_ok response), (raw_blob response) as [blob |];
    cbn [negb]; repeat split; try congruence.
Qed.

(** With the photo cache on and no photo stored for [me], a truthy
    answer to the metadata request makes [myPhoto] return null: the photo
    itself is not requested and nothing is stored, so the store stays
    empty however often [myPhoto] is called. *)
Theorem myPhoto_cold_store env w response :
  getIsPhotosCacheEnabled (config env) = true ->
  w_photos w !! "me" = None ->
  apiGet env (w_log w) "me/photo" = ApiResolved response ->
  truthy response = true ->
  myPhoto env w = (Ok JNull, addLog (LogGet "me/photo") w).
Proof.
  intros Hon Hmiss Hget Htruthy. unfold myPhoto. rewrite Hon.
  erewrite bind_ok; cycle 1.
  { cbv [bind getPhotoValue getState ret]. rewrite Hmiss. reflexivity. }
  cbn beta iota.
  erewrite bind_ok; cycle 1.
  { erewrite tryCatch_throw; cycle 1.
    { erewrite bind_ok; cycle 1.
      { rewrite apiGet_run, Hget. reflexivity. }
      erewrite bind_throw; [reflexivity |].
      unfold photoChanged. rewrite Htruthy. reflexivity. }
    reflexivity. }
  reflexivity.
Qed.

(** A stored photo of [me] that is no longer fresh is checked against
    the metadata: when the eTag of the answer is the stored one and not
    null, the stored photo is returned, the entry is written again with
    the time of the write, and the photo itself is not requested. *)
Theorem myPhoto_revalidated env w p t response :
  getIsPhotosCacheEnabled (config env) = true ->
  w_photos w !! "me" = Some p ->
  photo_timeCached p = Some t ->
  myPhoto_fresh (config env) (clock env (w_ticks w)) t = false ->
  apiGet env (w_log w) "me/photo" = ApiResolved response ->
  truthy response = true ->
  strictEq (prop response "@odata.mediaEtag") (eTag p) = true ->
  eTag p <> JNull ->
  exists w',
    myPhoto env w = (Ok (photo p), w') /\
    w_log w' = (w_log w ++ [LogGet "me/photo"])%list /\
    w_photos w' =
    <["me" := {| photo_timeCached := Some (clock env (S (w_ticks w)));
                 eTag := eTag p; photo := photo p |}]> (w_photos w).
Proof.
  intros Hon Hp Ht Hstale Hget Htruthy Hsame Hnotnull.
  assert (Hnull : strictEq (eTag p) JNull = false)
    by (destruct (eTag p); try reflexivity; congruence).
  unfold myPhoto. rewrite Hon.
  erewrite bind_ok; cycle 1.
  { cbv [bind getPhotoValue getState ret dateNow modify].
    rewrite Hp, Ht, Hstale. reflexivity. }
  cbn beta iota.
  erewrite bind_ok; cycle 1.
  { erewrite tryCatch_ok; cycle 1.
    { erewrite bind_ok; cycle 1.
      { rewrite apiGet_run. world. rewrite Hget. reflexivity. }
      erewrite bind_ok; cycle 1.
      { unfold photoChanged. rewrite Htruthy, Hsame, Hnull, andb_false_r.
        reflexivity. }
      reflexivity. }
    reflexivity. }
  cbn [negb orb]. rewrite bind_ret.
  cbv [bind putPhotoValue dateNow getState modify ret]. cbn [default].
  eexists. split; [reflexivity |]. world. now split.
Qed.

(** *** [getUserPhoto] *)

(** No failure of a request makes [getUserPhoto] raise: it returns, with
    at most two requests made. *)
Theorem getUserPhoto_returns env userId w :
  exists result w',
    getUserPhoto env userId w = (Ok result, w') /\
    (length (w_log w') <= length (w_log w) + 2)%nat.
Proof.
  unfold getUserPhoto.
  destruct (getIsPhotosCacheEnabled (config env)) eqn:Hon.
  - cbv [bind getPhotoValue getState ret dateNow modify].
    destruct (w_photos w !! userId) as [p |] eqn:Hp.
    + destruct (match photo_timeCached p with
                | Some timeCached =>
                    getUserPhoto_fresh (config env) (clock env (w_ticks w)) timeCached
                | None => false
                end).
      * eexists _, _. split; [reflexivity |]. world. lia.
      * unfold tryCatch. rewrite apiGet_run. world.
        destruct (apiGet env (w_log w) _) as [e | response].
        { eexists _, _. split; [reflexivity |]. world.
          rewrite length_app. simpl. lia. }
        unfold photoChanged.
        destruct (truthy response);
          [destruct (negb _ || _) |];
          cbv [bind ret]; cbn beta iota;
          try rewrite getPhotoForResource_run;
          try match goal with
              | |- context [photoOf ?r] => destruct (photoOf r)
              end;
          cbv [bind ret putPhotoValue dateNow getState modify];
          eexists _, _; (split; [reflexivity |]); world;
          rewrite ?length_app; simpl; lia.
    + rewrite getPhotoForResource_run.
      match goal with
      | |- context [photoOf ?r] => destruct (photoOf r)
      end;
        cbv [bind ret putPhotoValue dateNow getState modify];
        eexists _, _; (split; [reflexivity |]); world;
        rewrite ?length_app; simpl; lia.
  - rewrite bind_ret. cbv [bind ret]. rewrite getPhotoForResource_run.
    match goal with
    | |- context [photoOf ?r] => destruct (photoOf r)
    end;
      eexists _, _; (split; [reflexivity |]); world;
      rewrite ?length_app; simpl; lia.
Qed.

(** With the photo cache on and no photo stored for the user,
    [getUserPhoto] fetches the photo with one request, which names the
    user by the encoded id, and stores it; a second call while the entry
    is fresh returns the same photo without a request. *)
Theorem getUserPhoto_round_trip env userId w response blob :
  getIsPhotosCacheEnabled (config env) = true ->
  w_photos w !! userId = None ->
  apiRaw env (w_log w)
         ("users/" ++ encodeURIComponent userId ++ "/photo/$value")
  = ApiResolved response ->
  raw_status response <> 404 -> raw_ok response = true ->
  raw_blob response = Some blob ->
  exists w1,
    getUserPhoto env userId w = (Ok (JStr blob), w1) /\
    w_log w1 =
    (w_log w ++
     [LogRaw ("users/" ++ encodeURIComponent userId ++ "/photo/$value")])%list /\
    w_photos w1 =
    <[userId := {| photo_timeCached := Some (clock env (w_ticks w));
                   eTag := raw_mediaEtag response; photo := JStr blob |}]>
      (w_photos w) /\
    (getUserPhoto_fresh (config env) (clock env (S (w_ticks w)))
                        (clock env (w_ticks w)) = true ->
     getUserPhoto env userId w1 = (Ok (JStr blob), tick w1)).
Proof.
  intros Hon Hmiss Hraw H404 Hok Hblob.
  assert (Hphoto : photoOf (ApiResolved response) =
                   Some {| photo_timeCached := None;
                           eTag := raw_mediaEtag response; photo := JStr blob |}).
  { unfold photoOf. apply Z.eqb_neq in H404. now rewrite H404, Hok, Hblob. }
  eexists. split.
  { unfold getUserPhoto. rewrite Hon.
    cbv [bind getPhotoValue getState ret]. rewrite Hmiss.
    rewrite getPhotoForResource_run.
    change (("users/" ++ encodeURIComponent userId) ++ "/photo/$value")
      with ("users/" ++ encodeURIComponent userId ++ "/photo/$value").
    rewrite Hraw, Hphoto.
    cbv [putPhotoValue bind dateNow getState modify ret]. reflexivity. }
  world. split; [reflexivity |]. split; [reflexivity |].
  intros Hfresh. unfold getUserPhoto. rewrite Hon.
  cbv [bind getPhotoValue getState ret dateNow modify]. world.
  rewrite lookup_insert_eq. world. rewrite Hfresh. reflexivity.
Qed.

(** *** Concrete runs *)

(** The caches are switched off; the card of [u1] is in the store, and
    for an empty store the card built while the batch endpoint is down is
    written to it. *)
Lemma card_state_store_unconditional_witness :
  getPersonCardGraphData cardScopes (batchDown cacheOff) 1 allSections
    someUser (MStr "u1@contoso.com") false oneCardCached
  = (Ok {| card_timeCached := Some 1000;
           card_data := {["profile" := JStr "p"]} |}, tick oneCardCached) /\
  match getPersonCardGraphData cardScopes (batchDown cacheOff) 1 allSections
          someUser (MStr "u1@contoso.com") false emptyWorld with
  | (Ok c, w') =>
      card_timeCached c = None /\
      exists stamp,
        w_cards w' !! "u1" =
        Some {| card_timeCached := Some stamp; card_data := card_data c |}
  | _ => True
  end.
Proof.
  split.
  - destruct (card_state_store_unconditional cardScopes (batchDown cacheOff) 1
                allSections someUser (MStr "u1@contoso.com") false oneCardCached)
      as [Hhit _].
    apply (Hhit _ 1000); reflexivity.
  - destruct (card_state_store_unconditional cardScopes (batchDown cacheOff) 1
                allSections someUser (MStr "u1@contoso.com") false emptyWorld)
      as [_ Hstore].
    apply Hstore. reflexivity.
Defined.

(** One of three direct reports is disabled. *)
Lemma direct_reports_filtered_witness :
  let ann := JObj [("id", JStr "ann"); ("accountEnabled", JBool true)] in
  let bob := JObj [("id", JStr "bob"); ("accountEnabled", JBool false)] in
  let cy := JObj [("id", JStr "cy"); ("accountEnabled", JBool true)] in
  filterDirectReports {["directReports" := JArr [ann; bob; cy]]} emptyWorld =
  (Ok (<["directReports" :=
           JArr (filter (fun r => truthy (prop r "accountEnabled")) [ann; bob; cy])]>
         {["directReports" := JArr [ann; bob; cy]]}), emptyWorld).
Proof.
  intros ann bob cy.
  assert (Hl : ({["directReports" := JArr [ann; bob; cy]]} : gmap string Json)
               !! "directReports" = Some (JArr [ann; bob; cy]))
    by (vm_compute; reflexivity).
  destruct (direct_reports_filtered {["directReports" := JArr [ann; bob; cy]]}
              [ann; bob; cy] emptyWorld Hl) as [Hkept _].
  apply Hkept. repeat constructor; discriminate.
Defined.

(** A first call of [myPhoto] with the cache on. *)
Lemma myPhoto_cold_store_witness :
  myPhoto (photoEnv hourConfig) emptyWorld =
  (Ok JNull, addLog (LogGet "me/photo") emptyWorld).
Proof.
  apply (myPhoto_cold_store (photoEnv hourConfig) emptyWorld
           (JObj [("@odata.mediaEtag", JStr "W/1")])); reflexivity.
Defined.

(** The stored photo of [me] after the end of the period, the eTag
    unchanged. *)
Lemma myPhoto_revalidated_witness :
  exists w',
    myPhoto (lateEnv hourConfig) myPhotoCached = (Ok (JStr "BBBB"), w') /\
    w_log w' = [LogGet "me/photo"].
Proof.
  destruct (myPhoto_revalidated (lateEnv hourConfig) myPhotoCached
              {| photo_timeCached := Some 1000; eTag := JStr "W/1";
                 photo := JStr "BBBB" |}
              1000 (JObj [("@odata.mediaEtag", JStr "W/1")])
              eq_refl eq_refl eq_refl eq_refl eq_refl eq_refl eq_refl
              ltac:(discriminate))
    as (w' & Hrun & Hlog & _).
  exists w'. split; [exact Hrun | exact Hlog].
Defined.

(** The photo of a guest, fetched and then served from the store. *)
Lemma getUserPhoto_round_trip_witness :
  exists w1,
    getUserPhoto (photoEnv hourConfig) guestId emptyWorld = (Ok (JStr "AAAA"), w1) /\
    w_log w1 =
    [LogRaw "users/ada_contoso.com%23EXT%23%40fabrikam.onmicrosoft.com/photo/$value"] /\
    getUserPhoto (photoEnv hourConfig) guestId w1 = (Ok (JStr "AAAA"), tick w1).
Proof.
  destruct (getUserPhoto_round_trip (photoEnv hourConfig) guestId emptyWorld
              {| raw_status := 200; raw_ok := true;
                 raw_mediaEtag := JUndefined; raw_blob := Some "AAAA" |}
              "AAAA" eq_refl eq_refl eq_refl ltac:(discriminate) eq_refl eq_refl)
    as (w1 & Hfirst & Hlog & _ & Hsecond).
  exists w1. split; [exact Hfirst |]. split; [exact Hlog |].
  apply Hsecond. reflexivity.
Defined.

End CardPhotoExtras.
(** ** Channels of teams, drive items of insights, the attribute
    converters and the middleware chain *)

Module MoreExtras.
Import Js JsFacts BatchEngine BatchSpec BatchFacts Access AccessFacts MoreAccess.
Import Teams Insights Converters Chain.

Ltac world :=
  cbn [w_log w_ticks w_photos w_groups w_cards addLog tick appendLog fst snd].

(** *** Batches built by a loop *)

Lemma foldl_built {A} (f : Batch -> A -> Batch) :
  (forall b a, built b -> built (f b a)) ->
  forall l b, built b -> built (foldl f b l).
Proof.
  intros Hf l. induction l as [| a l IH]; intros b Hb; [exact Hb |].
  simpl. apply IH, Hf, Hb.
Qed.

Lemma foldl_queue {A} (f : Batch -> A -> Batch) :
  (forall b a, requestsQueue b <> [] -> requestsQueue (f b a) <> []) ->
  forall l b, requestsQueue b <> [] -> requestsQueue (foldl f b l) <> [].
Proof.
  intros Hf l. induction l as [| a l IH]; intros b Hb; [exact Hb |].
  simpl. apply IH, Hf, Hb.
Qed.

Lemma runBatch_idle env fuel w :
  runBatch env fuel newBatch w = (Ok ∅, appendLog [] w).
Proof.
  unfold runBatch, executeAll. now rewrite executeAllLoop_done.
Qed.

(** *** [getChannelsForTeams] *)

Lemma teamsBatch_built teams : built (teamsBatch teams).
Proof.
  apply foldl_built; [| apply newBatch_built].
  intros b team. apply get_built.
Qed.

Lemma teamsBatch_queue teams :
  teams <> [] -> requestsQueue (teamsBatch teams) <> [].
Proof.
  destruct teams as [| team teams]; [congruence |]. intros _.
  unfold teamsBatch. simpl. apply foldl_queue; [| apply get_queue].
  intros b a _. apply get_queue.
Qed.

(** A batch request that is rejected is the end of
    [getChannelsForTeams]: the error of the one composite request reaches
    the caller and no team is asked for on its own.  For no teams the
    result is the empty list and nothing is requested. *)
Theorem channels_without_fallback env fuel teams w e :
  rejectsAll env e ->
  (teams <> [] ->
   getChannelsForTeams env (S fuel) teams w =
   (Throw e, appendLog [rejectedPost (teamsBatch teams) e] w)) /\
  getChannelsForTeams env fuel [] w = (Ok [], appendLog [] w).
Proof.
  intros Hrej. split.
  - intros Hteams. unfold getChannelsForTeams.
    erewrite bind_throw; [reflexivity |].
    apply runBatch_rejected;
      [exact Hrej | apply teamsBatch_built | now apply teamsBatch_queue].
  - unfold getChannelsForTeams.
    change (teamsBatch []) with newBatch.
    erewrite bind_ok by apply runBatch_idle. reflexivity.
Qed.

Lemma channelsOf_array (response : option (BatchResponse Json)) w :
  (forall r, response = Some r ->
     prop (contentJson (resp_content r)) "value" = JUndefined \/
     exists l, prop (contentJson (resp_content r)) "value" = JArr l) ->
  channelsOf response w =
  (Ok match response with
      | Some r =>
          match prop (contentJson (resp_content r)) "value" with
          | JArr (c :: l) => Some (c :: l)
          | _ => None
          end
      | None => None
      end, w).
Proof.
  intros Hvalue. destruct response as [r |]; [| reflexivity].
  specialize (Hvalue r eq_refl). unfold channelsOf.
  destruct (contentJson (resp_content r)) as [| | b | n | s | l | fields];
    try reflexivity;
    destruct Hvalue as [Hv | [l' Hv]]; rewrite Hv;
    try reflexivity; now destruct l'.
Qed.

Lemma channels_loop (responses : gmap string (BatchResponse Json))
    (teams : list Team) w :
  Forall (fun team =>
            forall r, responses !! team_id team = Some r ->
              prop (contentJson (resp_content r)) "value" = JUndefined \/
              exists l, prop (contentJson (resp_content r)) "value" = JArr l)
         teams ->
  forall result,
    forOf (fun result team =>
             bind (channelsOf (responses !! team_id team))
                  (fun channels =>
                     match channels with
                     | None => ret result
                     | Some l => ret (result ++ [dropdownItem team l])%list
                     end)) teams result w =
    (Ok (result ++
         omap (fun team =>
                 match responses !! team_id team with
                 | Some r =>
                     match prop (contentJson (resp_content r)) "value" with
                     | JArr (c :: l) => Some (dropdownItem team (c :: l))
                     | _ => None
                     end
                 | None => None
                 end) teams)%list, w).
Proof.
  induction 1 as [| team teams Hteam _ IH]; intros result.
  - cbn [forOf omap list_omap]. now rewrite app_nil_r.
  - cbn [forOf]. unfold bind at 1. unfold bind at 1.
    rewrite (channelsOf_array _ w Hteam).
    cbn [omap list_omap].
    destruct (responses !! team_id team) as [r |].
    + destruct (prop (contentJson (resp_content r)) "value")
        as [| | b | n | s | [| c l] | fields];
        cbv [ret]; rewrite IH; try reflexivity.
      now rewrite <- app_assoc.
    + cbv [ret]. now rewrite IH.
Qed.

(** When the batch succeeds and every answer carries an array [value]
    or none, the result holds one item for each team whose answer has at
    least one channel, in the order of [teams]; a team that has no
    answer, no [value] or an empty one is left out. *)
Theorem channels_in_team_order env fuel teams w responses w1 :
  runBatch env fuel (teamsBatch teams) w = (Ok responses, w1) ->
  Forall (fun team =>
            forall r, responses !! team_id team = Some r ->
              prop (contentJson (resp_content r)) "value" = JUndefined \/
              exists l, prop (contentJson (resp_content r)) "value" = JArr l)
         teams ->
  getChannelsForTeams env fuel teams w =
  (Ok (omap (fun team =>
               match responses !! team_id team with
               | Some r =>
                   match prop (contentJson (resp_content r)) "value" with
                   | JArr (c :: l) => Some (dropdownItem team (c :: l))
                   | _ => None
                   end
               | None => None
               end) teams), w1).
Proof.
  intros Hrun Hvalues. unfold getChannelsForTeams.
  erewrite bind_ok by exact Hrun.
  now rewrite (channels_loop responses teams w1 Hvalues []).
Qed.

(** *** [getDriveItemsByInsights] *)


Lemma nonEmpty_cons (id : string) (ids : list string) :
  nonEmptyIds (id :: ids) =
  if String.eqb id "" then nonEmptyIds ids else id :: nonEmptyIds ids.
Proof.
  unfold nonEmptyIds. destruct (String.eqb id "") eqn:E.
  - rewrite filter_cons_False; [reflexivity |]. now rewrite E.
  - rewrite filter_cons_True; [reflexivity |]. now rewrite E.
Qed.

Lemma insightsBatch_built scopes items : built (insightsBatch scopes items).
Proof.
  apply foldl_built; [| apply newBatch_built].
  intros b id Hb.
  destruct (negb (String.eqb id "")); [now apply get_built | exact Hb].
Qed.

Lemma insightsBatch_queue scopes items :
  nonEmptyIds items <> [] ->
  requestsQueue (insightsBatch scopes items) <> [].
Proof.
  unfold insightsBatch. generalize newBatch.
  induction items as [| id items IH]; intros b Hasked;
    [now contradiction Hasked |].
  cbn [foldl]. rewrite nonEmpty_cons in Hasked.
  destruct (String.eqb id "") eqn:E; cbn [negb].
  - apply IH, Hasked.
  - apply foldl_queue; [| apply get_queue].
    intros b' id' Hb'.
    destruct (negb (String.eqb id' "")); [apply get_queue | exact Hb'].
Qed.

Lemma insightsBatch_idle scopes items :
  nonEmptyIds items = [] -> insightsBatch scopes items = newBatch.
Proof.
  unfold insightsBatch. generalize newBatch.
  induction items as [| id items IH]; intros b Hasked; [reflexivity |].
  cbn [foldl]. rewrite nonEmpty_cons in Hasked.
  destruct (String.eqb id "") eqn:E; cbn [negb]; [now apply IH | discriminate].
Qed.

(** The requests of the [catch] block: every one is made, whatever the
    earlier ones gave. *)
Lemma single_gets env (res : string -> ApiResult Json) :
  (forall l path, apiGet env l path = res path) ->
  forall (ids : list string) w,
  exists w',
    mapEach (fun id => attempt (Access.get env id)) ids w =
    (Ok (map (fun id => match res id with
                        | ApiResolved j => Ok j
                        | ApiRejected e => Throw e
                        end) ids), w') /\
    w_log w' = (w_log w ++ map LogGet ids)%list.
Proof.
  intros Hres. induction ids as [| id ids IH]; intros w.
  - exists w. split; [reflexivity |]. simpl. now rewrite app_nil_r.
  - destruct (IH (addLog (LogGet id) w)) as (w' & Hrun & Hlog).
    exists w'. split.
    + cbn [mapEach map]. unfold bind at 1, attempt at 1.
      rewrite apiGet_run, Hres.
      destruct (res id); unfold bind at 1; rewrite Hrun; reflexivity.
    + rewrite Hlog. world. now rewrite <- app_assoc.
Qed.

(** With the batch endpoint rejecting and single requests answered,
    [getDriveItemsByInsights] asks for every non-empty id on its own, in
    order, after the one composite request, and returns the answers as
    they are: one per non-empty id, with nothing filtered out. *)
Theorem insights_fallback env fuel items scopes w e answer :
  rejectsAll env e -> answersWith env answer ->
  nonEmptyIds items <> [] ->
  exists w',
    getDriveItemsByInsights env (S fuel) (Some (Some items)) scopes w =
    (Ok (map answer (nonEmptyIds items)), w') /\
    w_log w' =
    (w_log w ++ rejectedPost (insightsBatch scopes items) e ::
       map LogGet (nonEmptyIds items))%list.
Proof.
  intros Hrej Hans Hasked. unfold getDriveItemsByInsights.
  destruct (single_gets env (fun path => ApiResolved (answer path)) Hans
              (nonEmptyIds items)
              (appendLog [rejectedPost (insightsBatch scopes items) e] w))
    as (w' & Hgets & Hlog).
  exists w'. split.
  - erewrite tryCatch_throw; cycle 1.
    { erewrite bind_throw; [reflexivity |].
      apply runBatch_rejected;
        [exact Hrej | apply insightsBatch_built | now apply insightsBatch_queue]. }
    erewrite bind_ok by exact Hgets.
    rewrite (GroupsExtras.promiseAll_oks answer). reflexivity.
  - rewrite Hlog. world. now rewrite <- app_assoc.
Qed.

(** When the batch endpoint and the single requests both fail, the error
    of the single requests reaches the caller (the result is not the
    empty list), after every single request has been made. *)
Theorem insights_fallback_failure env fuel items scopes w e e' :
  rejectsAll env e -> getsFail env e' ->
  nonEmptyIds items <> [] ->
  exists w',
    getDriveItemsByInsights env (S fuel) (Some (Some items)) scopes w =
    (Throw e', w') /\
    w_log w' =
    (w_log w ++ rejectedPost (insightsBatch scopes items) e ::
       map LogGet (nonEmptyIds items))%list.
Proof.
  intros Hrej Hfail Hasked. unfold getDriveItemsByInsights.
  destruct (single_gets env (fun _ => ApiRejected e') Hfail
              (nonEmptyIds items)
              (appendLog [rejectedPost (insightsBatch scopes items) e] w))
    as (w' & Hgets & Hlog).
  exists w'. split.
  - erewrite tryCatch_throw; cycle 1.
    { erewrite bind_throw; [reflexivity |].
      apply runBatch_rejected;
        [exact Hrej | apply insightsBatch_built | now apply insightsBatch_queue]. }
    erewrite bind_ok by exact Hgets.
    destruct (nonEmptyIds items); [now contradiction Hasked | reflexivity].
  - rewrite Hlog. world. now rewrite <- app_assoc.
Qed.

Lemma insights_unanswered (items : list string) (w : World) :
  forall driveItems : list Json,
  forOf (fun driveItems id =>
           match (∅ : gmap string (BatchResponse Json)) !! id with
           | Some response =>
               let content := contentJson (resp_content response) in
               if truthy content
               then ret (driveItems ++ [content])%list
               else ret driveItems
           | None => ret driveItems
           end) items driveItems w = (Ok driveItems, w).
Proof.
  induction items as [| id items IH]; intros driveItems; [reflexivity |].
  cbn [forOf]. rewrite lookup_empty, bind_ret. apply IH.
Qed.

(** No request at all is made for a falsy insight response or for
    insights whose ids are all empty: the result is the empty list,
    whatever the state of the endpoints. *)
Theorem insights_nothing_to_ask env fuel items scopes w :
  getDriveItemsByInsights env fuel None scopes w = (Ok [], w) /\
  (nonEmptyIds items = [] ->
   getDriveItemsByInsights env fuel (Some (Some items)) scopes w =
   (Ok [], appendLog [] w)).
Proof.
  split; [reflexivity |]. intros Hnone. unfold getDriveItemsByInsights.
  rewrite (insightsBatch_idle scopes items Hnone).
  erewrite tryCatch_ok; [reflexivity |].
  erewrite bind_ok by apply runBatch_idle. apply insights_unanswered.
Qed.

(** *** The attribute converters *)

(** The result of a converter is a member of its enumeration exactly
    when the value or the default it was given is one; with the default
    left out it always is. *)
Theorem converters_membership (value defaultValue : option string) :
  (isGroupType (groupTypeConverter value defaultValue) =
   isGroupType value || isGroupType (Some (default "any" defaultValue))) /\
  (isPersonCardInteraction (personCardConverter value defaultValue) =
   isPersonCardInteraction value ||
   isPersonCardInteraction (Some (default "none" defaultValue))) /\
  (isAvatarType (avatarTypeConverter value defaultValue) =
   isAvatarType value || isAvatarType (Some (default "photo" defaultValue))) /\
  isGroupType (groupTypeConverter value None) = true /\
  isPersonCardInteraction (personCardConverter value None) = true /\
  isAvatarType (avatarTypeConverter value None) = true.
Proof.
  unfold groupTypeConverter, personCardConverter, avatarTypeConverter.
  repeat split.
  - now destruct (isGroupType value) eqn:E; [rewrite E |].
  - now destruct (isPersonCardInteraction value) eqn:E; [rewrite E |].
  - now destruct (isAvatarType value) eqn:E; [rewrite E |].
  - now destruct (isGroupType value) eqn:E.
  - now destruct (isPersonCardInteraction value) eqn:E.
  - now destruct (isAvatarType value) eqn:E.
Qed.

(** *** [chainMiddleware] *)

Lemma chain_from (ms : list Middleware) : forall m calls,
  forOf link (map Some ms) (Some m) calls =
  (Ok (last (m :: ms)), (calls ++ links (m :: ms))%list).
Proof.
  induction ms as [| m' ms IH]; intros m calls.
  - cbn. now rewrite app_nil_r.
  - cbn [map forOf]. unfold bind at 1, link at 1.
    cbn [links]. rewrite last_cons_cons.
    destruct (mw_hasSetNext m); cbv [bind modify ret]; rewrite IH.
    + now rewrite <- app_assoc.
    + reflexivity.
Qed.

Lemma forOf_split {S A B} (f : A -> B -> M S A) (l1 l2 : list B) a s a1 s1 :
  forOf f l1 a s = (Ok a1, s1) ->
  forOf f (l1 ++ l2) a s = forOf f l2 a1 s1.
Proof.
  revert a s. induction l1 as [| b l1 IH]; intros a s H.
  - now injection H as -> ->.
  - cbn [forOf app] in *. unfold bind in *.
    destruct (f a b s) as [[a' | e |] s'] eqn:E; try discriminate.
    now apply IH.
Qed.

(** [chainMiddleware] returns its first argument; along the way it calls
    [setNext] once on every argument but the last that has the method,
    with the argument that follows, in order.  An [undefined] last
    argument is handed to its predecessor like any other; an [undefined]
    argument followed by another raises a [TypeError]. *)
Theorem chain_links (ms : list Middleware) (calls : Calls) :
  chainMiddleware (map Some ms) calls =
  (Ok (head ms), (calls ++ links ms)%list) /\
  (chainMiddleware (map Some ms ++ [None]) calls).1 = Ok (head ms) /\
  forall next rest,
    (chainMiddleware (map Some ms ++ None :: next :: rest) calls).1 =
    Throw TypeError.
Proof.
  destruct ms as [| m ms].
  - repeat split; cbn; now rewrite ?app_nil_r.
  - unfold chainMiddleware. cbn [map app head tail mjoin option_join].
    repeat split.
    + unfold bind. now rewrite chain_from.
    + unfold bind.
      rewrite (forOf_split _ _ _ _ _ _ _ (chain_from ms m calls)).
      cbn [forOf]. unfold bind, link.
      destruct (last (m :: ms)) as [c |] eqn:El.
      * destruct (mw_hasSetNext c); reflexivity.
      * now apply last_None in El.
    + intros next rest. unfold bind.
      rewrite (forOf_split _ _ _ _ _ _ _ (chain_from ms m calls)).
      cbn [forOf]. unfold bind at 1, link at 1.
      destruct (last (m :: ms)) as [c |] eqn:El;
        [| now apply last_None in El].
      destruct (mw_hasSetNext c); reflexivity.
Qed.

(** *** Concrete runs *)

(** Two teams while nothing can be reached. *)
Lemma channels_without_fallback_witness :
  getChannelsForTeams (allDown cacheOff) 1 [teamA; teamB] emptyWorld =
  (Throw (TransportError "Failed to fetch"),
   appendLog [rejectedPost (teamsBatch [teamA; teamB])
                           (TransportError "Failed to fetch")] emptyWorld).
Proof.
  assert (Hrej : rejectsAll (allDown cacheOff) (TransportError "Failed to fetch"))
    by (intros h sc steps; reflexivity).
  destruct (channels_without_fallback (allDown cacheOff) 0 [teamA; teamB]
              emptyWorld _ Hrej) as [Hfail _].
  apply Hfail. discriminate.
Defined.

(** Two teams, of which the second has no channel. *)
Lemma channels_in_team_order_witness :
  (getChannelsForTeams channelsEnv 1 [teamA; teamB] emptyWorld).1 =
  Ok [dropdownItem teamA [general]].
Proof.
  pose (answered := fun (id : string) (index : nat) (channels : list Json) =>
          {| resp_id := id; resp_index := index; resp_headers := ∅;
             resp_content := ContentOther (JObj [("value", JArr channels)]) |}).
  pose (responses :=
          (<["t2" := answered "t2" 1%nat []]>
             (<["t1" := answered "t1" 0%nat [general]]> ∅))
          : gmap string (BatchResponse Json)).
  assert (Hrun : exists w1,
             runBatch channelsEnv 1 (teamsBatch [teamA; teamB]) emptyWorld =
             (Ok responses, w1))
    by (eexists; vm_compute; reflexivity).
  destruct Hrun as [w1 Hrun].
  rewrite (channels_in_team_order channelsEnv 1 [teamA; teamB] emptyWorld
             responses w1 Hrun).
  - vm_compute. reflexivity.
  - apply Forall_cons; split; [| apply Forall_cons; split; [| now apply Forall_nil]];
      intros r Hr; vm_compute in Hr;
      injection Hr as <-; right; eexists; reflexivity.
Defined.

(** Three insights, one without an id, while the batch endpoint is
    down. *)
Lemma insights_fallback_witness :
  exists w',
    getDriveItemsByInsights (batchDown cacheOff) 1
      (Some (Some ["d1"; ""; "d2"])) ["Files.Read"] emptyWorld =
    (Ok [JObj [("id", JStr "d1")]; JObj [("id", JStr "d2")]], w') /\
    w_log w' =
    [rejectedPost (insightsBatch ["Files.Read"] ["d1"; ""; "d2"])
                  (TransportError "Failed to fetch");
     LogGet "d1"; LogGet "d2"].
Proof.
  assert (Hrej : rejectsAll (batchDown cacheOff) (TransportError "Failed to fetch"))
    by (intros h sc steps; reflexivity).
  assert (Hans : answersWith (batchDown cacheOff)
                             (fun path => JObj [("id", JStr path)]))
    by (intros l path; reflexivity).
  apply (insights_fallback (batchDown cacheOff) 0 ["d1"; ""; "d2"] ["Files.Read"]
           emptyWorld _ _ Hrej Hans).
  vm_compute. discriminate.
Defined.

(** The same insights while nothing can be reached. *)
Lemma insights_fallback_failure_witness :
  exists w',
    getDriveItemsByInsights (allDown cacheOff) 1
      (Some (Some ["d1"; ""; "d2"])) ["Files.Read"] emptyWorld =
    (Throw (TransportError "offline"), w') /\
    w_log w' =
    [rejectedPost (insightsBatch ["Files.Read"] ["d1"; ""; "d2"])
                  (TransportError "Failed to fetch");
     LogGet "d1"; LogGet "d2"].
Proof.
  assert (Hrej : rejectsAll (allDown cacheOff) (TransportError "Failed to fetch"))
    by (intros h sc steps; reflexivity).
  assert (Hfail : getsFail (allDown cacheOff) (TransportError "offline"))
    by (intros l path; reflexivity).
  apply (insights_fallback_failure (allDown cacheOff) 0 ["d1"; ""; "d2"]
           ["Files.Read"] emptyWorld _ _ Hrej Hfail).
  vm_compute. discriminate.
Defined.

(** Insights without ids. *)
Lemma insights_nothing_to_ask_witness :
  getDriveItemsByInsights (allDown cacheOff) 0 (Some (Some [""; ""]))
    ["Files.Read"] emptyWorld = (Ok [], appendLog [] emptyWorld).
Proof.
  destruct (insights_nothing_to_ask (allDown cacheOff) 0 [""; ""]
              ["Files.Read"] emptyWorld) as [_ Hnone].
  apply Hnone. vm_compute. reflexivity.
Defined.

End MoreExtras.
